(** * Scanimation generator: the encoding core of [main.py]

    A shallow embedding of the Python script that interlaces a sequence of
    frames into one base image and builds the matching grille mask, and the
    properties its specification states about it.

    Python integers are [Z]; a raised exception is the [Raise] branch of
    [result]; the Pillow image is a record holding its mode, its size and
    its pixel buffer as a list of rows. *)

From stdpp Require Import base numbers list strings pretty gmap.

Local Open Scope Z_scope.

(** ** Exceptions and the error monad *)

Inductive exn : Type :=
  | ValueError
  | IndexError
  | ZeroDivisionError
  | OverflowError
  | OSError (msg : string)
  | SystemExit (msg : string).

Inductive result (A : Type) : Type :=
  | Ok (a : A)
  | Raise (e : exn).
Arguments Ok {A} a.
Arguments Raise {A} e.

#[global] Instance result_ret : MRet result := λ A a, Ok a.
#[global] Instance result_bind : MBind result := λ A B f r,
  match r with
  | Ok a => f a
  | Raise e => Raise e
  end.

(** A [for] loop that threads the mutated object through its iterations and
    stops at the first exception. *)
Fixpoint for_each {A B : Type} (body : A → B → result A) (a : A) (l : list B)
    : result A :=
  match l with
  | [] => Ok a
  | b :: l' => a' ← body a b; for_each body a' l'
  end.

(** ** The Python built-ins the script uses *)

Module Py.

(** [a // b] *)
Definition floordiv (a b : Z) : result Z :=
  if decide (b = 0) then Raise ZeroDivisionError else Ok (a `div` b).

(** [a % b] *)
Definition mod_ (a b : Z) : result Z :=
  if decide (b = 0) then Raise ZeroDivisionError else Ok (a `mod` b).

(** Number of elements of [range(lo, hi, step)] for a positive step. *)
Definition range_length (lo hi step : Z) : Z :=
  if decide (lo < hi) then (hi - lo - 1) `div` step + 1 else 0.

(** [range(start, stop, step)], as the list a [for] loop walks. *)
Definition range (start stop step : Z) : result (list Z) :=
  if decide (step = 0) then Raise ValueError
  else
    let n := if decide (0 < step) then range_length start stop step
             else range_length stop start (- step) in
    Ok ((λ i, start + i * step) <$> seqZ 0 n).

(** [l[i]], negative indices counting from the end. *)
Definition index {A : Type} (l : list A) (i : Z) : result A :=
  let n := Z.of_nat (length l) in
  let j := if decide (i < 0) then i + n else i in
  if decide (0 ≤ j < n) then
    match l !! Z.to_nat j with
    | Some a => Ok a
    | None => Raise IndexError
    end
  else Raise IndexError.

(** [min(...)] over a sequence of integers. *)
Definition min (l : list Z) : result Z :=
  match l with
  | [] => Raise ValueError
  | x :: l' => Ok (foldl Z.min x l')
  end.

End Py.

(** ** Pillow images

    The script works on images through the Pillow library. The definitions
    of this part are what the calls the script makes do to an image, as the
    library documents and implements them: sizes may be zero but not
    negative, a crop reads zeros outside its source, a paste is clipped to
    its destination, and pasting through a mask blends each band with the
    integer arithmetic of the library. *)

Inductive Mode : Type := L | RGB | RGBA.

#[global] Instance Mode_eq_dec : EqDecision Mode.
Proof. solve_decision. Defined.

(** A pixel is the tuple of its band values, 8 bits each. *)
Definition Pixel : Type := list Z.

Record Image : Type := mkImage {
  mode : Mode;
  width : Z;
  height : Z;
  rows : list (list Pixel)
}.

Definition bands (m : Mode) : nat :=
  match m with
  | L => 1%nat
  | RGB => 3%nat
  | RGBA => 4%nat
  end.

Definition zero_pixel (m : Mode) : Pixel := replicate (bands m) 0.

(** The buffer of a [w]x[h] image whose pixel at [(x, y)] is [f x y]. *)
Definition tabulate (w h : Z) (f : Z → Z → Pixel) : list (list Pixel) :=
  (λ y, (λ x, f x y) <$> seqZ 0 w) <$> seqZ 0 h.

(** The stored pixel at an in-range coordinate. *)
Definition pixel_at (im : Image) (x y : Z) : option Pixel :=
  if decide (0 ≤ x < width im ∧ 0 ≤ y < height im) then
    row ← rows im !! Z.to_nat y; row !! Z.to_nat x
  else None.

(** What a read outside the buffer yields inside Pillow: zeros. *)
Definition pixel_or_zero (im : Image) (x y : Z) : Pixel :=
  default (zero_pixel (mode im)) (pixel_at im x y).

Definition chan (p : Pixel) (k : nat) : Z := default 0 (p !! k).

(** The buffer has the shape its size announces. *)
Definition well_shaped (im : Image) : Prop :=
  0 ≤ width im ∧ 0 ≤ height im ∧
  length (rows im) = Z.to_nat (height im) ∧
  Forall (λ row, length row = Z.to_nat (width im)) (rows im).

(** [a >> 8] with the rounding Pillow uses to divide by 255. *)
Definition div255 (a : Z) : Z :=
  let tmp := a + 128 in
  ((tmp ≫ 8) + tmp) ≫ 8.

(** Pillow's [BLEND8]: [in1] weighted by [255 - mask], [in2] by [mask]. *)
Definition blend8 (mask in1 in2 : Z) : Z :=
  div255 (in1 * (255 - mask) + in2 * mask).

Module PIL.

(** [Image.new(mode, size, color)] *)
Definition new (m : Mode) (size : Z * Z) (color : Pixel) : result Image :=
  let '(w, h) := size in
  if decide (w < 0 ∨ h < 0) then Raise ValueError
  else Ok (mkImage m w h (tabulate w h (λ _ _, color))).

(** The library holds the sides of an image in C [int]s: this is
    [INT_MAX], [2^31 - 1]. *)
Definition c_int_max : Z := 2147483647.

(** [Image.new(mode, size, color)] for a size that is not read off an
    image. The size is checked for its sign first, then handed to the C
    core, which raises [OverflowError] for a side beyond [c_int_max].

    The images a run works on were made by the library, so their sides are
    in that range; [new] leaves those sides unbounded, and to agree with it
    a side passes here up to [known], the largest side of the images that
    exist at the call, as well. For sides the library can hold the check
    is the library's own. Memory is not bounded in the model: no
    allocation fails for want of it. *)
Definition new_sized (known : Z) (m : Mode) (size : Z * Z) (color : Pixel)
    : result Image :=
  let '(w, h) := size in
  if decide (w < 0 ∨ h < 0) then Raise ValueError
  else if decide (Z.max c_int_max known < w ∨ Z.max c_int_max known < h)
  then Raise OverflowError
  else new m size color.

Definition convert_pixel (from to : Mode) (p : Pixel) : Pixel :=
  match from, to with
  | L, L | RGB, RGB | RGBA, RGBA => p
  | L, RGB => [chan p 0; chan p 0; chan p 0]
  | L, RGBA => [chan p 0; chan p 0; chan p 0; 255]
  | RGB, RGBA => [chan p 0; chan p 1; chan p 2; 255]
  | RGBA, RGB => [chan p 0; chan p 1; chan p 2]
  | (RGB | RGBA), L =>
      [(chan p 0 * 19595 + chan p 1 * 38470 + chan p 2 * 7471 + 32768) ≫ 16]
  end.

(** [im.convert(mode)] *)
Definition convert (im : Image) (m : Mode) : Image :=
  mkImage m (width im) (height im)
    (tabulate (width im) (height im)
       (λ x y, convert_pixel (mode im) m (pixel_or_zero im x y))).

(** [im.split()]: one single-band image per band. *)
Definition split (im : Image) : list Image :=
  (λ k, mkImage L (width im) (height im)
          (tabulate (width im) (height im)
             (λ x y, [chan (pixel_or_zero im x y) k])))
  <$> seq 0 (bands (mode im)).

(** [im.crop((x0, y0, x1, y1))]: a new image of size
    [(x1 - x0, y1 - y0)]; what lies outside the source is zero. *)
Definition crop (im : Image) (box : Z * Z * Z * Z) : result Image :=
  let '(x0, y0, x1, y1) := box in
  if decide (x1 < x0 ∨ y1 < y0) then Raise ValueError
  else
    Ok (mkImage (mode im) (x1 - x0) (y1 - y0)
          (tabulate (x1 - x0) (y1 - y0)
             (λ x y, pixel_or_zero im (x0 + x) (y0 + y)))).

(** [im.resize((w, h), resample)] of a non-empty image: the size is the
    one asked for; the pixel values come from the resampling filter,
    which is floating-point code of the library and stays a parameter. *)
Definition resize (filter : Image → Z * Z → Z → Z → Pixel)
    (im : Image) (size : Z * Z) : result Image :=
  let '(w, h) := size in
  if decide (w < 1 ∨ h < 1) then Raise ValueError
  else Ok (mkImage (mode im) w h (tabulate w h (filter im (w, h)))).

(** The region of the destination that [paste] of [src] at [(x0, y0)]
    addresses, before clipping to the destination. *)
Definition paste_box (src : Image) (xy : Z * Z) : Z * Z * Z * Z :=
  (xy.1, xy.2, xy.1 + width src, xy.2 + height src).

Definition in_box (box : Z * Z * Z * Z) (x y : Z) : Prop :=
  let '(x0, y0, x1, y1) := box in x0 ≤ x < x1 ∧ y0 ≤ y < y1.

#[global] Instance in_box_dec box x y : Decision (in_box box x y).
Proof. destruct box as [[[??]?]?]; simpl; apply _. Defined.

(** The blend weight a mask image gives at a pixel. *)
Definition mask_weight (mask : Image) (x y : Z) : Z :=
  match mode mask with
  | L => chan (pixel_or_zero mask x y) 0
  | RGBA => chan (pixel_or_zero mask x y) 3
  | RGB => 255
  end.

(** A mask must carry a transparency band and have the source's size. *)
Definition mask_fits (mask : option Image) (src : Image) : bool :=
  match mask with
  | None => true
  | Some m =>
      bool_decide
        (mode m ≠ RGB ∧ width m = width src ∧ height m = height src)
  end.

(** [dst.paste(src, xy, mask)]: the updated destination. The source is
    copied into the part of its box that lies inside the destination;
    with a mask each band is blended with the mask value as weight. *)
Definition paste (dst src : Image) (xy : Z * Z) (mask : option Image)
    : result Image :=
  let src :=
    if decide (mode dst = mode src ∨ (mode dst = RGB ∧ mode src = RGBA))
    then src else convert src (mode dst) in
  if mask_fits mask src then
    Ok (mkImage (mode dst) (width dst) (height dst)
          (tabulate (width dst) (height dst) (λ x y,
             if decide (in_box (paste_box src xy) x y) then
               let s := pixel_or_zero src (x - xy.1) (y - xy.2) in
               match mask with
               | None => take (bands (mode dst)) s
               | Some m =>
                   zip_with (blend8 (mask_weight m (x - xy.1) (y - xy.2)))
                     (pixel_or_zero dst x y) s
               end
             else pixel_or_zero dst x y)))
  else Raise ValueError.

End PIL.

(** ** The script *)

(** One stripe of the vertical interlace: the column range [[x, x2)] and
    the index of the frame it is cut from. *)
Record Stripe : Type := mkStripe {
  stripe_x : Z;
  stripe_x2 : Z;
  stripe_frame : Z
}.

(** The two assignments at the head of the loop body of
    [interlace_vertical]: [f_idx] and [x2] for the stripe starting at [x]. *)
Definition vertical_stripe (N W slice_w x : Z) : result Stripe :=
  q ← Py.floordiv x slice_w;
  f_idx ← Py.mod_ q N;
  let x2 := Z.min (x + slice_w) W in
  Ok (mkStripe x x2 f_idx).

Definition clamp_slice (slice_w W : Z) : Z := Z.max 1 (Z.min slice_w W).

Definition interlace_vertical (frames : list Image) (W H slice_w : Z)
    : result Image :=
  let N := Z.of_nat (length frames) in
  let slice_w := clamp_slice slice_w W in
  out ← PIL.new RGBA (W, H) [0; 0; 0; 0];
  xs ← Py.range 0 W slice_w;
  for_each (λ out x,
      s ← vertical_stripe N W slice_w x;
      frame ← Py.index frames (stripe_frame s);
      crop ← PIL.crop frame (stripe_x s, 0, stripe_x2 s, H);
      PIL.paste out crop (stripe_x s, 0) None)
    out xs.

(** What one iteration of the loop of [interlace_vertical] touches: the
    index of the frame it reads, the box it crops from that frame, and the
    box of the canvas its paste addresses. *)
Record Access : Type := mkAccess {
  read_frame : Z;
  read_box : Z * Z * Z * Z;
  write_box : Z * Z * Z * Z
}.

(** [interlace_vertical] once more, statement for statement, with the
    loop carrying along the canvas the list of the accesses made so far:
    the box handed to [crop] and the box [paste] writes the crop to. *)
Definition interlace_vertical_accesses (frames : list Image)
    (W H slice_w : Z) : result (Image * list Access) :=
  let N := Z.of_nat (length frames) in
  let slice_w := clamp_slice slice_w W in
  out ← PIL.new RGBA (W, H) [0; 0; 0; 0];
  xs ← Py.range 0 W slice_w;
  for_each (λ '(out, log) x,
      s ← vertical_stripe N W slice_w x;
      frame ← Py.index frames (stripe_frame s);
      let box := (stripe_x s, 0, stripe_x2 s, H) in
      crop ← PIL.crop frame box;
      out ← PIL.paste out crop (stripe_x s, 0) None;
      Ok (out, log ++ [mkAccess (stripe_frame s) box
                         (PIL.paste_box crop (stripe_x s, 0))]))
    (out, []) xs.

(** The rows of the horizontal interlace, the transposed analogue. *)
Definition horizontal_stripe (N H slice_h y : Z) : result Stripe :=
  q ← Py.floordiv y slice_h;
  f_idx ← Py.mod_ q N;
  let y2 := Z.min (y + slice_h) H in
  Ok (mkStripe y y2 f_idx).

Definition interlace_horizontal (frames : list Image) (W H slice_h : Z)
    : result Image :=
  let N := Z.of_nat (length frames) in
  let slice_h := clamp_slice slice_h H in
  out ← PIL.new RGBA (W, H) [0; 0; 0; 0];
  ys ← Py.range 0 H slice_h;
  for_each (λ out y,
      s ← horizontal_stripe N H slice_h y;
      frame ← Py.index frames (stripe_frame s);
      crop ← PIL.crop frame (0, stripe_x s, W, stripe_x2 s);
      PIL.paste out crop (0, stripe_x s) None)
    out ys.

(** [slice_px] is not clamped to the mask: the slit is allocated with the
    side the caller asked for, which comes from the command line and is
    the one size of the script that is not the side of an image. *)
Definition make_mask (W H slice_px N : Z) (direction : string)
    : result Image :=
  let slice_px := Z.max 1 slice_px in
  let period := slice_px * N in
  mask ← PIL.new RGBA (W, H) [0; 0; 0; 255];
  if decide (direction = "vertical") then
    slit ← PIL.new_sized (Z.max W H) RGBA (slice_px, H) [0; 0; 0; 0];
    xs ← Py.range 0 W period;
    for_each (λ mask x, PIL.paste mask slit (x, 0) None) mask xs
  else
    slit ← PIL.new_sized (Z.max W H) RGBA (W, slice_px) [0; 0; 0; 0];
    ys ← Py.range 0 H period;
    for_each (λ mask y, PIL.paste mask slit (0, y) None) mask ys.

Definition composite_on_white (img : Image) : result Image :=
  if decide (mode img ≠ RGBA) then Ok (PIL.convert img RGB)
  else
    bg ← PIL.new RGB (width img, height img) [255; 255; 255];
    alpha ← Py.index (PIL.split img) (-1);
    PIL.paste bg img (0, 0) (Some alpha).

(** *** The command-line arguments, as [parse_args] returns them *)

Module Args.
Record t : Type := mk {
  dir : string;
  recursive : bool;
  exts : string;
  slice : Z;
  direction : string;
  resize : string;
  out_base : string;
  out_mask : option string;
  force_rgb : bool;
  white_bg : bool
}.
End Args.

(** *** What the script asks of its surroundings

    The file system, the image decoder and encoder, the resampling filter,
    the natural sort and the string methods are services of the Python
    runtime and its libraries; the script is modelled over any
    implementation of them. Making a directory and writing an image file
    can fail: [mkdir_error] and [save_error] give the exception the call
    raises, [None] when it returns. *)

Record Env : Type := mkEnv {
  path_resolve : string → string;          (* Path(d).expanduser().resolve() *)
  path_exists : string → bool;
  path_glob : string → list string;        (* folder.glob("*") *)
  path_rglob : string → list string;       (* folder.rglob("*") *)
  path_is_file : string → bool;
  path_suffix : string → string;
  path_name : string → string;
  path_parent : string → string;
  path_str : string → string;              (* str(Path(s)) *)
  mkdir_error : string → option exn;       (* what p.mkdir(parents=True,
                                              exist_ok=True) raises *)
  save_error : string → Image → option exn; (* what img.save(p) raises *)
  str_lower : string → string;
  str_strip : string → string;
  str_lstrip : string → string → string;   (* s.lstrip(chars) *)
  str_split : string → string → list string;
  str_repr : list string → string;         (* how an f-string shows a list *)
  natsorted : list string → (string → string) → list string;
  image_open : string → string + Image;    (* the error text, or the image *)
  lanczos : Image → Z * Z → Z → Z → Pixel
}.

(** What a run has done to the outside world, in order: the lines it
    printed, the directories it made sure of, the images it wrote. A call
    that raised has left no event. *)
Inductive event : Type :=
  | Print (line : string)
  | Mkdir (path : string)
  | Save (path : string) (img : Image).

(** A computation that logs its events and may raise. *)
Definition io (A : Type) : Type := (list event * result A)%type.

#[global] Instance io_ret : MRet io := λ A a, ([], Ok a).
#[global] Instance io_bind : MBind io := λ A B f m,
  match m.2 with
  | Ok a => (m.1 ++ (f a).1, (f a).2)
  | Raise e => (m.1, Raise e)
  end.

Definition emit (e : event) : io unit := ([e], Ok ()).
Definition emit_each (es : list event) : io unit := (es, Ok ()).
Definition lift {A : Type} (r : result A) : io A := ([], r).

(** The exit status of the interpreter: an exception that reaches the top
    level, [SystemExit] with a message included, ends the process with 1. *)
Definition exit_status (r : result unit) : Z :=
  match r with
  | Ok _ => 0
  | Raise _ => 1
  end.

Section Script.

Variable env : Env.

Definition collect_files (folder : string) (exts : list string)
    (recursive : bool) : list string :=
  let exts_lc : gset string :=
    list_to_set
      ((λ e, str_lstrip env (str_lower env e) ".")
         <$> filter (λ e, str_strip env e ≠ EmptyString) exts) in
  let wanted p :=
    path_is_file env p = true ∧
    str_lstrip env (str_lower env (path_suffix env p)) "." ∈ exts_lc in
  let files :=
    if recursive then filter wanted (path_rglob env folder)
    else filter wanted (path_glob env folder) in
  natsorted env files (path_name env).

Definition load_frames (files : list string) : result (list Image) :=
  for_each (λ imgs f,
      match image_open env f with
      | inr im => Ok (imgs ++ [PIL.convert im RGBA])
      | inl e =>
          Raise (SystemExit
            ("[ERROR] Failed to open image: " +:+ f +:+ " (" +:+ e +:+ ")"))
      end)
    [] files.

Definition unify_sizes (imgs : list Image) (mode : string)
    : result (list Image * Z * Z) :=
  '(W, H) ←
    (if decide (mode = "first") then
       im0 ← Py.index imgs 0;
       Ok (width im0, height im0)
     else
       W ← Py.min (width <$> imgs);
       H ← Py.min (height <$> imgs);
       Ok (W, H));
  out ← for_each (λ out im,
      if decide (width im ≠ W ∨ height im ≠ H) then
        r ← PIL.resize (lanczos env) im (W, H);
        Ok (out ++ [r])
      else Ok (out ++ [im]))
    [] imgs;
  Ok (out, W, H).

(** [Path(args.dir).expanduser().resolve()] *)
Definition main_folder (args : Args.t) : string :=
  path_resolve env (Args.dir args).

(** [[e.strip() for e in args.exts.split(",") if e.strip()]] *)
Definition main_exts (args : Args.t) : list string :=
  str_strip env <$>
    filter (λ e, str_strip env e ≠ EmptyString)
      (str_split env (Args.exts args) ",").

(** [main] up to the check on the number of collected files (lines
    132-140). *)
Definition main_collect (args : Args.t) : io (string * list string) :=
  let folder := main_folder args in
  if path_exists env folder then
    let exts := main_exts args in
    let files := collect_files folder exts (Args.recursive args) in
    if decide (length files < 2)%nat then
      lift (Raise (SystemExit
        ("[ERROR] Found " +:+ pretty (length files) +:+ " image(s) in "
           +:+ folder +:+ " with exts " +:+ str_repr env exts
           +:+ ". Need at least 2.")))
    else mret (folder, files)
  else
    lift (Raise (SystemExit ("[ERROR] Folder not found: " +:+ folder))).

(** Lines 146-152 of [main]: the interlaced base, with the unified
    frames it was built from and their size. *)
Definition main_base (args : Args.t) (files : list string)
    : result (Image * list Image * Z * Z) :=
  frames ← load_frames files;
  '(frames, W, H) ← unify_sizes frames (Args.resize args);
  base ←
    (if decide (Args.direction args = "vertical") then
       interlace_vertical frames W H (Args.slice args)
     else interlace_horizontal frames W H (Args.slice args));
  Ok (base, frames, W, H).

(** Lines 155-159 of [main], the output mode: white background first,
    forced RGB otherwise. *)
Definition main_post_pass (args : Args.t) (base : Image) : result Image :=
  if Args.white_bg args then composite_on_white base
  else if Args.force_rgb args then Ok (PIL.convert base RGB)
  else Ok base.

(** [if args.out_mask:] holds for a string that is not empty. *)
Definition truthy (s : option string) : bool :=
  match s with
  | Some (String _ _) => true
  | _ => false
  end.

(** [p.mkdir(parents=True, exist_ok=True)] *)
Definition mkdir (p : string) : io unit :=
  match mkdir_error env p with
  | None => emit (Mkdir p)
  | Some e => lift (Raise e)
  end.

(** [img.save(p)] *)
Definition save (p : string) (img : Image) : io unit :=
  match save_error env p img with
  | None => emit (Save p img)
  | Some e => lift (Raise e)
  end.

(** The whole of [main]. [hasattr(args, "out-base")] is false for the
    namespace [parse_args] builds, so the output path is
    [Path(args.out_base)]. *)
Definition main (args : Args.t) : io unit :=
  '(folder, files) ← main_collect args;
  emit (Print ("[INFO] Collected " +:+ pretty (length files)
                 +:+ " frame(s) from " +:+ folder +:+ ":"));;
  emit_each ((λ p, Print ("  - " +:+ path_name env p)) <$> files);;
  '(base, frames, W, H) ← lift (main_base args files);
  out_img ← lift (main_post_pass args base);
  let out_base := path_str env (Args.out_base args) in
  mkdir (path_parent env out_base);;
  save out_base out_img;;
  emit (Print ("[OK] Base saved -> " +:+ out_base +:+ "  (size: "
                 +:+ pretty W +:+ "x" +:+ pretty H +:+ ", frames: "
                 +:+ pretty (length frames) +:+ ", slice: "
                 +:+ pretty (Args.slice args) +:+ ", dir: "
                 +:+ Args.direction args +:+ ")"));;
  if truthy (Args.out_mask args) then
    mask ← lift (make_mask W H (Args.slice args)
                   (Z.of_nat (length frames)) (Args.direction args));
    let out_mask := path_str env (default EmptyString (Args.out_mask args)) in
    mkdir (path_parent env out_mask);;
    save out_mask mask;;
    emit (Print ("[OK] Mask saved -> " +:+ out_mask +:+ "  (period: "
                   +:+ pretty (Args.slice args * Z.of_nat (length frames))
                   +:+ " px)"))
  else mret ().

End Script.

(** ** Vocabulary of the properties *)

(** *** Well-formed images *)

(** A pixel of mode [m] has one 8-bit value per band. *)
Definition valid_pixel (m : Mode) (p : Pixel) : Prop :=
  length p = bands m ∧ Forall (λ c, 0 ≤ c ≤ 255) p.

#[global] Instance valid_pixel_dec m p : Decision (valid_pixel m p).
Proof. unfold valid_pixel. apply _. Defined.

Definition valid_image (im : Image) : Prop :=
  well_shaped im ∧ Forall (Forall (valid_pixel (mode im))) (rows im).

#[global] Instance valid_image_dec im : Decision (valid_image im).
Proof. unfold valid_image, well_shaped. apply _. Defined.

(** A decoded frame of the unified size [(W, H)]. *)
Definition is_frame (W H : Z) (im : Image) : Prop :=
  mode im = RGBA ∧ width im = W ∧ height im = H ∧ valid_image im.

#[global] Instance is_frame_dec W H im : Decision (is_frame W H im).
Proof. unfold is_frame. apply _. Defined.

(** An RGBA canvas of size [(W, H)]. *)
Definition canvas (W H : Z) (out : Image) : Prop :=
  mode out = RGBA ∧ width out = W ∧ height out = H ∧ 0 ≤ W ∧ 0 ≤ H.

(** *** The pixel an interlace is to hold *)

(** At [(x, y)] of the vertical interlace with stripes of width [s]: the
    pixel of frame [floor(x / s) mod N] at the same position. *)
Definition vertical_source (frames : list Image) (s x y : Z) : option Pixel :=
  frame ← frames !! Z.to_nat ((x `div` s) `mod` Z.of_nat (length frames));
  pixel_at frame x y.

(** At [(x, y)] of the horizontal interlace with stripes of height [s]:
    the pixel of frame [floor(y / s) mod N]. *)
Definition horizontal_source (frames : list Image) (s x y : Z)
    : option Pixel :=
  frame ← frames !! Z.to_nat ((y `div` s) `mod` Z.of_nat (length frames));
  pixel_at frame x y.

(** *** The stripes of the vertical interlace *)

(** The stripes [interlace_vertical] cuts, in the order of its loop: the
    head of the loop body at every [x] of [range(0, W, slice_w)]. *)
Definition vertical_stripes (N W slice_w : Z) : result (list Stripe) :=
  let slice_w := clamp_slice slice_w W in
  xs ← Py.range 0 W slice_w;
  mapM (vertical_stripe N W slice_w) xs.

(** Column [x] lies in the stripe. *)
Definition covers (x : Z) (st : Stripe) : Prop :=
  stripe_x st ≤ x < stripe_x2 st.

#[global] Instance covers_dec x st : Decision (covers x st).
Proof. unfold covers. apply _. Defined.

(** The stripes follow one another from column [lo] to column [hi]: each
    is non-empty and starts where the previous one ends. *)
Fixpoint tiles (lo hi : Z) (sts : list Stripe) : Prop :=
  match sts with
  | [] => lo = hi
  | st :: sts' =>
      stripe_x st = lo ∧ lo < stripe_x2 st ∧ tiles (stripe_x2 st) hi sts'
  end.

(** The columns a box spans lie in [[0, W)]. *)
Definition columns_within (W : Z) (box : Z * Z * Z * Z) : Prop :=
  let '(x0, _, x1, _) := box in 0 ≤ x0 ∧ x1 ≤ W.

(** The stripe an access writes: the columns of its write box, and the
    frame it read. *)
Definition access_stripe (a : Access) : Stripe :=
  let '(x0, _, x1, _) := write_box a in mkStripe x0 x1 (read_frame a).

(** The columns a box spans. *)
Definition box_columns (box : Z * Z * Z * Z) : Z * Z :=
  let '(x0, _, x1, _) := box in (x0, x1).

(** The access of the iteration that starts at column [x]. *)
Definition access_at (N W s H x : Z) : Access :=
  let x2 := Z.min (x + s) W in
  mkAccess ((x `div` s) `mod` N) (x, 0, x2, H)
    (x, 0, x + (x2 - x), 0 + (H - 0)).

(** [interlace_vertical] cuts column [x] of its canvas from frame number
    [k]: whatever the [N] frames of size [(W, H)] are, it returns a canvas
    whose column [x] is column [x] of the [k]-th of them. *)
Definition column_cut_from (N W H slice_w x k : Z) : Prop :=
  0 ≤ k ∧
  ∀ frames : list Image,
    Z.of_nat (length frames) = N → Forall (is_frame W H) frames →
    ∃ base frame,
      interlace_vertical frames W H slice_w = Ok base ∧
      frames !! Z.to_nat k = Some frame ∧
      ∀ y, 0 ≤ y < H → pixel_at base x y = pixel_at frame x y.

(** *** Columns of a mask *)

(** The slit of a mask is no larger than the mask: no wider in the
    vertical direction, no higher in the other. *)
Definition slit_within (W H slice_px : Z) (direction : string) : Prop :=
  Z.max 1 slice_px ≤ (if decide (direction = "vertical") then W else H).

#[global] Instance slit_within_dec W H slice_px direction :
  Decision (slit_within W H slice_px direction).
Proof. unfold slit_within. apply _. Defined.

(** The library can hold the side of the slit. *)
Definition slit_in_range (W H slice_px : Z) : Prop :=
  Z.max 1 slice_px ≤ Z.max PIL.c_int_max (Z.max W H).

(** The alpha values down column [x]. *)
Definition column_alpha (im : Image) (x : Z) : list (option Z) :=
  (λ y, (λ p, chan p 3) <$> pixel_at im x y) <$> seqZ 0 (height im).

Definition column_transparent (im : Image) (x : Z) : Prop :=
  Forall (λ a, a = Some 0) (column_alpha im x).

#[global] Instance column_transparent_dec im x :
  Decision (column_transparent im x).
Proof. unfold column_transparent. apply _. Defined.

Definition column_opaque (im : Image) (x : Z) : Prop :=
  Forall (λ a, a = Some 255) (column_alpha im x).

#[global] Instance column_opaque_dec im x : Decision (column_opaque im x).
Proof. unfold column_opaque. apply _. Defined.

(** *** The files a run writes *)

Definition saves (trace : list event) : list (string * Image) :=
  omap (λ e, match e with Save p img => Some (p, img) | _ => None end) trace.

(** ** Worked inputs *)

(** The frames of the scenarios of the specification: solid colours. *)
Definition solid (w h : Z) (c : Pixel) : Image :=
  mkImage RGBA w h (tabulate w h (λ _ _, c)).

Definition red : Pixel := [255; 0; 0; 255].
Definition green : Pixel := [0; 255; 0; 255].
Definition blue : Pixel := [0; 0; 255; 255].

(** [N] solid frames of size [(W, H)] that tell frame [k] from the
    others: it is red, they are green. *)
Definition marked_frames (N W H k : Z) : list Image :=
  (λ i, solid W H (if decide (i = k) then red else green)) <$> seqZ 0 N.

(** An environment for the worked runs: [listing] is what the folder
    holds, all of it [.png] files; the file [1.png] decodes to a
    transparent pixel pair, any other to an opaque one. *)
Definition example_env_with (listing : list string) : Env := {|
  path_resolve := λ d, d;
  path_exists := λ _, true;
  path_glob := λ _, listing;
  path_rglob := λ _, listing;
  path_is_file := λ _, true;
  path_suffix := λ _, ".png";
  path_name := λ p, p;
  path_parent := λ _, ".";
  path_str := λ s, s;
  mkdir_error := λ _, None;
  save_error := λ _ _, None;
  str_lower := λ s, s;
  str_strip := λ s, s;
  str_lstrip := λ s _, if decide (s = ".png") then "png" else s;
  str_split := λ s _, [s];
  str_repr := λ _, "['png']";
  natsorted := λ l _, l;
  image_open := λ p,
    if decide (p = "1.png") then inr (solid 2 1 [10; 20; 30; 0])
    else inr (solid 2 1 [40; 50; 60; 255]);
  lanczos := λ im _ _ _, pixel_or_zero im 0 0
|}.

Definition example_env : Env := example_env_with ["1.png"; "2.png"].

(** The defaults of [parse_args], but for the extensions and the two
    output-mode flags. *)
Definition example_args (white_bg force_rgb : bool) : Args.t := {|
  Args.dir := ".";
  Args.recursive := false;
  Args.exts := "png";
  Args.slice := 1;
  Args.direction := "vertical";
  Args.resize := "first";
  Args.out_base := "scanimation_base.png";
  Args.out_mask := None;
  Args.force_rgb := force_rgb;
  Args.white_bg := white_bg
|}.

(** ** Vocabulary of the further properties *)

(** The image with rows and columns exchanged. *)
Definition transpose (im : Image) : Image :=
  mkImage (mode im) (height im) (width im)
    (tabulate (height im) (width im) (λ x y, pixel_or_zero im y x)).

(** The two pixels a mask is made of. *)
Definition slit_pixel : Pixel := [0; 0; 0; 0].
Definition bar_pixel : Pixel := [0; 0; 0; 255].

(** What [unify_sizes] returns for one frame once the target size is
    [(W, H)]: the frame itself if it has that size, its resampling to that
    size otherwise. *)
Definition fit_to (env : Env) (W H : Z) (im : Image) : Image :=
  if decide (width im ≠ W ∨ height im ≠ H)
  then mkImage (mode im) W H (tabulate W H (lanczos env im (W, H)))
  else im.

(** File [f] decodes to frame [im]: [Image.open(f)] returns, and [im] is
    its conversion to RGBA. *)
Definition decodes_to (env : Env) (f : string) (im : Image) : Prop :=
  ∃ raw, image_open env f = inr raw ∧ im = PIL.convert raw RGBA.

(** The message [load_frames] aborts with for file [f] and error [e]. *)
Definition open_failure (f e : string) : exn :=
  SystemExit ("[ERROR] Failed to open image: " +:+ f +:+ " (" +:+ e +:+ ")").

(** The environment [env] with another image decoder. *)
Definition with_image_open (env : Env) (open_ : string → string + Image)
    : Env := {|
  path_resolve := path_resolve env;
  path_exists := path_exists env;
  path_glob := path_glob env;
  path_rglob := path_rglob env;
  path_is_file := path_is_file env;
  path_suffix := path_suffix env;
  path_name := path_name env;
  path_parent := path_parent env;
  path_str := path_str env;
  mkdir_error := mkdir_error env;
  save_error := save_error env;
  str_lower := str_lower env;
  str_strip := str_strip env;
  str_lstrip := str_lstrip env;
  str_split := str_split env;
  str_repr := str_repr env;
  natsorted := natsorted env;
  image_open := open_;
  lanczos := lanczos env
|}.

(** A folder of three files, the second of which is not an image. *)
Definition broken_env : Env :=
  with_image_open (example_env_with ["1.png"; "2.png"; "3.png"])
    (λ p, if decide (p = "2.png") then inl "cannot identify image file"
          else inr (solid 2 1 [40; 50; 60; 255])).

(** The environment [env] where the folder does not exist. *)
Definition without_folder (env : Env) : Env := {|
  path_resolve := path_resolve env;
  path_exists := λ _, false;
  path_glob := path_glob env;
  path_rglob := path_rglob env;
  path_is_file := path_is_file env;
  path_suffix := path_suffix env;
  path_name := path_name env;
  path_parent := path_parent env;
  path_str := path_str env;
  mkdir_error := mkdir_error env;
  save_error := save_error env;
  str_lower := str_lower env;
  str_strip := str_strip env;
  str_lstrip := str_lstrip env;
  str_split := str_split env;
  str_repr := str_repr env;
  natsorted := natsorted env;
  image_open := image_open env;
  lanczos := lanczos env
|}.

(** The environment [env] with another image encoder. *)
Definition with_save_error (env : Env)
    (save_ : string → Image → option exn) : Env := {|
  path_resolve := path_resolve env;
  path_exists := path_exists env;
  path_glob := path_glob env;
  path_rglob := path_rglob env;
  path_is_file := path_is_file env;
  path_suffix := path_suffix env;
  path_name := path_name env;
  path_parent := path_parent env;
  path_str := path_str env;
  mkdir_error := mkdir_error env;
  save_error := save_;
  str_lower := str_lower env;
  str_strip := str_strip env;
  str_lstrip := str_lstrip env;
  str_split := str_split env;
  str_repr := str_repr env;
  natsorted := natsorted env;
  image_open := image_open env;
  lanczos := lanczos env
|}.

(** The example environment with an encoder that, like the JPEG one,
    refuses an image with a transparency band for the two [.jpg] paths of
    the worked runs. *)
Definition jpeg_env : Env :=
  with_save_error example_env (λ p img,
    if decide (mode img = RGBA ∧ (p = "base.jpg" ∨ p = "mask.jpg"))
    then Some (OSError "cannot write mode RGBA as JPEG") else None).

(** The example arguments with the given slice and output paths. *)
Definition example_args_out (slice : Z) (out_base : string)
    (out_mask : option string) : Args.t := {|
  Args.dir := ".";
  Args.recursive := false;
  Args.exts := "png";
  Args.slice := slice;
  Args.direction := "vertical";
  Args.resize := "first";
  Args.out_base := out_base;
  Args.out_mask := out_mask;
  Args.force_rgb := false;
  Args.white_bg := false
|}.

(** The example arguments with a mask asked for. *)
Definition example_args_mask : Args.t := {|
  Args.dir := ".";
  Args.recursive := false;
  Args.exts := "png";
  Args.slice := 1;
  Args.direction := "vertical";
  Args.resize := "first";
  Args.out_base := "scanimation_base.png";
  Args.out_mask := Some "mask.png";
  Args.force_rgb := false;
  Args.white_bg := false
|}.

(** * Properties *)

(** ** Buffers *)

Lemma lookup_tabulate (w h : Z) (f : Z → Z → Pixel) (x y : Z) :
  0 ≤ x < w → 0 ≤ y < h →
  (row ← tabulate w h f !! Z.to_nat y; row !! Z.to_nat x) = Some (f x y).
Proof.
  intros Hx Hy. unfold tabulate.
  rewrite list_lookup_fmap, lookup_seqZ_lt by lia. simpl.
  rewrite list_lookup_fmap, lookup_seqZ_lt by lia. simpl.
  do 2 f_equal; lia.
Qed.

Lemma pixel_at_tabulate (m : Mode) (w h : Z) (f : Z → Z → Pixel) (x y : Z) :
  0 ≤ x < w → 0 ≤ y < h →
  pixel_at (mkImage m w h (tabulate w h f)) x y = Some (f x y).
Proof.
  intros Hx Hy. unfold pixel_at; simpl.
  rewrite decide_True by lia. by apply lookup_tabulate.
Qed.

Lemma pixel_at_outside (im : Image) (x y : Z) :
  ¬ (0 ≤ x < width im ∧ 0 ≤ y < height im) → pixel_at im x y = None.
Proof. intros Hout. unfold pixel_at. by rewrite decide_False. Qed.

Lemma pixel_at_valid (im : Image) (x y : Z) :
  valid_image im → 0 ≤ x < width im → 0 ≤ y < height im →
  ∃ p, pixel_at im x y = Some p ∧ valid_pixel (mode im) p.
Proof.
  intros [(Hw & Hh & Hlen & Hrows) Hpx] Hx Hy. unfold pixel_at.
  rewrite decide_True by lia.
  destruct (lookup_lt_is_Some_2 (rows im) (Z.to_nat y)) as [row Hrow]; [lia|].
  rewrite Hrow; simpl.
  pose proof (Forall_lookup_1 _ _ _ _ Hrows Hrow) as Hrl. simpl in Hrl.
  destruct (lookup_lt_is_Some_2 row (Z.to_nat x)) as [p Hp]; [lia|].
  exists p. split; [done|].
  pose proof (Forall_lookup_1 _ _ _ _ Hpx Hrow) as Hrp.
  by apply (Forall_lookup_1 _ _ _ _ Hrp Hp).
Qed.

Lemma length_tabulate (w h : Z) (f : Z → Z → Pixel) :
  length (tabulate w h f) = Z.to_nat h.
Proof. unfold tabulate. by rewrite length_fmap, length_seqZ. Qed.

Lemma well_shaped_tabulate (m : Mode) (w h : Z) (f : Z → Z → Pixel) :
  0 ≤ w → 0 ≤ h → well_shaped (mkImage m w h (tabulate w h f)).
Proof.
  intros Hw Hh. repeat split; simpl; try lia.
  - apply length_tabulate.
  - unfold tabulate. apply Forall_fmap, Forall_forall. intros y _. simpl.
    by rewrite length_fmap, length_seqZ.
Qed.

Lemma valid_tabulate (m : Mode) (w h : Z) (f : Z → Z → Pixel) :
  0 ≤ w → 0 ≤ h →
  (∀ x y, 0 ≤ x < w → 0 ≤ y < h → valid_pixel m (f x y)) →
  valid_image (mkImage m w h (tabulate w h f)).
Proof.
  intros Hw Hh Hf. split; [by apply well_shaped_tabulate|]. simpl.
  unfold tabulate. apply Forall_fmap, Forall_forall.
  intros y Hy%elem_of_seqZ. simpl.
  apply Forall_fmap, Forall_forall. intros x Hx%elem_of_seqZ. simpl.
  apply Hf; lia.
Qed.

(** ** Built-ins *)

Lemma index_lookup {A : Type} (l : list A) (i : Z) (a : A) :
  0 ≤ i → l !! Z.to_nat i = Some a → Py.index l i = Ok a.
Proof.
  intros Hi Hl. unfold Py.index.
  pose proof (lookup_lt_Some _ _ _ Hl) as Hlt.
  rewrite (decide_False (P := i < 0)) by lia.
  rewrite decide_True by lia. by rewrite Hl.
Qed.

Lemma range_length_bounds (W s : Z) :
  1 ≤ s →
  0 ≤ Py.range_length 0 W s ∧
  (∀ i, 0 ≤ i < Py.range_length 0 W s → i * s < W) ∧
  W ≤ Py.range_length 0 W s * s.
Proof.
  intros Hs. unfold Py.range_length. case_decide as HW.
  - replace (W - 0 - 1) with (W - 1) by lia.
    pose proof (Z.div_mod (W - 1) s ltac:(lia)) as Hdm.
    pose proof (Z.mod_pos_bound (W - 1) s ltac:(lia)) as Hmb.
    assert (0 ≤ (W - 1) `div` s) by (apply Z.div_pos; lia).
    repeat split; try nia.
  - repeat split; try lia.
Qed.

(** ** Library calls that succeed *)

(** Reduce a bind whose first computation has returned. *)
Ltac run_bind :=
  cbn [mbind result_bind mret result_ret stripe_x stripe_x2 stripe_frame].

Tactic Notation "run_bind_in" hyp(H) :=
  cbn [mbind result_bind mret result_ret stripe_x stripe_x2 stripe_frame] in H.

Lemma new_ok (m : Mode) (w h : Z) (c : Pixel) :
  0 ≤ w → 0 ≤ h →
  PIL.new m (w, h) c = Ok (mkImage m w h (tabulate w h (λ _ _, c))).
Proof. intros Hw Hh. unfold PIL.new. by rewrite decide_False by lia. Qed.

Lemma new_sized_ok (known : Z) (m : Mode) (w h : Z) (c : Pixel) :
  0 ≤ w → 0 ≤ h →
  w ≤ Z.max PIL.c_int_max known → h ≤ Z.max PIL.c_int_max known →
  PIL.new_sized known m (w, h) c
    = Ok (mkImage m w h (tabulate w h (λ _ _, c))).
Proof.
  intros Hw Hh Hwk Hhk. unfold PIL.new_sized.
  rewrite (decide_False (P := w < 0 ∨ h < 0)) by lia.
  rewrite decide_False by lia. by apply new_ok.
Qed.

Lemma new_sized_inv (known : Z) (m : Mode) (w h : Z) (c : Pixel)
    (im : Image) :
  PIL.new_sized known m (w, h) c = Ok im →
  0 ≤ w ∧ 0 ≤ h ∧
  w ≤ Z.max PIL.c_int_max known ∧ h ≤ Z.max PIL.c_int_max known.
Proof.
  unfold PIL.new_sized. case_decide; [done|]. case_decide; [done|].
  intros _. lia.
Qed.

Lemma slit_within_in_range (W H S : Z) (direction : string) :
  slit_within W H S direction → slit_in_range W H S.
Proof. unfold slit_within, slit_in_range. case_decide; lia. Qed.

Lemma range_ok (W s : Z) :
  1 ≤ s →
  Py.range 0 W s =
    Ok ((λ i, 0 + i * s) <$> seqZ 0 (Py.range_length 0 W s)).
Proof.
  intros Hs. unfold Py.range.
  rewrite decide_False by lia. by rewrite decide_True by lia.
Qed.

Lemma vertical_stripe_ok (N W s x : Z) :
  s ≠ 0 → N ≠ 0 →
  vertical_stripe N W s x =
    Ok (mkStripe x (Z.min (x + s) W) ((x `div` s) `mod` N)).
Proof.
  intros Hs HN. unfold vertical_stripe, Py.floordiv, Py.mod_.
  rewrite (decide_False (P := s = 0)) by done. simpl.
  by rewrite (decide_False (P := N = 0)) by done.
Qed.

Lemma crop_ok (im : Image) (x0 y0 x1 y1 : Z) :
  x0 ≤ x1 → y0 ≤ y1 →
  PIL.crop im (x0, y0, x1, y1) =
    Ok (mkImage (mode im) (x1 - x0) (y1 - y0)
          (tabulate (x1 - x0) (y1 - y0)
             (λ x y, pixel_or_zero im (x0 + x) (y0 + y)))).
Proof. intros Hx Hy. unfold PIL.crop. by rewrite decide_False by lia. Qed.

Lemma paste_plain (dst src : Image) (xy : Z * Z) :
  mode dst = mode src →
  PIL.paste dst src xy None =
    Ok (mkImage (mode dst) (width dst) (height dst)
          (tabulate (width dst) (height dst) (λ x y,
             if decide (PIL.in_box (PIL.paste_box src xy) x y) then
               take (bands (mode dst))
                 (pixel_or_zero src (x - xy.1) (y - xy.2))
             else pixel_or_zero dst x y))).
Proof.
  intros Hm. unfold PIL.paste. simpl.
  by rewrite decide_True by (by left).
Qed.

(** ** The vertical interlace loop *)

Section Vertical.

Variables (frames : list Image) (W H s : Z).
Hypothesis Hs : 1 ≤ s.
Hypothesis HH : 0 ≤ H.
Hypothesis Hne : (1 ≤ length frames)%nat.
Hypothesis Hframes : Forall (is_frame W H) frames.

Local Abbreviation N := (Z.of_nat (length frames)).

(** The body of the [for] loop of [interlace_vertical]. *)
Let body (out : Image) (x : Z) : result Image :=
  st ← vertical_stripe N W s x;
  frame ← Py.index frames (stripe_frame st);
  crop ← PIL.crop frame (stripe_x st, 0, stripe_x2 st, H);
  PIL.paste out crop (stripe_x st, 0) None.

(** The canvas once the stripes starting below column [k * s] are pasted. *)
Let canvas_upto (k : Z) (out : Image) : Prop :=
  mode out = RGBA ∧ width out = W ∧ height out = H ∧
  ∀ x y, 0 ≤ x < W → 0 ≤ y < H → x < k * s →
    pixel_at out x y = vertical_source frames s x y.

Lemma frame_of_column (x : Z) :
  0 ≤ x →
  ∃ frame, frames !! Z.to_nat ((x `div` s) `mod` N) = Some frame ∧
           is_frame W H frame.
Proof using Hs Hne Hframes.
  intros Hx.
  pose proof (Z.mod_pos_bound (x `div` s) N ltac:(lia)) as Hb.
  destruct (lookup_lt_is_Some_2 frames (Z.to_nat ((x `div` s) `mod` N)))
    as [frame Hf]; [lia|].
  exists frame. split; [done|].
  by apply (Forall_lookup_1 _ _ _ _ Hframes Hf).
Qed.

Lemma vertical_source_valid (x y : Z) :
  0 ≤ x < W → 0 ≤ y < H →
  ∃ p, vertical_source frames s x y = Some p ∧ valid_pixel RGBA p.
Proof using Hs Hne Hframes.
  intros Hx Hy. unfold vertical_source.
  destruct (frame_of_column x) as (frame & -> & Hm & Hw & Hh & Hv); [lia|].
  simpl. rewrite <- Hm. apply pixel_at_valid; [done|lia..].
Qed.

Lemma vertical_step (k : Z) (out : Image) :
  0 ≤ k → k * s < W → canvas_upto k out →
  ∃ out', body out (0 + k * s) = Ok out' ∧ canvas_upto (k + 1) out'.
Proof using Hs HH Hne Hframes.
  intros Hk HkW (Hm & Hw & Hh & Hpx).
  assert (Hq : (0 + k * s) `div` s = k).
  { rewrite Z.add_0_l, Z.div_mul; lia. }
  destruct (frame_of_column (0 + k * s))
    as (frame & Hf & Hfm & Hfw & Hfh & Hfv); [lia|].
  rewrite Hq in Hf.
  pose proof (Z.mod_pos_bound k N ltac:(lia)) as Hb.
  unfold body. rewrite vertical_stripe_ok by lia. run_bind. rewrite Hq.
  rewrite (index_lookup _ _ _ (proj1 Hb) Hf). run_bind.
  rewrite crop_ok by lia. run_bind.
  rewrite paste_plain by (simpl; congruence).
  eexists. split; [done|].
  split; [done|]. split; [done|]. split; [done|].
  intros x y Hx Hy Hlt. rewrite Hw, Hh.
  rewrite pixel_at_tabulate by lia.
  destruct (vertical_source_valid x y Hx Hy) as (p & Hp & Hlen & _).
  rewrite Hp.
  case_decide as Hbox; simpl in Hbox.
  - unfold pixel_or_zero at 1. cbn [fst snd].
    rewrite pixel_at_tabulate by lia.
    replace (0 + k * s + (x - (0 + k * s))) with x by lia.
    replace (0 + (y - 0)) with y by lia.
    assert (Hxq : x `div` s = k).
    { symmetry. apply (Z.div_unique_pos x s k (x - k * s)); lia. }
    unfold vertical_source in Hp. rewrite Hxq, Hf in Hp. simpl in Hp.
    unfold pixel_or_zero. rewrite Hp. simpl.
    rewrite Hm. f_equal. apply take_ge. by rewrite Hlen.
  - unfold pixel_or_zero. rewrite Hpx by lia. by rewrite Hp.
Qed.

Lemma vertical_loop (m : nat) (k : Z) (out : Image) :
  0 ≤ k → (k + Z.of_nat m - 1) * s < W ∨ m = 0%nat → canvas_upto k out →
  ∃ out',
    for_each body out ((λ i, 0 + i * s) <$> seqZ k (Z.of_nat m)) = Ok out' ∧
    canvas_upto (k + Z.of_nat m) out'.
Proof using Hs HH Hne Hframes.
  revert k out. induction m as [|m IH]; intros k out Hk Hlast Hinv.
  - exists out. rewrite seqZ_nil by lia. simpl.
    split; [done|]. by rewrite Z.add_0_r.
  - rewrite seqZ_cons by lia. simpl.
    destruct (vertical_step k out) as (out1 & -> & Hinv1); [lia|nia|done|].
    simpl.
    replace (Z.pred (Z.of_nat (S m))) with (Z.of_nat m) by lia.
    destruct (IH (Z.succ k) out1) as (out' & Hrun & Hinv'); [lia| |done|].
    { destruct m; [by right|left; nia]. }
    exists out'. split; [done|].
    by replace (k + Z.of_nat (S m)) with (Z.succ k + Z.of_nat m) by lia.
Qed.

End Vertical.

Lemma clamp_slice_pos (S W : Z) : 1 ≤ clamp_slice S W.
Proof. unfold clamp_slice. lia. Qed.

(** Clamping the slice to the width does not change the frame a column is
    taken from. *)
Lemma clamp_slice_div (S W x : Z) :
  1 ≤ S → 0 ≤ x < W → x `div` clamp_slice S W = x `div` S.
Proof.
  intros HS Hx. unfold clamp_slice.
  destruct (decide (S ≤ W)) as [Hle|Hgt].
  - by rewrite Z.min_l, Z.max_r by lia.
  - rewrite Z.min_r, Z.max_r by lia.
    by rewrite !Z.div_small by lia.
Qed.

(** The vertical interlace returns, and every pixel of its canvas is the
    one of the frame its stripe is cut from. *)
Lemma interlace_vertical_spec (frames : list Image) (W H S : Z) :
  (1 ≤ length frames)%nat → 0 ≤ W → 0 ≤ H →
  Forall (is_frame W H) frames →
  ∃ out,
    interlace_vertical frames W H S = Ok out ∧
    mode out = RGBA ∧ width out = W ∧ height out = H ∧
    ∀ x y, 0 ≤ x < W → 0 ≤ y < H →
      pixel_at out x y = vertical_source frames (clamp_slice S W) x y.
Proof.
  intros Hne HW HH Hframes. unfold interlace_vertical.
  pose proof (clamp_slice_pos S W) as Hs.
  rewrite new_ok by done. run_bind.
  rewrite range_ok by done. run_bind.
  destruct (range_length_bounds W (clamp_slice S W) Hs) as (Hn0 & Hlt & Hge).
  rewrite <- (Z2Nat.id (Py.range_length 0 W (clamp_slice S W))) by done.
  edestruct (vertical_loop frames W H (clamp_slice S W) Hs HH Hne Hframes
               (Z.to_nat (Py.range_length 0 W (clamp_slice S W))) 0
               (mkImage RGBA W H (tabulate W H (λ _ _, [0; 0; 0; 0]))))
    as (out & Hrun & Hm & Hw & Hh & Hpx); [done| |..].
  - destruct (decide (Py.range_length 0 W (clamp_slice S W) = 0)) as [->|Hn].
    + by right.
    + left. rewrite Z2Nat.id by done. apply Hlt. lia.
  - do 3 (split; [done|]). intros x y Hx Hy Hlt0. lia.
  - exists out. split; [exact Hrun|]. do 3 (split; [done|]).
    intros x y Hx Hy. apply Hpx; [done..|].
    rewrite Z2Nat.id by done. lia.
Qed.

(** ** C1: the pixel formula of the vertical interlace *)

(** C1. For every frame count N >= 2, slice size S >= 1 and unified size
    (W, H), the canvas [interlace_vertical] returns holds at every column
    [x] in [0, W) and row [y] in [0, H) exactly the pixel that frame number
    [floor(x / S) mod N] holds at [(x, y)]. For three solid 4x2 frames and
    slice 2, columns 0-1 come from frame 0, columns 2-3 from frame 1, and
    frame 2 does not appear. *)
Theorem interlace_vertical_pixel_formula :
  (∀ (frames : list Image) (W H S x y : Z),
     (2 ≤ length frames)%nat → 1 ≤ S →
     Forall (is_frame W H) frames →
     0 ≤ x < W → 0 ≤ y < H →
     ∃ out frame p,
       interlace_vertical frames W H S = Ok out ∧
       frames !! Z.to_nat ((x `div` S) `mod` Z.of_nat (length frames))
         = Some frame ∧
       pixel_at frame x y = Some p ∧
       pixel_at out x y = Some p) ∧
  interlace_vertical [solid 4 2 red; solid 4 2 green; solid 4 2 blue] 4 2 2
    = Ok (mkImage RGBA 4 2
            [[red; red; green; green]; [red; red; green; green]]).
Proof.
  split; [|by vm_compute].
  intros frames W H S x y HN HS Hframes Hx Hy.
  destruct (interlace_vertical_spec frames W H S)
    as (out & Hrun & _ & _ & _ & Hpx); [lia..|done|].
  specialize (Hpx x y Hx Hy).
  destruct (vertical_source_valid frames W H (clamp_slice S W)
              (clamp_slice_pos S W) ltac:(lia) Hframes x y Hx Hy)
    as (p & Hsrc & _).
  rewrite Hsrc in Hpx. unfold vertical_source in Hsrc.
  rewrite clamp_slice_div in Hsrc by done.
  destruct (frames !! _) as [frame|] eqn:Hframe; [|done].
  by exists out, frame, p.
Qed.

Lemma interlace_vertical_pixel_formula_witness :
  let frames := [solid 4 2 red; solid 4 2 green; solid 4 2 blue] in
  ((2 ≤ length frames)%nat ∧ 1 ≤ 2 ∧ Forall (is_frame 4 2) frames ∧
   0 ≤ 2 < 4 ∧ 0 ≤ 1 < 2) ∧
  ∃ out frame p,
    interlace_vertical frames 4 2 2 = Ok out ∧
    frames !! Z.to_nat ((2 `div` 2) `mod` Z.of_nat (length frames))
      = Some frame ∧
    pixel_at frame 2 1 = Some p ∧
    pixel_at out 2 1 = Some p.
Proof.
  intros frames.
  assert (Hhyp : (2 ≤ length frames)%nat ∧ 1 ≤ 2 ∧
                 Forall (is_frame 4 2) frames ∧ 0 ≤ 2 < 4 ∧ 0 ≤ 1 < 2).
  { apply (bool_decide_unpack _). vm_compute. exact I. }
  split; [exact Hhyp|].
  destruct Hhyp as (H1 & H2 & H3 & H4 & H5).
  exact (proj1 interlace_vertical_pixel_formula frames 4 2 2 2 1
           H1 H2 H3 H4 H5).
Defined.

(** ** The stripes the loop goes through *)

Lemma mapM_ok {A B : Type} (f : A → result B) (g : A → B) (l : list A) :
  (∀ a, f a = Ok (g a)) → mapM f l = Ok (g <$> l).
Proof.
  intros Hf. induction l as [|a l IH]; [done|].
  cbn [mapM fmap list_fmap]. rewrite Hf. run_bind.
  change (mapM f l ≫= (λ k, mret (g a :: k)) = Ok (g a :: (g <$> l))).
  by rewrite IH.
Qed.

Lemma vertical_stripes_ok (N W S : Z) :
  1 ≤ N →
  vertical_stripes N W S =
    Ok ((λ i, mkStripe (i * clamp_slice S W)
                (Z.min (i * clamp_slice S W + clamp_slice S W) W)
                (i `mod` N))
          <$> seqZ 0 (Py.range_length 0 W (clamp_slice S W))).
Proof.
  intros HN. unfold vertical_stripes.
  pose proof (clamp_slice_pos S W) as Hs.
  rewrite range_ok by done. run_bind.
  rewrite (mapM_ok _ (λ x, mkStripe x (Z.min (x + clamp_slice S W) W)
                             ((x `div` clamp_slice S W) `mod` N)))
    by (intros x; apply vertical_stripe_ok; lia).
  rewrite <- list_fmap_compose. f_equal.
  apply list_fmap_ext. intros _ i _. simpl.
  rewrite Z.add_0_l, Z.div_mul by lia. done.
Qed.

Section Stripes.

Variables (N W s : Z).
Hypothesis Hs : 1 ≤ s.

Let stripe_at (i : Z) : Stripe :=
  mkStripe (i * s) (Z.min (i * s + s) W) (i `mod` N).

Lemma tiles_stripes (m : nat) (k : Z) :
  0 ≤ k → k * s ≤ W →
  (m ≠ 0%nat → (k + Z.of_nat m - 1) * s < W) →
  tiles (k * s) (Z.min ((k + Z.of_nat m) * s) W)
    (stripe_at <$> seqZ k (Z.of_nat m)).
Proof using Hs.
  revert k. induction m as [|m IH]; intros k Hk HkW Hlast.
  - rewrite seqZ_nil by lia. simpl. lia.
  - rewrite seqZ_cons by lia. simpl.
    specialize (Hlast ltac:(done)).
    split; [done|]. split; [nia|].
    replace (Z.pred (Z.of_nat (S m))) with (Z.of_nat m) by lia.
    destruct m as [|m].
    + rewrite seqZ_nil by lia. simpl. f_equal. lia.
    + replace (Z.min (k * s + s) W) with (Z.succ k * s) by nia.
      replace (k + Z.of_nat (S (S m))) with (Z.succ k + Z.of_nat (S m))
        by lia.
      apply IH; [lia|nia|]. intros _. nia.
  Qed.

Lemma stripes_in_bounds (n : Z) :
  (∀ i, 0 ≤ i < n → i * s < W) →
  Forall (λ st, 0 ≤ stripe_x st ∧ stripe_x st < stripe_x2 st ∧
                stripe_x2 st ≤ W ∧ stripe_x2 st ≤ stripe_x st + s ∧
                stripe_x st `div` s * s = stripe_x st ∧
                stripe_frame st = (stripe_x st `div` s) `mod` N)
    (stripe_at <$> seqZ 0 n).
Proof using Hs.
  intros Hlt. apply Forall_fmap, Forall_forall. intros i Hi%elem_of_seqZ.
  simpl. specialize (Hlt i ltac:(lia)).
  rewrite Z.div_mul by lia. repeat split; nia.
Qed.

End Stripes.

(** Stripes that tile [[lo, hi)] hold every column of it exactly once. *)
Lemma tiles_covers_once (sts : list Stripe) (lo hi x : Z) :
  tiles lo hi sts → lo ≤ x < hi → length (filter (covers x) sts) = 1%nat.
Proof.
  revert lo. induction sts as [|st sts IH]; intros lo Ht Hx; simpl in Ht.
  - lia.
  - destruct Ht as (Hlo & Hne & Ht).
    destruct (decide (x < stripe_x2 st)) as [Hin|Hout].
    + rewrite filter_cons_True by (unfold covers; lia). simpl. f_equal.
      assert (Hnone : ∀ lo', tiles lo' hi sts → x < lo' →
                filter (covers x) sts = []).
      { clear. induction sts as [|st' sts IH]; intros lo' Ht Hx; [done|].
        destruct Ht as (Hlo & Hne & Ht).
        rewrite filter_cons_False by (unfold covers; lia).
        apply (IH _ Ht). lia. }
      by rewrite (Hnone _ Ht Hin).
    + rewrite filter_cons_False by (unfold covers; lia).
      apply (IH _ Ht). lia.
Qed.

Lemma tiles_le (sts : list Stripe) (lo hi : Z) : tiles lo hi sts → lo ≤ hi.
Proof.
  revert lo. induction sts as [|st sts IH]; intros lo Ht; simpl in Ht; [lia|].
  destruct Ht as (_ & Hne & Ht). specialize (IH _ Ht). lia.
Qed.

Lemma last_seqZ (n : Z) : 1 ≤ n → last (seqZ 0 n) = Some (n - 1).
Proof.
  intros Hn. replace n with (Z.of_nat (S (Z.to_nat (n - 1)))) at 1 by lia.
  rewrite seqZ_S, last_snoc. f_equal. lia.
Qed.

(** The width the truncated final stripe is left with. *)
Lemma last_stripe_width (W S : Z) :
  1 ≤ S → 0 ≤ W → W `mod` S ≠ 0 →
  let s := clamp_slice S W in
  let n := Py.range_length 0 W s in
  1 ≤ n ∧ Z.min ((n - 1) * s + s) W - (n - 1) * s = W `mod` S.
Proof.
  intros HS HW Hmod s n.
  assert (HW1 : 1 ≤ W).
  { destruct (decide (W = 0)) as [->|]; [|lia]. by rewrite Z.mod_0_l in Hmod. }
  pose proof (Z.div_mod W S ltac:(lia)) as Hdm.
  pose proof (Z.mod_pos_bound W S ltac:(lia)) as Hmb.
  subst n. unfold Py.range_length. rewrite decide_True by lia.
  replace (W - 0 - 1) with (W - 1) by lia.
  subst s. unfold clamp_slice.
  destruct (decide (S ≤ W)) as [Hle|Hgt].
  - rewrite Z.min_l, Z.max_r by lia.
    assert (Hq : (W - 1) `div` S = W `div` S).
    { symmetry. apply (Z.div_unique_pos _ S _ (W `mod` S - 1)); lia. }
    rewrite Hq.
    assert (0 ≤ W `div` S) by (apply Z.div_pos; lia).
    split; [lia|]. nia.
  - rewrite Z.min_r, Z.max_r by lia.
    rewrite (Z.div_small (W - 1)) by lia.
    rewrite (Z.mod_small W S) by lia. lia.
Qed.

Lemma vertical_stripes_tile (N W S : Z) :
  0 ≤ W →
  tiles 0 W
    ((λ i, mkStripe (i * clamp_slice S W)
             (Z.min (i * clamp_slice S W + clamp_slice S W) W) (i `mod` N))
       <$> seqZ 0 (Py.range_length 0 W (clamp_slice S W))).
Proof.
  intros HW. pose proof (clamp_slice_pos S W) as Hs.
  destruct (range_length_bounds W (clamp_slice S W) Hs) as (Hn0 & Hlt & Hge).
  set (s := clamp_slice S W) in *. set (n := Py.range_length 0 W s) in *.
  pose proof (tiles_stripes N W s Hs (Z.to_nat n) 0) as Ht.
  rewrite Z2Nat.id in Ht by lia.
  replace (Z.min ((0 + n) * s) W) with W in Ht by lia.
  apply Ht; [lia|lia|]. intros Hn. apply Hlt. lia.
Qed.

(** ** C4: truncation at the boundary and accesses in bounds *)

(** Carrying the list of accesses along does not change what the loop
    does to the canvas, and the list it ends with has one access per
    iteration. *)
Lemma for_each_accesses (frames : list Image) (N W s H : Z) (xs : list Z)
    (out : Image) (log : list Access) :
  s ≠ 0 → N ≠ 0 →
  for_each (λ '(out, log) x,
      st ← vertical_stripe N W s x;
      frame ← Py.index frames (stripe_frame st);
      let box := (stripe_x st, 0, stripe_x2 st, H) in
      crop ← PIL.crop frame box;
      out ← PIL.paste out crop (stripe_x st, 0) None;
      Ok (out, log ++ [mkAccess (stripe_frame st) box
                         (PIL.paste_box crop (stripe_x st, 0))]))
    (out, log) xs =
  out' ← for_each (λ out x,
      st ← vertical_stripe N W s x;
      frame ← Py.index frames (stripe_frame st);
      crop ← PIL.crop frame (stripe_x st, 0, stripe_x2 st, H);
      PIL.paste out crop (stripe_x st, 0) None) out xs;
  Ok (out', log ++ (access_at N W s H <$> xs)).
Proof.
  intros Hs HN. revert out log.
  induction xs as [|x xs IH]; intros out log.
  - cbn [for_each fmap list_fmap]. run_bind. by rewrite app_nil_r.
  - cbn [for_each fmap list_fmap]. rewrite vertical_stripe_ok by done.
    run_bind.
    destruct (Py.index frames _) as [frame|e]; [|done]. run_bind.
    destruct (PIL.crop frame _) as [crop|e] eqn:Hcrop; [|done]. run_bind.
    destruct (PIL.paste out crop _ None) as [out1|e]; [|done]. run_bind.
    rewrite IH. rewrite <- app_assoc. cbn [app].
    unfold PIL.crop in Hcrop. case_decide; [done|].
    injection Hcrop as <-. done.
Qed.

(** [interlace_vertical_accesses] returns what [interlace_vertical]
    returns, with the accesses of the iterations in their order. *)
Lemma interlace_vertical_accesses_spec (frames : list Image) (W H S : Z) :
  (1 ≤ length frames)%nat →
  interlace_vertical_accesses frames W H S =
    out ← interlace_vertical frames W H S;
    Ok (out,
        (λ i, access_at (Z.of_nat (length frames)) W (clamp_slice S W) H
                (0 + i * clamp_slice S W))
          <$> seqZ 0 (Py.range_length 0 W (clamp_slice S W))).
Proof.
  intros Hne. unfold interlace_vertical_accesses, interlace_vertical.
  pose proof (clamp_slice_pos S W) as Hs.
  destruct (PIL.new _ _ _) as [out|e]; [|done]. run_bind.
  rewrite range_ok by done. run_bind.
  rewrite for_each_accesses by lia.
  by rewrite <- list_fmap_compose.
Qed.

Lemma access_stripes (N W s H n : Z) :
  1 ≤ s →
  access_stripe <$>
    ((λ i, access_at N W s H (0 + i * s)) <$> seqZ 0 n) =
  (λ i, mkStripe (i * s) (Z.min (i * s + s) W) (i `mod` N)) <$> seqZ 0 n.
Proof.
  intros Hs. rewrite <- list_fmap_compose. apply list_fmap_ext.
  intros _ i _.
  assert (Hq : (0 + i * s) `div` s = i) by (rewrite Z.add_0_l, Z.div_mul; lia).
  unfold access_stripe, access_at. cbn [compose write_box read_frame].
  rewrite Hq. f_equal; lia.
Qed.

Lemma length_filter_fmap {A B : Type} (f : A → B) (P : B → Prop)
    `{!∀ b, Decision (P b)} (l : list A) :
  length (filter P (f <$> l)) = length (filter (λ a, P (f a)) l).
Proof.
  induction l as [|a l IH]; [done|].
  cbn [fmap list_fmap]. rewrite !filter_cons.
  destruct (decide (P (f a))); simpl; by rewrite IH.
Qed.

(** C4. For every W and S >= 1 with W mod S <> 0, [interlace_vertical]
    returns, and the accesses it makes on the way, one [crop] and one
    [paste] per iteration, are these: the column ranges written to the
    canvas follow one another from 0 to W without gap or overlap, so that
    every column is written exactly once; the last of them has width
    exactly W mod S; and for every iteration the columns read from the
    frame and the columns written to the canvas are the same range, which
    lies in [0, W), and the frame read is one of the list. *)
Theorem vertical_stripes_truncation (frames : list Image) (W H S : Z) :
  (1 ≤ length frames)%nat → Forall (is_frame W H) frames →
  1 ≤ S → W `mod` S ≠ 0 →
  ∃ out log final,
    interlace_vertical_accesses frames W H S = Ok (out, log) ∧
    interlace_vertical frames W H S = Ok out ∧
    vertical_stripes (Z.of_nat (length frames)) W S
      = Ok (access_stripe <$> log) ∧
    tiles 0 W (access_stripe <$> log) ∧
    (∀ x, 0 ≤ x < W →
       length (filter (λ a, covers x (access_stripe a)) log) = 1%nat) ∧
    last log = Some final ∧
    stripe_x2 (access_stripe final) - stripe_x (access_stripe final)
      = W `mod` S ∧
    Forall (λ a,
        columns_within W (read_box a) ∧ columns_within W (write_box a) ∧
        box_columns (read_box a) = box_columns (write_box a) ∧
        0 ≤ read_frame a < Z.of_nat (length frames))
      log.
Proof.
  intros Hne Hframes HS Hmod.
  assert (HWH : 0 ≤ W ∧ 0 ≤ H).
  { destruct frames as [|f frames]; [simpl in Hne; lia|].
    apply Forall_cons_1 in Hframes as [(_ & <- & <- & (Hw & Hh & _) & _) _].
    done. }
  destruct HWH as [HW HH].
  pose proof (clamp_slice_pos S W) as Hs.
  destruct (last_stripe_width W S HS HW Hmod) as (Hn & Hwidth).
  destruct (range_length_bounds W (clamp_slice S W) Hs) as (_ & Hlt & Hge).
  destruct (interlace_vertical_spec frames W H S Hne HW HH Hframes)
    as (out & Hrun & _).
  pose proof (interlace_vertical_accesses_spec frames W H S Hne) as Hacc.
  rewrite Hrun in Hacc. run_bind_in Hacc.
  set (N := Z.of_nat (length frames)) in *.
  set (s := clamp_slice S W) in *. set (n := Py.range_length 0 W s) in *.
  set (log := (λ i, access_at N W s H (0 + i * s)) <$> seqZ 0 n) in *.
  assert (Hstripes : access_stripe <$> log =
            (λ i, mkStripe (i * s) (Z.min (i * s + s) W) (i `mod` N))
              <$> seqZ 0 n) by (by apply access_stripes).
  pose proof (vertical_stripes_tile N W S HW) as Htiles.
  fold s n in Htiles. rewrite <- Hstripes in Htiles.
  exists out, log, (access_at N W s H (0 + (n - 1) * s)).
  split; [exact Hacc|]. split; [exact Hrun|].
  split; [rewrite Hstripes; apply vertical_stripes_ok; lia|].
  split; [exact Htiles|].
  split.
  { intros x Hx.
    pose proof (tiles_covers_once _ 0 W x Htiles Hx) as Hone.
    by rewrite length_filter_fmap in Hone. }
  split; [by subst log; rewrite fmap_last, last_seqZ|].
  split.
  { unfold access_stripe, access_at. simpl. lia. }
  subst log. apply Forall_fmap, Forall_forall. intros i Hi%elem_of_seqZ.
  specialize (Hlt i ltac:(lia)).
  pose proof (Z.mod_pos_bound ((0 + i * s) `div` s) N ltac:(lia)).
  unfold access_at, columns_within, box_columns. simpl.
  repeat split; try nia; try lia. f_equal; lia.
Qed.

Lemma vertical_stripes_truncation_witness :
  let frames := [solid 7 2 red; solid 7 2 green; solid 7 2 blue] in
  ((1 ≤ length frames)%nat ∧ Forall (is_frame 7 2) frames ∧
   1 ≤ 3 ∧ 7 `mod` 3 ≠ 0) ∧
  ∃ out log final,
    interlace_vertical_accesses frames 7 2 3 = Ok (out, log) ∧
    interlace_vertical frames 7 2 3 = Ok out ∧
    vertical_stripes (Z.of_nat (length frames)) 7 3
      = Ok (access_stripe <$> log) ∧
    tiles 0 7 (access_stripe <$> log) ∧
    (∀ x, 0 ≤ x < 7 →
       length (filter (λ a, covers x (access_stripe a)) log) = 1%nat) ∧
    last log = Some final ∧
    stripe_x2 (access_stripe final) - stripe_x (access_stripe final)
      = 7 `mod` 3 ∧
    Forall (λ a,
        columns_within 7 (read_box a) ∧ columns_within 7 (write_box a) ∧
        box_columns (read_box a) = box_columns (write_box a) ∧
        0 ≤ read_frame a < Z.of_nat (length frames))
      log.
Proof.
  intros frames.
  assert (Hhyp : (1 ≤ length frames)%nat ∧ Forall (is_frame 7 2) frames ∧
                 1 ≤ 3 ∧ 7 `mod` 3 ≠ 0).
  { apply (bool_decide_unpack _). vm_compute. exact I. }
  split; [exact Hhyp|].
  destruct Hhyp as (H1 & H2 & H3 & H4).
  exact (vertical_stripes_truncation frames 7 2 3 H1 H2 H3 H4).
Defined.

(** The accesses of the run on three 7x2 frames with slice 3: two full
    stripes and a last one of width 1. *)
Example interlace_vertical_accesses_7_3 :
  snd <$> (match interlace_vertical_accesses
                   [solid 7 2 red; solid 7 2 green; solid 7 2 blue] 7 2 3 with
           | Ok r => Some r
           | Raise _ => None
           end) =
    Some [mkAccess 0 (0, 0, 3, 2) (0, 0, 3, 2);
          mkAccess 1 (3, 0, 6, 2) (3, 0, 6, 2);
          mkAccess 2 (6, 0, 7, 2) (6, 0, 7, 2)].
Proof. by vm_compute. Qed.

Example vertical_stripes_7_3 :
  vertical_stripes 3 7 3 =
    Ok [mkStripe 0 3 0; mkStripe 3 6 1; mkStripe 6 7 2].
Proof. by vm_compute. Qed.

(** ** The mask loop *)

Section Mask.

Variables (W H s N : Z).
Hypothesis Hs : 1 ≤ s.
Hypothesis HN : 1 ≤ N.
Hypothesis HH : 0 ≤ H.

Local Abbreviation period := (s * N).

Let slit : Image := mkImage RGBA s H (tabulate s H (λ _ _, [0; 0; 0; 0])).

(** A column of the first [k] periods is a slit when it lies in the first
    [s] columns of its period. *)
Let mask_pixel (k x : Z) : Pixel :=
  if decide (x < k * period ∧ x `mod` period < s) then [0; 0; 0; 0]
  else [0; 0; 0; 255].

Let mask_upto (k : Z) (mask : Image) : Prop :=
  mode mask = RGBA ∧ width mask = W ∧ height mask = H ∧
  ∀ x y, 0 ≤ x < W → 0 ≤ y < H → pixel_at mask x y = Some (mask_pixel k x).

Lemma mod_in_period (k x : Z) :
  k * period ≤ x < (k + 1) * period → x `mod` period = x - k * period.
Proof using Hs HN.
  intros Hx. symmetry. apply (Z.mod_unique_pos x period k); nia.
Qed.

Lemma mask_step (k : Z) (mask : Image) :
  0 ≤ k → mask_upto k mask →
  ∃ mask', PIL.paste mask slit (0 + k * period, 0) None = Ok mask' ∧
           mask_upto (k + 1) mask'.
Proof using Hs HN HH.
  intros Hk (Hm & Hw & Hh & Hpx).
  rewrite paste_plain by done.
  eexists. split; [done|]. do 3 (split; [done|]).
  intros x y Hx Hy. rewrite Hw, Hh.
  rewrite pixel_at_tabulate by lia. f_equal.
  case_decide as Hbox; simpl in Hbox.
  - unfold pixel_or_zero. cbn [fst snd].
    unfold slit. rewrite pixel_at_tabulate by lia. rewrite Hm. simpl.
    unfold mask_pixel. rewrite decide_True; [done|].
    rewrite (mod_in_period k) by nia. nia.
  - unfold pixel_or_zero. rewrite Hpx by lia. simpl.
    unfold mask_pixel.
    destruct (decide (x < k * period)) as [Hlt|Hge].
    + destruct (decide (x `mod` period < s)).
      * rewrite !decide_True by nia. done.
      * rewrite !decide_False by tauto. done.
    + rewrite (decide_False (P := x < k * period ∧ _)) by tauto.
      rewrite decide_False; [done|]. intros [Hlt Hmod].
      rewrite (mod_in_period k) in Hmod by lia. lia.
Qed.

Lemma mask_loop (m : nat) (k : Z) (mask : Image) :
  0 ≤ k → mask_upto k mask →
  ∃ mask',
    for_each (λ mask x, PIL.paste mask slit (x, 0) None) mask
      ((λ i, 0 + i * period) <$> seqZ k (Z.of_nat m)) = Ok mask' ∧
    mask_upto (k + Z.of_nat m) mask'.
Proof using Hs HN HH.
  revert k mask. induction m as [|m IH]; intros k mask Hk Hinv.
  - exists mask. rewrite seqZ_nil by lia.
    split; [done|]. by rewrite Z.add_0_r.
  - rewrite seqZ_cons by lia. cbn [fmap list_fmap for_each].
    destruct (mask_step k mask Hk Hinv) as (mask1 & -> & Hinv1). run_bind.
    replace (Z.pred (Z.of_nat (S m))) with (Z.of_nat m) by lia.
    destruct (IH (Z.succ k) mask1) as (mask' & Hrun & Hinv'); [lia|done|].
    exists mask'. split; [done|].
    by replace (k + Z.of_nat (S m)) with (Z.succ k + Z.of_nat m) by lia.
Qed.

End Mask.

(** The vertical mask: a column is a transparent slit exactly when it lies
    in the first [s] columns of its period, and opaque black otherwise. *)
Lemma make_mask_vertical_spec (W H S N : Z) :
  0 ≤ W → 0 ≤ H → 1 ≤ N → slit_in_range W H S →
  ∃ mask,
    make_mask W H S N "vertical" = Ok mask ∧
    mode mask = RGBA ∧ width mask = W ∧ height mask = H ∧
    ∀ x y, 0 ≤ x < W → 0 ≤ y < H →
      pixel_at mask x y =
        Some (if decide (x `mod` (Z.max 1 S * N) < Z.max 1 S)
              then [0; 0; 0; 0] else [0; 0; 0; 255]).
Proof.
  intros HW HH HN Hslit. unfold make_mask. unfold slit_in_range in Hslit.
  assert (Hs : 1 ≤ Z.max 1 S) by lia.
  assert (HP : 1 ≤ Z.max 1 S * N) by nia.
  rewrite (new_ok RGBA W H) by done. run_bind.
  rewrite decide_True by done.
  rewrite new_sized_ok by lia. run_bind.
  rewrite range_ok by done. run_bind.
  destruct (range_length_bounds W (Z.max 1 S * N) HP) as (Hn0 & Hlt & Hge).
  rewrite <- (Z2Nat.id (Py.range_length 0 W (Z.max 1 S * N))) by done.
  edestruct (mask_loop W H (Z.max 1 S) N Hs HN HH
               (Z.to_nat (Py.range_length 0 W (Z.max 1 S * N))) 0
               (mkImage RGBA W H (tabulate W H (λ _ _, [0; 0; 0; 255]))))
    as (mask & Hrun & Hm & Hw & Hh & Hpx); [done| |].
  - do 3 (split; [done|]). intros x y Hx Hy.
    rewrite pixel_at_tabulate by done. f_equal.
    rewrite decide_False; [done|]. lia.
  - exists mask. split; [exact Hrun|]. do 3 (split; [done|]).
    intros x y Hx Hy. rewrite Hpx by done. f_equal.
    rewrite Z2Nat.id by done.
    destruct (decide (x `mod` (Z.max 1 S * N) < Z.max 1 S)).
    + rewrite decide_True; [done|]. split; [lia|done].
    + rewrite decide_False; [done|]. tauto.
Qed.

Lemma column_transparent_iff (mask : Image) (x : Z) (slit : Prop)
    `{!Decision slit} :
  1 ≤ height mask →
  (∀ y, 0 ≤ y < height mask →
     pixel_at mask x y =
       Some (if decide slit then [0; 0; 0; 0] else [0; 0; 0; 255])) →
  (column_transparent mask x ↔ slit) ∧ (column_opaque mask x ↔ ¬ slit).
Proof.
  intros HH Hpx. unfold column_transparent, column_opaque, column_alpha.
  rewrite !Forall_fmap, !Forall_seqZ.
  split; split.
  - intros Hall. specialize (Hall 0 ltac:(lia)). simpl in Hall.
    rewrite Hpx in Hall by lia. by destruct (decide slit).
  - intros Hslit y Hy. simpl. rewrite Hpx by lia.
    by rewrite decide_True.
  - intros Hall Hslit. specialize (Hall 0 ltac:(lia)). simpl in Hall.
    rewrite Hpx in Hall by lia. by rewrite decide_True in Hall.
  - intros Hslit y Hy. simpl. rewrite Hpx by lia.
    by rewrite decide_False.
Qed.

(** ** Counting the slits of a period *)

Lemma filter_ext_in {A : Type} (P1 P2 : A → Prop)
    `{!∀ a, Decision (P1 a)} `{!∀ a, Decision (P2 a)} (l : list A) :
  (∀ a, a ∈ l → P1 a ↔ P2 a) → filter P1 l = filter P2 l.
Proof.
  induction l as [|a l IH]; intros Hiff; [done|].
  rewrite !filter_cons.
  rewrite IH by (intros b Hb; apply Hiff; by right).
  pose proof (Hiff a ltac:(by left)) as Ha.
  destruct (decide (P1 a)), (decide (P2 a)); tauto || done.
Qed.

Lemma length_filter_not {A : Type} (P : A → Prop) `{!∀ a, Decision (P a)}
    (l : list A) :
  (length (filter P l) + length (filter (λ a, ¬ P a) l) = length l)%nat.
Proof.
  induction l as [|a l IH]; [done|].
  rewrite !filter_cons. destruct (decide (P a)), (decide (¬ P a));
    simpl; try tauto; lia.
Qed.

(** Among [P] consecutive integers, [s] have a residue below [s]. *)
Lemma count_residues (P s : Z) (j : nat) :
  1 ≤ s ≤ P →
  length (filter (λ x, x `mod` P < s) (seqZ (Z.of_nat j) P)) = Z.to_nat s.
Proof.
  intros HsP. induction j as [|j IH].
  - replace (seqZ (Z.of_nat 0) P) with (seqZ 0 s ++ seqZ (0 + s) (P - s))
      by (rewrite <- seqZ_app by lia; f_equal; lia).
    rewrite filter_app, length_app.
    rewrite (filter_ext_in _ (λ _, True) (seqZ 0 s)).
    2:{ intros x Hx%elem_of_seqZ. rewrite Z.mod_small by lia.
        split; [done|lia]. }
    rewrite (filter_ext_in _ (λ _, False) (seqZ (0 + s) (P - s))).
    2:{ intros x Hx%elem_of_seqZ. rewrite Z.mod_small by lia. lia. }
    assert (Hall : ∀ l : list Z, filter (λ _, True) l = l).
    { induction l as [|a l IHl]; [done|].
      by rewrite filter_cons_True, IHl by done. }
    assert (Hnone : ∀ l : list Z, filter (λ _, False) l = []).
    { induction l as [|a l IHl]; [done|].
      by rewrite filter_cons_False, IHl by tauto. }
    rewrite Hall, Hnone, length_seqZ. simpl. lia.
  - rewrite <- IH.
    replace (Z.of_nat (S j)) with (Z.succ (Z.of_nat j)) by lia.
    rewrite (seqZ_cons (Z.of_nat j) P) by lia.
    replace (seqZ (Z.succ (Z.of_nat j)) P)
      with (seqZ (Z.succ (Z.of_nat j)) (Z.pred P) ++ [Z.of_nat j + 1 * P]).
    2:{ replace P with (Z.pred P + 1) at 3 by lia.
        rewrite seqZ_app by lia. f_equal.
        rewrite (seqZ_cons _ 1), seqZ_nil by lia. f_equal. lia. }
    rewrite filter_app, length_app.
    rewrite !filter_cons, filter_nil.
    rewrite Z_mod_plus_full.
    destruct (decide (Z.of_nat j `mod` P < s)); simpl; lia.
Qed.

(** A column is a slit of the mask exactly when the interlace cuts it
    from frame 0. *)
Lemma slit_iff_frame_0 (S W N x : Z) :
  1 ≤ N → 0 ≤ x < W →
  x `mod` (Z.max 1 S * N) < Z.max 1 S ↔
  (x `div` clamp_slice S W) `mod` N = 0.
Proof.
  intros HN Hx. unfold clamp_slice.
  destruct (decide (S ≤ W)) as [Hle|Hgt].
  - rewrite (Z.min_l S W) by done.
    assert (Hs : 1 ≤ Z.max 1 S) by lia.
    rewrite Z.rem_mul_r by lia.
    pose proof (Z.mod_pos_bound x (Z.max 1 S) ltac:(lia)).
    pose proof (Z.mod_pos_bound (x `div` Z.max 1 S) N ltac:(lia)).
    split; nia.
  - rewrite (Z.min_r S W), (Z.max_r 1 W), (Z.max_r 1 S) by lia.
    rewrite (Z.div_small x W), Z.mod_0_l by lia.
    rewrite Z.mod_small by nia. split; [done|lia].
Qed.

(** What the columns of the vertical mask are. *)
Lemma make_mask_columns (W H S N : Z) :
  0 ≤ W → 1 ≤ H → 1 ≤ N → slit_in_range W H S →
  ∃ mask,
    make_mask W H S N "vertical" = Ok mask ∧
    ∀ x, 0 ≤ x < W →
      (column_transparent mask x ↔
         x `mod` (Z.max 1 S * N) < Z.max 1 S) ∧
      (column_opaque mask x ↔
         ¬ x `mod` (Z.max 1 S * N) < Z.max 1 S).
Proof.
  intros HW HH HN Hslit.
  destruct (make_mask_vertical_spec W H S N)
    as (mask & Hrun & _ & _ & Hh & Hpx); [lia..|done|].
  exists mask. split; [done|]. intros x Hx.
  apply (column_transparent_iff mask x
           (x `mod` (Z.max 1 S * N) < Z.max 1 S)); [lia|].
  intros y Hy. apply Hpx; lia.
Qed.

(** ** C2: the duty cycle of the mask *)

(** C2. For every width W, slice size S >= 1 and frame count N, any S*N
    consecutive columns that lie in [0, W) hold exactly S fully transparent
    columns of the vertical mask and exactly S*(N-1) fully opaque ones; for
    W = 12, S = 2, N = 3 the transparent columns are exactly 0, 1, 6, 7. *)
Theorem mask_duty_cycle :
  (∀ W H S N c : Z,
     1 ≤ H → 1 ≤ S → 1 ≤ N → 0 ≤ c → c + S * N ≤ W →
     ∃ mask,
       make_mask W H S N "vertical" = Ok mask ∧
       length (filter (column_transparent mask) (seqZ c (S * N)))
         = Z.to_nat S ∧
       length (filter (column_opaque mask) (seqZ c (S * N)))
         = Z.to_nat (S * (N - 1))) ∧
  (∀ H : Z, 1 ≤ H →
     ∃ mask,
       make_mask 12 H 2 3 "vertical" = Ok mask ∧
       filter (column_transparent mask) (seqZ 0 12) = [0; 1; 6; 7] ∧
       filter (column_opaque mask) (seqZ 0 12)
         = [2; 3; 4; 5; 8; 9; 10; 11]).
Proof.
  split.
  - intros W H S N c HH HS HN Hc HcW.
    destruct (make_mask_columns W H S N) as (mask & Hrun & Hcols);
      [nia|lia..|unfold slit_in_range; nia|].
    exists mask. split; [done|].
    rewrite (Z.max_r 1 S) in Hcols by lia.
    rewrite (filter_ext_in (column_transparent mask)
               (λ x, x `mod` (S * N) < S)).
    2:{ intros x Hx%elem_of_seqZ. apply Hcols. lia. }
    rewrite (filter_ext_in (column_opaque mask)
               (λ x, ¬ x `mod` (S * N) < S)).
    2:{ intros x Hx%elem_of_seqZ. apply Hcols. lia. }
    pose proof (count_residues (S * N) S (Z.to_nat c) ltac:(nia)) as Hcount.
    rewrite Z2Nat.id in Hcount by done.
    split; [exact Hcount|].
    pose proof (length_filter_not (λ x, x `mod` (S * N) < S)
                  (seqZ c (S * N))) as Hsum.
    rewrite length_seqZ in Hsum. nia.
  - intros H HH.
    destruct (make_mask_columns 12 H 2 3) as (mask & Hrun & Hcols);
      [lia..|unfold slit_in_range, PIL.c_int_max; lia|].
    exists mask. split; [done|].
    rewrite (filter_ext_in (column_transparent mask)
               (λ x, x `mod` (Z.max 1 2 * 3) < Z.max 1 2)).
    2:{ intros x Hx%elem_of_seqZ. apply Hcols. lia. }
    rewrite (filter_ext_in (column_opaque mask)
               (λ x, ¬ x `mod` (Z.max 1 2 * 3) < Z.max 1 2)).
    2:{ intros x Hx%elem_of_seqZ. apply Hcols. lia. }
    split; by vm_compute.
Qed.

Lemma mask_duty_cycle_witness :
  (1 ≤ 2 ∧ 1 ≤ 2 ∧ 1 ≤ 3 ∧ 0 ≤ 5 ∧ 5 + 2 * 3 ≤ 12) ∧
  ∃ mask,
    make_mask 12 2 2 3 "vertical" = Ok mask ∧
    length (filter (column_transparent mask) (seqZ 5 (2 * 3)))
      = Z.to_nat 2 ∧
    length (filter (column_opaque mask) (seqZ 5 (2 * 3)))
      = Z.to_nat (2 * (3 - 1)).
Proof.
  assert (Hhyp : 1 ≤ 2 ∧ 1 ≤ 2 ∧ 1 ≤ 3 ∧ 0 ≤ 5 ∧ 5 + 2 * 3 ≤ 12).
  { apply (bool_decide_unpack _). vm_compute. exact I. }
  split; [exact Hhyp|].
  destruct Hhyp as (H1 & H2 & H3 & H4 & H5).
  exact (proj1 mask_duty_cycle 12 2 2 3 5 H1 H2 H3 H4 H5).
Defined.

(** ** C3: the slits of the mask are the stripes of frame 0 *)

Lemma make_mask_inv (W H S N : Z) (direction : string) (mask : Image) :
  make_mask W H S N direction = Ok mask →
  0 ≤ W ∧ 0 ≤ H ∧ slit_in_range W H S.
Proof.
  unfold make_mask, slit_in_range.
  destruct (PIL.new RGBA (W, H) _) as [m0|] eqn:Hnew; [|done].
  unfold PIL.new in Hnew. case_decide; [done|]. clear Hnew. run_bind.
  case_decide;
    (destruct (PIL.new_sized _ _ _ _) as [slit|] eqn:Hslit; [|done]);
    apply new_sized_inv in Hslit; intros _; lia.
Qed.

Lemma solid_is_frame (W H : Z) (c : Pixel) :
  0 ≤ W → 0 ≤ H → valid_pixel RGBA c → is_frame W H (solid W H c).
Proof.
  intros HW HH Hc. unfold is_frame, solid. simpl.
  do 3 (split; [done|]). by apply valid_tabulate.
Qed.

Lemma marked_frames_spec (N W H k : Z) :
  0 ≤ N → 0 ≤ W → 0 ≤ H →
  Z.of_nat (length (marked_frames N W H k)) = N ∧
  Forall (is_frame W H) (marked_frames N W H k) ∧
  ∀ i, 0 ≤ i < N →
    marked_frames N W H k !! Z.to_nat i
      = Some (solid W H (if decide (i = k) then red else green)).
Proof.
  intros HN HW HH. unfold marked_frames. split; [|split].
  - rewrite length_fmap, length_seqZ. lia.
  - apply Forall_fmap, Forall_forall. intros i _. simpl.
    apply solid_is_frame; [done..|].
    case_decide; (split; [done|]); repeat constructor; lia.
  - intros i Hi. rewrite list_lookup_fmap, lookup_seqZ_lt by lia.
    cbn [fmap option_fmap option_map]. by rewrite Z.add_0_l, Z2Nat.id by lia.
Qed.

(** The frame a column is cut from, in closed form. *)
Lemma column_cut_from_iff (N W H S x k : Z) :
  1 ≤ N → 1 ≤ H → 0 ≤ x < W →
  column_cut_from N W H S x k ↔ (x `div` clamp_slice S W) `mod` N = k.
Proof.
  intros HN HH Hx. pose proof (clamp_slice_pos S W) as Hs.
  pose proof (Z.mod_pos_bound (x `div` clamp_slice S W) N ltac:(lia)) as Hb.
  split.
  - intros [Hk Hcut].
    destruct (marked_frames_spec N W H k) as (Hlen & Hframes & Hlook);
      [lia..|].
    destruct (Hcut _ Hlen Hframes) as (base & frame & Hrun & Hframe & Hpx).
    destruct (interlace_vertical_spec (marked_frames N W H k) W H S)
      as (out & Hrun' & _ & _ & _ & Hpx'); [lia..|done|].
    rewrite Hrun in Hrun'. injection Hrun' as <-.
    specialize (Hpx 0 ltac:(lia)). specialize (Hpx' x 0 Hx ltac:(lia)).
    rewrite Hpx' in Hpx. unfold vertical_source in Hpx.
    rewrite Hlen, (Hlook _ Hb) in Hpx.
    assert (HkN : k < N).
    { apply lookup_lt_Some in Hframe. lia. }
    rewrite (Hlook k) in Hframe by lia. injection Hframe as <-.
    rewrite (decide_True (P := k = k)) in Hpx by done.
    unfold solid in Hpx. cbn [mbind option_bind] in Hpx.
    rewrite !pixel_at_tabulate in Hpx by lia.
    case_decide; [done|discriminate Hpx].
  - intros <-. split; [lia|]. intros frames Hlen Hframes.
    assert (Hne : (1 ≤ length frames)%nat) by lia.
    destruct (interlace_vertical_spec frames W H S)
      as (out & Hrun & _ & _ & _ & Hpx); [lia..|done|].
    destruct (frame_of_column frames W H (clamp_slice S W) Hs Hne Hframes x)
      as (frame & Hf & _); [lia|].
    exists out, frame. split; [done|]. rewrite Hlen in Hf.
    split; [done|].
    intros y Hy. rewrite Hpx by done. unfold vertical_source.
    by rewrite Hlen, Hf.
Qed.

(** C3. For identical parameters (W, H, S, N, vertical) a column x in
    [0, W) is transparent in the mask [make_mask] returns if and only if
    [interlace_vertical] cuts column x of its canvas from frame 0. The
    mask is returned at least whenever the slit is no wider than the
    mask. *)
Theorem mask_interlacer_alignment (W H S N x : Z) :
  1 ≤ H → 1 ≤ N → 0 ≤ x < W →
  (∀ mask, make_mask W H S N "vertical" = Ok mask →
     (column_transparent mask x ↔ column_cut_from N W H S x 0)) ∧
  (S ≤ W → ∃ mask, make_mask W H S N "vertical" = Ok mask).
Proof.
  intros HH HN Hx. split.
  - intros mask Hrun.
    destruct (make_mask_inv _ _ _ _ _ _ Hrun) as (_ & _ & Hslit).
    destruct (make_mask_columns W H S N) as (mask' & Hrun' & Hcols);
      [lia..|done|].
    rewrite Hrun in Hrun'. injection Hrun' as <-.
    rewrite (proj1 (Hcols x Hx)), column_cut_from_iff by done.
    by apply slit_iff_frame_0.
  - intros HSW.
    destruct (make_mask_columns W H S N) as (mask & Hrun & _);
      [lia..|unfold slit_in_range; lia|].
    by exists mask.
Qed.

Lemma mask_interlacer_alignment_witness :
  (1 ≤ 2 ∧ 1 ≤ 3 ∧ 0 ≤ 6 < 12) ∧
  (∀ mask, make_mask 12 2 2 3 "vertical" = Ok mask →
     (column_transparent mask 6 ↔ column_cut_from 3 12 2 2 6 0)) ∧
  (2 ≤ 12 → ∃ mask, make_mask 12 2 2 3 "vertical" = Ok mask).
Proof.
  assert (Hhyp : 1 ≤ 2 ∧ 1 ≤ 3 ∧ 0 ≤ 6 < 12).
  { apply (bool_decide_unpack _). vm_compute. exact I. }
  split; [exact Hhyp|].
  destruct Hhyp as (H1 & H2 & H3).
  exact (mask_interlacer_alignment 12 2 2 3 6 H1 H2 H3).
Defined.

(** A slice wider than the frames: the interlace clamps it to the width
    and takes every column from frame 0; the mask does not clamp it, and
    its one slit spans the whole width. *)
Example mask_of_wider_slice :
  make_mask 4 2 7 3 "vertical" = Ok (solid 4 2 [0; 0; 0; 0]) ∧
  interlace_vertical [solid 4 2 red; solid 4 2 green; solid 4 2 blue] 4 2 7
    = Ok (solid 4 2 red).
Proof. split; by vm_compute. Qed.

(** ** The size unifier *)

Lemma foldl_min_spec (l : list Z) (x : Z) :
  foldl Z.min x l ∈ x :: l ∧ Forall (λ y, foldl Z.min x l ≤ y) (x :: l).
Proof.
  revert x. induction l as [|a l IH]; intros x; simpl.
  - split; [by left|]. by repeat constructor.
  - destruct (IH (Z.min x a)) as [Hin Hle].
    apply Forall_cons in Hle as [Hle1 Hle].
    split.
    + apply elem_of_cons in Hin as [Heq|Hin]; [|by do 2 right].
      rewrite Heq. destruct (Z.min_spec x a) as [[_ ->]|[_ ->]];
        [by left|right; by left].
    + repeat constructor; [lia|lia|done].
Qed.

Lemma min_spec (l : list Z) :
  l ≠ [] →
  ∃ m, Py.min l = Ok m ∧ m ∈ l ∧ Forall (λ y, m ≤ y) l.
Proof.
  destruct l as [|x l]; [done|]. intros _.
  exists (foldl Z.min x l). split; [done|]. apply foldl_min_spec.
Qed.

Section Unify.

Variable env : Env.
Variables W H : Z.

(** What the loop of [unify_sizes] appends for one frame. *)
Let fit (im : Image) : Image :=
  if decide (width im ≠ W ∨ height im ≠ H)
  then mkImage (mode im) W H (tabulate W H (lanczos env im (W, H)))
  else im.

Lemma fit_size (im : Image) : width (fit im) = W ∧ height (fit im) = H.
Proof. unfold fit. case_decide; simpl; [done|lia]. Qed.

Lemma unify_loop (imgs acc : list Image) :
  1 ≤ W → 1 ≤ H →
  for_each (λ out im,
      if decide (width im ≠ W ∨ height im ≠ H) then
        r ← PIL.resize (lanczos env) im (W, H);
        Ok (out ++ [r])
      else Ok (out ++ [im]))
    acc imgs = Ok (acc ++ (fit <$> imgs)).
Proof.
  intros HW HH. revert acc. induction imgs as [|im imgs IH]; intros acc.
  - simpl. by rewrite app_nil_r.
  - cbn [for_each fmap list_fmap].
    assert (Hfit : fit im =
              if decide (width im ≠ W ∨ height im ≠ H)
              then mkImage (mode im) W H
                     (tabulate W H (lanczos env im (W, H)))
              else im) by done.
    destruct (decide (width im ≠ W ∨ height im ≠ H)).
    + unfold PIL.resize. rewrite decide_False by lia. run_bind.
      rewrite IH, Hfit. by rewrite <- app_assoc.
    + run_bind. rewrite IH, Hfit. by rewrite <- app_assoc.
Qed.

End Unify.

(** With the [min] strategy the target size is the smallest width and the
    smallest height, and every returned frame has it. *)
Lemma unify_min_spec (env : Env) (imgs : list Image) :
  imgs ≠ [] →
  Forall (λ im, 1 ≤ width im ∧ 1 ≤ height im) imgs →
  ∃ out W H,
    unify_sizes env imgs "min" = Ok (out, W, H) ∧
    W ∈ width <$> imgs ∧ Forall (λ im, W ≤ width im) imgs ∧
    H ∈ height <$> imgs ∧ Forall (λ im, H ≤ height im) imgs ∧
    length out = length imgs ∧
    Forall (λ im, width im = W ∧ height im = H) out.
Proof.
  intros Hne Hpos. unfold unify_sizes.
  rewrite decide_False by done.
  destruct (min_spec (width <$> imgs)) as (W & -> & HWin & HWle).
  { by destruct imgs. }
  destruct (min_spec (height <$> imgs)) as (H & -> & HHin & HHle).
  { by destruct imgs. }
  run_bind.
  assert (HW : 1 ≤ W).
  { apply list_elem_of_fmap in HWin as (im & -> & Him).
    rewrite Forall_forall in Hpos. by apply Hpos. }
  assert (HH : 1 ≤ H).
  { apply list_elem_of_fmap in HHin as (im & -> & Him).
    rewrite Forall_forall in Hpos. by apply Hpos. }
  rewrite unify_loop by done. run_bind.
  eexists _, W, H. split; [done|].
  split; [done|]. split; [rewrite Forall_fmap in HWle; exact HWle|].
  split; [done|]. split; [rewrite Forall_fmap in HHle; exact HHle|].
  split; [by rewrite app_nil_l, length_fmap|].
  rewrite app_nil_l. apply Forall_fmap, Forall_forall. intros im _.
  apply fit_size.
Qed.

(** ** C5: the [min] resize strategy *)

(** C5. For every frame set with N >= 2 frames, [unify_sizes] with strategy
    [min] returns (W, H) where W is the minimum width and H the minimum
    height over all frames, each taken on its own axis, and every returned
    frame has exactly size (W, H); for frames of sizes 2x5 and 4x3 the
    result (2, 3) is the size of neither. *)
Theorem unify_sizes_min :
  (∀ (env : Env) (imgs : list Image),
     (2 ≤ length imgs)%nat →
     Forall (λ im, 1 ≤ width im ∧ 1 ≤ height im) imgs →
     ∃ out W H,
       unify_sizes env imgs "min" = Ok (out, W, H) ∧
       W ∈ width <$> imgs ∧ Forall (λ im, W ≤ width im) imgs ∧
       H ∈ height <$> imgs ∧ Forall (λ im, H ≤ height im) imgs ∧
       length out = length imgs ∧
       Forall (λ im, width im = W ∧ height im = H) out) ∧
  (∀ env : Env, ∃ out,
     unify_sizes env [solid 2 5 red; solid 4 3 green] "min"
       = Ok (out, 2, 3)).
Proof.
  split.
  - intros env imgs HN Hpos. apply unify_min_spec; [|done].
    intros ->. simpl in HN. lia.
  - intros env. eexists. by vm_compute.
Qed.

Lemma unify_sizes_min_witness :
  let imgs := [solid 2 5 red; solid 4 3 green] in
  ((2 ≤ length imgs)%nat ∧
   Forall (λ im, 1 ≤ width im ∧ 1 ≤ height im) imgs) ∧
  ∃ out W H,
    unify_sizes example_env imgs "min" = Ok (out, W, H) ∧
    W ∈ width <$> imgs ∧ Forall (λ im, W ≤ width im) imgs ∧
    H ∈ height <$> imgs ∧ Forall (λ im, H ≤ height im) imgs ∧
    length out = length imgs ∧
    Forall (λ im, width im = W ∧ height im = H) out.
Proof.
  intros imgs.
  assert (Hhyp : (2 ≤ length imgs)%nat ∧
                 Forall (λ im, 1 ≤ width im ∧ 1 ≤ height im) imgs).
  { apply (bool_decide_unpack _). vm_compute. exact I. }
  split; [exact Hhyp|].
  destruct Hhyp as (H1 & H2).
  exact (proj1 unify_sizes_min example_env imgs H1 H2).
Defined.

(** ** C7: what [unify_sizes] does with fewer than two frames *)

(** C7, as stated, fails: a frame set of one frame is returned with its
    size, not rejected. *)
Lemma unify_sizes_single_not_rejected :
  (length [solid 1 1 red] < 2)%nat ∧
  unify_sizes example_env [solid 1 1 red] "min"
    = Ok ([solid 1 1 red], 1, 1) ∧
  ¬ (∀ (env : Env) (imgs : list Image) (mode : string),
       (length imgs < 2)%nat → ∃ e, unify_sizes env imgs mode = Raise e).
Proof.
  split; [simpl; lia|]. split; [by vm_compute|].
  intros Hclaim.
  destruct (Hclaim example_env [solid 1 1 red] "min" ltac:(simpl; lia))
    as [e He].
  vm_compute in He. discriminate He.
Qed.

(** C7, amended. [unify_sizes] does not count its frames. A single frame
    is returned unchanged with its own size, under either strategy; the
    empty frame set makes it raise the error of the failing built-in:
    [IndexError] for strategy [first], [ValueError] otherwise. *)
Theorem unify_sizes_fewer_than_two (env : Env) (mode : string) :
  (∀ im : Image,
     unify_sizes env [im] mode = Ok ([im], width im, height im)) ∧
  unify_sizes env [] mode =
    Raise (if decide (mode = "first") then IndexError else ValueError).
Proof.
  split.
  - intros im. unfold unify_sizes.
    assert (Hsize : (if decide (mode = "first") then
                       im0 ← Py.index [im] 0; Ok (width im0, height im0)
                     else
                       W ← Py.min (width <$> [im]);
                       H ← Py.min (height <$> [im]); Ok (W, H))
                    = Ok (width im, height im)).
    { by case_decide. }
    rewrite Hsize. run_bind. cbn [for_each].
    by rewrite decide_False by lia.
  - unfold unify_sizes. by case_decide.
Qed.

(** ** Blending *)

Lemma div255_exact (v : Z) : 0 ≤ v ≤ 255 → div255 (v * 255) = v.
Proof.
  intros Hv. unfold div255. rewrite !Z.shiftr_div_pow2 by lia.
  change (2 ^ 8) with 256.
  symmetry.
  apply Z.div_unique_pos with (r := (v * 255 + 128) `div` 256 + 128 - v).
  - pose proof (Z.div_mod (v * 255 + 128) 256 ltac:(lia)).
    pose proof (Z.mod_pos_bound (v * 255 + 128) 256 ltac:(lia)). lia.
  - lia.
Qed.

Lemma div255_range (t : Z) : 0 ≤ t ≤ 255 * 255 → 0 ≤ div255 t ≤ 255.
Proof.
  intros Ht. unfold div255. rewrite !Z.shiftr_div_pow2 by lia.
  change (2 ^ 8) with 256.
  pose proof (Z.div_mod (t + 128) 256 ltac:(lia)).
  pose proof (Z.mod_pos_bound (t + 128) 256 ltac:(lia)).
  split.
  - apply Z.div_pos; lia.
  - apply Z.lt_succ_r, Z.div_lt_upper_bound; lia.
Qed.

(** Weight 0 keeps the destination, weight 255 takes the source. *)
Lemma blend8_0 (d s : Z) : 0 ≤ d ≤ 255 → blend8 0 d s = d.
Proof.
  intros Hd. unfold blend8.
  replace (d * (255 - 0) + s * 0) with (d * 255) by lia.
  by apply div255_exact.
Qed.

Lemma blend8_255 (d s : Z) : 0 ≤ s ≤ 255 → blend8 255 d s = s.
Proof.
  intros Hs. unfold blend8.
  replace (d * (255 - 255) + s * 255) with (s * 255) by lia.
  by apply div255_exact.
Qed.

Lemma blend8_range (a d s : Z) :
  0 ≤ a ≤ 255 → 0 ≤ d ≤ 255 → 0 ≤ s ≤ 255 → 0 ≤ blend8 a d s ≤ 255.
Proof. intros Ha Hd Hs. unfold blend8. apply div255_range. nia. Qed.

Lemma valid_rgba (p : Pixel) :
  valid_pixel RGBA p →
  p = [chan p 0; chan p 1; chan p 2; chan p 3] ∧
  0 ≤ chan p 0 ≤ 255 ∧ 0 ≤ chan p 1 ≤ 255 ∧
  0 ≤ chan p 2 ≤ 255 ∧ 0 ≤ chan p 3 ≤ 255.
Proof.
  intros [Hlen Hrange].
  destruct p as [|r [|g [|b [|a [|]]]]]; try done.
  split; [done|]. unfold chan. simpl.
  by repeat (apply Forall_cons in Hrange as [? Hrange]).
Qed.

(** ** The white-background compositor *)

(** [l[-1]] of the four bands of an RGBA image. *)
Lemma index_last_of_4 {A : Type} (a b c d : A) :
  Py.index [a; b; c; d] (-1) = Ok d.
Proof. reflexivity. Qed.

Lemma composite_on_white_spec (img : Image) :
  mode img = RGBA → valid_image img →
  ∃ out,
    composite_on_white img = Ok out ∧
    mode out = RGB ∧ width out = width img ∧ height out = height img ∧
    valid_image out ∧
    ∀ x y p, pixel_at img x y = Some p →
      pixel_at out x y =
        Some [blend8 (chan p 3) 255 (chan p 0);
              blend8 (chan p 3) 255 (chan p 1);
              blend8 (chan p 3) 255 (chan p 2)].
Proof.
  intros Hmode Hvalid.
  pose proof Hvalid as [(Hw & Hh & _) _].
  unfold composite_on_white. rewrite decide_False by (by intros []).
  rewrite new_ok by done. run_bind.
  unfold PIL.split. rewrite Hmode. cbn [bands seq fmap list_fmap].
  rewrite index_last_of_4. run_bind. unfold PIL.paste. cbn [mode width height].
  rewrite Hmode. rewrite decide_True by (by right).
  unfold PIL.mask_fits. cbn [mode width height].
  rewrite bool_decide_eq_true_2 by done.
  eexists. split; [done|].
  match goal with |- context [tabulate _ _ ?f] => set (g := f) end.
  assert (Hpx : ∀ x y, 0 ≤ x < width img → 0 ≤ y < height img →
            ∃ p, pixel_at img x y = Some p ∧
              g x y = [blend8 (chan p 3) 255 (chan p 0);
                       blend8 (chan p 3) 255 (chan p 1);
                       blend8 (chan p 3) 255 (chan p 2)]).
  { intros x y Hx Hy.
    destruct (pixel_at_valid img x y Hvalid Hx Hy) as (p & Hp & Hvp).
    exists p. split; [done|]. subst g. cbv beta.
    rewrite decide_True by (simpl; lia). cbn [fst snd].
    rewrite !Z.sub_0_r.
    assert (Hsrc : pixel_or_zero img x y = p).
    { unfold pixel_or_zero. by rewrite Hp. }
    assert (Hbg : pixel_or_zero
                    (mkImage RGB (width img) (height img)
                       (tabulate (width img) (height img)
                          (λ _ _, [255; 255; 255]))) x y
                  = [255; 255; 255]).
    { unfold pixel_or_zero. by rewrite pixel_at_tabulate. }
    assert (Ha : PIL.mask_weight
                   (mkImage L (width img) (height img)
                      (tabulate (width img) (height img)
                         (λ x y, [chan (pixel_or_zero img x y) 3]))) x y
                 = chan p 3).
    { unfold PIL.mask_weight. cbn [mode]. unfold pixel_or_zero at 1.
      rewrite pixel_at_tabulate by done. by rewrite Hsrc. }
    rewrite Hsrc, Hbg, Ha.
    rewrite Hmode in Hvp. destruct Hvp as [Hlen _].
    by destruct p as [|r [|g' [|b [|a [|]]]]]. }
  do 3 (split; [done|]).
  split.
  - apply valid_tabulate; [done..|]. intros x y Hx Hy.
    destruct (Hpx x y Hx Hy) as (p & Hp & ->).
    destruct (pixel_at_valid img x y Hvalid Hx Hy) as (p' & Hp' & Hvp).
    rewrite Hp in Hp'. injection Hp' as <-.
    rewrite Hmode in Hvp. destruct (valid_rgba p Hvp) as (_ & ? & ? & ? & ?).
    split; [done|].
    repeat constructor; apply blend8_range; lia.
  - intros x y p Hp.
    assert (Hin : 0 ≤ x < width img ∧ 0 ≤ y < height img).
    { destruct (decide (0 ≤ x < width img ∧ 0 ≤ y < height img)); [done|].
      by rewrite pixel_at_outside in Hp. }
    rewrite pixel_at_tabulate by lia.
    destruct (Hpx x y) as (p' & Hp' & ->); [lia..|].
    rewrite Hp in Hp'. by injection Hp' as <-.
Qed.

(** ** C6: compositing onto white *)

(** C6. For every RGBA canvas the white-background compositor returns a
    fully opaque image (mode RGB, no alpha band) in which every input
    pixel with alpha 0 is exactly (255, 255, 255) and every input pixel
    with alpha 255 keeps its RGB values. *)
Theorem composite_on_white_endpoints (img : Image) :
  mode img = RGBA → valid_image img →
  ∃ out,
    composite_on_white img = Ok out ∧
    mode out = RGB ∧ width out = width img ∧ height out = height img ∧
    valid_image out ∧
    ∀ x y p, pixel_at img x y = Some p →
      (chan p 3 = 0 → pixel_at out x y = Some [255; 255; 255]) ∧
      (chan p 3 = 255 →
         pixel_at out x y = Some [chan p 0; chan p 1; chan p 2]).
Proof.
  intros Hmode Hvalid.
  destruct (composite_on_white_spec img Hmode Hvalid)
    as (out & Hrun & Hm & Hw & Hh & Hv & Hpx).
  exists out. do 5 (split; [done|]).
  intros x y p Hp. rewrite (Hpx x y p Hp).
  assert (Hvp : valid_pixel RGBA p).
  { assert (Hin : 0 ≤ x < width img ∧ 0 ≤ y < height img).
    { destruct (decide (0 ≤ x < width img ∧ 0 ≤ y < height img)); [done|].
      by rewrite pixel_at_outside in Hp. }
    destruct (pixel_at_valid img x y Hvalid) as (p' & Hp' & Hvp); [lia..|].
    rewrite Hp in Hp'. injection Hp' as <-. by rewrite Hmode in Hvp. }
  destruct (valid_rgba p Hvp) as (_ & ? & ? & ? & _).
  split; intros ->.
  - by rewrite !blend8_0 by lia.
  - by rewrite !blend8_255 by lia.
Qed.

Lemma composite_on_white_endpoints_witness :
  let img := mkImage RGBA 2 1 [[[10; 20; 30; 0]; [40; 50; 60; 255]]] in
  (mode img = RGBA ∧ valid_image img) ∧
  ∃ out,
    composite_on_white img = Ok out ∧
    mode out = RGB ∧ width out = width img ∧ height out = height img ∧
    valid_image out ∧
    ∀ x y p, pixel_at img x y = Some p →
      (chan p 3 = 0 → pixel_at out x y = Some [255; 255; 255]) ∧
      (chan p 3 = 255 →
         pixel_at out x y = Some [chan p 0; chan p 1; chan p 2]).
Proof.
  intros img.
  assert (Hhyp : mode img = RGBA ∧ valid_image img).
  { apply (bool_decide_unpack _). vm_compute. exact I. }
  split; [exact Hhyp|].
  destruct Hhyp as (H1 & H2).
  exact (composite_on_white_endpoints img H1 H2).
Defined.

Example composite_on_white_2x1 :
  composite_on_white (mkImage RGBA 2 1 [[[10; 20; 30; 0]; [40; 50; 60; 255]]])
    = Ok (mkImage RGB 2 1 [[[255; 255; 255]; [40; 50; 60]]]).
Proof. by vm_compute. Qed.

(** ** The horizontal interlace loop *)

Lemma horizontal_stripe_ok (N H s y : Z) :
  s ≠ 0 → N ≠ 0 →
  horizontal_stripe N H s y =
    Ok (mkStripe y (Z.min (y + s) H) ((y `div` s) `mod` N)).
Proof.
  intros Hs HN. unfold horizontal_stripe, Py.floordiv, Py.mod_.
  rewrite (decide_False (P := s = 0)) by done. simpl.
  by rewrite (decide_False (P := N = 0)) by done.
Qed.

Section Horizontal.

Variables (frames : list Image) (W H s : Z).
Hypothesis Hs : 1 ≤ s.
Hypothesis HW : 0 ≤ W.
Hypothesis Hne : (1 ≤ length frames)%nat.
Hypothesis Hframes : Forall (is_frame W H) frames.

Local Abbreviation N := (Z.of_nat (length frames)).

Let body (out : Image) (y : Z) : result Image :=
  st ← horizontal_stripe N H s y;
  frame ← Py.index frames (stripe_frame st);
  crop ← PIL.crop frame (0, stripe_x st, W, stripe_x2 st);
  PIL.paste out crop (0, stripe_x st) None.

(** The canvas once the stripes starting above row [k * s] are pasted. *)
Let canvas_upto (k : Z) (out : Image) : Prop :=
  mode out = RGBA ∧ width out = W ∧ height out = H ∧
  ∀ x y, 0 ≤ x < W → 0 ≤ y < H → y < k * s →
    pixel_at out x y = horizontal_source frames s x y.

Lemma horizontal_source_valid (x y : Z) :
  0 ≤ x < W → 0 ≤ y < H →
  ∃ p, horizontal_source frames s x y = Some p ∧ valid_pixel RGBA p.
Proof using Hs Hne Hframes.
  intros Hx Hy. unfold horizontal_source.
  destruct (frame_of_column frames W H s Hs Hne Hframes y)
    as (frame & -> & Hm & Hw & Hh & Hv); [lia|].
  simpl. rewrite <- Hm. apply pixel_at_valid; [done|lia..].
Qed.

Lemma horizontal_step (k : Z) (out : Image) :
  0 ≤ k → k * s < H → canvas_upto k out →
  ∃ out', body out (0 + k * s) = Ok out' ∧ canvas_upto (k + 1) out'.
Proof using Hs HW Hne Hframes.
  intros Hk HkH (Hm & Hw & Hh & Hpx).
  assert (Hq : (0 + k * s) `div` s = k).
  { rewrite Z.add_0_l, Z.div_mul; lia. }
  destruct (frame_of_column frames W H s Hs Hne Hframes (0 + k * s))
    as (frame & Hf & Hfm & Hfw & Hfh & Hfv); [lia|].
  rewrite Hq in Hf.
  pose proof (Z.mod_pos_bound k N ltac:(lia)) as Hb.
  unfold body. rewrite horizontal_stripe_ok by lia. run_bind. rewrite Hq.
  rewrite (index_lookup _ _ _ (proj1 Hb) Hf). run_bind.
  rewrite crop_ok by lia. run_bind.
  rewrite paste_plain by (simpl; congruence).
  eexists. split; [done|]. do 3 (split; [done|]).
  intros x y Hx Hy Hlt. rewrite Hw, Hh.
  rewrite pixel_at_tabulate by lia.
  destruct (horizontal_source_valid x y Hx Hy) as (p & Hp & Hlen & _).
  rewrite Hp.
  case_decide as Hbox; simpl in Hbox.
  - unfold pixel_or_zero at 1. cbn [fst snd].
    rewrite pixel_at_tabulate by lia.
    replace (0 + k * s + (y - (0 + k * s))) with y by lia.
    replace (0 + (x - 0)) with x by lia.
    assert (Hyq : y `div` s = k).
    { symmetry. apply (Z.div_unique_pos y s k (y - k * s)); lia. }
    unfold horizontal_source in Hp. rewrite Hyq, Hf in Hp. simpl in Hp.
    unfold pixel_or_zero. rewrite Hp. simpl.
    rewrite Hm. f_equal. apply take_ge. by rewrite Hlen.
  - unfold pixel_or_zero. rewrite Hpx by lia. by rewrite Hp.
Qed.

Lemma horizontal_loop (m : nat) (k : Z) (out : Image) :
  0 ≤ k → (k + Z.of_nat m - 1) * s < H ∨ m = 0%nat → canvas_upto k out →
  ∃ out',
    for_each body out ((λ i, 0 + i * s) <$> seqZ k (Z.of_nat m)) = Ok out' ∧
    canvas_upto (k + Z.of_nat m) out'.
Proof using Hs HW Hne Hframes.
  revert k out. induction m as [|m IH]; intros k out Hk Hlast Hinv.
  - exists out. rewrite seqZ_nil by lia. simpl.
    split; [done|]. by rewrite Z.add_0_r.
  - rewrite seqZ_cons by lia. simpl.
    destruct (horizontal_step k out) as (out1 & -> & Hinv1);
      [lia|nia|done|].
    simpl.
    replace (Z.pred (Z.of_nat (S m))) with (Z.of_nat m) by lia.
    destruct (IH (Z.succ k) out1) as (out' & Hrun & Hinv'); [lia| |done|].
    { destruct m; [by right|left; nia]. }
    exists out'. split; [done|].
    by replace (k + Z.of_nat (S m)) with (Z.succ k + Z.of_nat m) by lia.
Qed.

End Horizontal.

(** The horizontal interlace returns, and every pixel of its canvas is the
    one of the frame its stripe is cut from. *)
Lemma interlace_horizontal_spec (frames : list Image) (W H S : Z) :
  (1 ≤ length frames)%nat → 0 ≤ W → 0 ≤ H →
  Forall (is_frame W H) frames →
  ∃ out,
    interlace_horizontal frames W H S = Ok out ∧
    mode out = RGBA ∧ width out = W ∧ height out = H ∧
    ∀ x y, 0 ≤ x < W → 0 ≤ y < H →
      pixel_at out x y = horizontal_source frames (clamp_slice S H) x y.
Proof.
  intros Hne HW HH Hframes. unfold interlace_horizontal.
  pose proof (clamp_slice_pos S H) as Hs.
  rewrite new_ok by done. run_bind.
  rewrite range_ok by done. run_bind.
  destruct (range_length_bounds H (clamp_slice S H) Hs) as (Hn0 & Hlt & Hge).
  rewrite <- (Z2Nat.id (Py.range_length 0 H (clamp_slice S H))) by done.
  edestruct (horizontal_loop frames W H (clamp_slice S H) Hs HW Hne Hframes
               (Z.to_nat (Py.range_length 0 H (clamp_slice S H))) 0
               (mkImage RGBA W H (tabulate W H (λ _ _, [0; 0; 0; 0]))))
    as (out & Hrun & Hm & Hw & Hh & Hpx); [done| |..].
  - destruct (decide (Py.range_length 0 H (clamp_slice S H) = 0)) as [->|Hn].
    + by right.
    + left. rewrite Z2Nat.id by done. apply Hlt. lia.
  - do 3 (split; [done|]). intros x y Hx Hy Hlt0. lia.
  - exists out. split; [exact Hrun|]. do 3 (split; [done|]).
    intros x y Hx Hy. apply Hpx; [done..|].
    rewrite Z2Nat.id by done. lia.
Qed.

(** ** The horizontal mask *)

Lemma for_each_paste_ok (slit mask : Image) (at_ : Z → Z * Z) (l : list Z) :
  mode mask = mode slit →
  ∃ mask',
    for_each (λ mask z, PIL.paste mask slit (at_ z) None) mask l = Ok mask' ∧
    mode mask' = mode mask ∧ width mask' = width mask ∧
    height mask' = height mask.
Proof.
  revert mask. induction l as [|z l IH]; intros mask Hm.
  - by exists mask.
  - cbn [for_each]. rewrite paste_plain by done. run_bind.
    edestruct IH as (mask' & -> & Hm' & Hw' & Hh'); [|by exists mask'].
    done.
Qed.

Lemma make_mask_ok (W H S N : Z) (direction : string) :
  0 ≤ W → 0 ≤ H → 1 ≤ N → slit_in_range W H S →
  ∃ mask,
    make_mask W H S N direction = Ok mask ∧
    mode mask = RGBA ∧ width mask = W ∧ height mask = H.
Proof.
  intros HW HH HN Hslit.
  destruct (decide (direction = "vertical")) as [->|Hdir].
  - destruct (make_mask_vertical_spec W H S N HW HH HN Hslit)
      as (mask & Hrun & Hm & Hw & Hh & _).
    by exists mask.
  - unfold make_mask. unfold slit_in_range in Hslit.
    assert (HP : 1 ≤ Z.max 1 S * N) by nia.
    rewrite (new_ok RGBA W H) by done. run_bind.
    rewrite decide_False by done.
    rewrite new_sized_ok by lia. run_bind.
    rewrite range_ok by done. run_bind.
    edestruct (for_each_paste_ok
                 (mkImage RGBA W (Z.max 1 S)
                    (tabulate W (Z.max 1 S) (λ _ _, [0; 0; 0; 0])))
                 (mkImage RGBA W H (tabulate W H (λ _ _, [0; 0; 0; 255])))
                 (λ y, (0, y)))
      as (mask & Hrun & Hm & Hw & Hh); [done|].
    exists mask. split; [exact Hrun|done].
Qed.

(** ** C9: a non-positive slice size behaves as slice size 1 *)

Lemma clamp_slice_nonpos (S W : Z) : S ≤ 1 → clamp_slice S W = 1.
Proof. intros HS. unfold clamp_slice. lia. Qed.

(** C9. For every integer slice size S <= 0 and every valid geometry,
    [interlace_vertical], [interlace_horizontal] and [make_mask] all return
    without error, and what they return is what they return for slice
    size 1. *)
Theorem nonpositive_slice_as_one (frames : list Image) (W H S N : Z)
    (direction : string) :
  S ≤ 0 → 0 ≤ W → 0 ≤ H → 1 ≤ N →
  (1 ≤ length frames)%nat → Forall (is_frame W H) frames →
  (∃ out, interlace_vertical frames W H S = Ok out ∧
          interlace_vertical frames W H 1 = Ok out) ∧
  (∃ out, interlace_horizontal frames W H S = Ok out ∧
          interlace_horizontal frames W H 1 = Ok out) ∧
  (∃ mask, make_mask W H S N direction = Ok mask ∧
           make_mask W H 1 N direction = Ok mask).
Proof.
  intros HS HW HH HN Hne Hframes. repeat split.
  - destruct (interlace_vertical_spec frames W H 1) as (out & Hrun & _);
      [done..|].
    exists out. split; [|done]. rewrite <- Hrun.
    unfold interlace_vertical. by rewrite !clamp_slice_nonpos by lia.
  - destruct (interlace_horizontal_spec frames W H 1) as (out & Hrun & _);
      [done..|].
    exists out. split; [|done]. rewrite <- Hrun.
    unfold interlace_horizontal. by rewrite !clamp_slice_nonpos by lia.
  - destruct (make_mask_ok W H 1 N direction) as (mask & Hrun & _);
      [done..|unfold slit_in_range, PIL.c_int_max; lia|].
    exists mask. split; [|done]. rewrite <- Hrun.
    unfold make_mask. by rewrite !(Z.max_l 1) by lia.
Qed.

Lemma nonpositive_slice_as_one_witness :
  let frames := [solid 4 2 red; solid 4 2 green; solid 4 2 blue] in
  (-3 ≤ 0 ∧ 0 ≤ 4 ∧ 0 ≤ 2 ∧ 1 ≤ 3 ∧
   (1 ≤ length frames)%nat ∧ Forall (is_frame 4 2) frames) ∧
  (∃ out, interlace_vertical frames 4 2 (-3) = Ok out ∧
          interlace_vertical frames 4 2 1 = Ok out) ∧
  (∃ out, interlace_horizontal frames 4 2 (-3) = Ok out ∧
          interlace_horizontal frames 4 2 1 = Ok out) ∧
  (∃ mask, make_mask 4 2 (-3) 3 "horizontal" = Ok mask ∧
           make_mask 4 2 1 3 "horizontal" = Ok mask).
Proof.
  intros frames.
  assert (Hhyp : -3 ≤ 0 ∧ 0 ≤ 4 ∧ 0 ≤ 2 ∧ 1 ≤ 3 ∧
                 (1 ≤ length frames)%nat ∧ Forall (is_frame 4 2) frames).
  { apply (bool_decide_unpack _). vm_compute. exact I. }
  split; [exact Hhyp|].
  destruct Hhyp as (H1 & H2 & H3 & H4 & H5 & H6).
  exact (nonpositive_slice_as_one frames 4 2 (-3) 3 "horizontal"
           H1 H2 H3 H4 H5 H6).
Defined.

(** ** The run as a whole *)

Lemma io_bind_ok {A B : Type} (m : io A) (f : A → io B) (a : A) :
  m.2 = Ok a → m ≫= f = (m.1 ++ (f a).1, (f a).2).
Proof. intros Hm. unfold mbind, io_bind. by rewrite Hm. Qed.

Lemma io_bind_raise {A B : Type} (m : io A) (f : A → io B) (e : exn) :
  m.2 = Raise e → m ≫= f = (m.1, Raise e).
Proof. intros Hm. unfold mbind, io_bind. by rewrite Hm. Qed.

Lemma saves_app (t1 t2 : list event) :
  saves (t1 ++ t2) = saves t1 ++ saves t2.
Proof. apply omap_app. Qed.

Lemma saves_print (line : string) (t : list event) :
  saves (Print line :: t) = saves t.
Proof. done. Qed.

Lemma saves_mkdir (path : string) (t : list event) :
  saves (Mkdir path :: t) = saves t.
Proof. done. Qed.

Lemma saves_save (path : string) (img : Image) (t : list event) :
  saves (Save path img :: t) = (path, img) :: saves t.
Proof. done. Qed.

Lemma saves_prints (lines : list string) : saves (Print <$> lines) = [].
Proof. by induction lines. Qed.

Lemma main_collect_trace (env : Env) (args : Args.t) :
  (main_collect env args).1 = [].
Proof.
  unfold main_collect. destruct (path_exists _ _); [|done].
  by case_decide.
Qed.

(** ** C8: fewer than two frames abort the run *)

(** C8. Whenever fewer than 2 input frames are collected, the run aborts
    with a message that names the count, the folder and the extensions,
    and with a non-zero exit status; nothing has been printed, no
    directory made and no file (base or mask) saved. *)
Theorem insufficient_frames_abort (env : Env) (args : Args.t) :
  let folder := main_folder env args in
  let exts := main_exts env args in
  let files := collect_files env folder exts (Args.recursive args) in
  path_exists env folder = true →
  (length files < 2)%nat →
  main env args =
    ([], Raise (SystemExit
           ("[ERROR] Found " +:+ pretty (length files) +:+ " image(s) in "
              +:+ folder +:+ " with exts " +:+ str_repr env exts
              +:+ ". Need at least 2."))) ∧
  saves (main env args).1 = [] ∧
  exit_status (main env args).2 ≠ 0.
Proof.
  intros folder exts files Hexists Hfew.
  assert (Hmain : main env args =
            ([], Raise (SystemExit
               ("[ERROR] Found " +:+ pretty (length files) +:+ " image(s) in "
                  +:+ folder +:+ " with exts " +:+ str_repr env exts
                  +:+ ". Need at least 2.")))).
  { unfold main. erewrite io_bind_raise; [by rewrite main_collect_trace|].
    unfold main_collect. fold folder. rewrite Hexists.
    fold exts. fold files. by rewrite decide_True. }
  rewrite Hmain. by repeat split.
Qed.

Lemma insufficient_frames_abort_witness :
  let env := example_env_with ["1.png"] in
  let args := example_args false false in
  let folder := main_folder env args in
  let exts := main_exts env args in
  let files := collect_files env folder exts (Args.recursive args) in
  (path_exists env folder = true ∧ (length files < 2)%nat) ∧
  main env args =
    ([], Raise (SystemExit
           ("[ERROR] Found " +:+ pretty (length files) +:+ " image(s) in "
              +:+ folder +:+ " with exts " +:+ str_repr env exts
              +:+ ". Need at least 2."))) ∧
  saves (main env args).1 = [] ∧
  exit_status (main env args).2 ≠ 0.
Proof.
  intros env args folder exts files.
  assert (Hhyp : path_exists env folder = true ∧ (length files < 2)%nat).
  { apply (bool_decide_unpack _). vm_compute. exact I. }
  split; [exact Hhyp|].
  destruct Hhyp as (H1 & H2).
  exact (insufficient_frames_abort env args H1 H2).
Defined.

Example insufficient_frames_message :
  main (example_env_with ["1.png"]) (example_args false false) =
    ([], Raise (SystemExit
           "[ERROR] Found 1 image(s) in . with exts ['png']. Need at least 2.")).
Proof. by vm_compute. Qed.

(** ** The canvas an interlace returns *)

(** Take apart a sequence of calls that returned. *)
Ltac bind_inv H :=
  repeat match type of H with
  | (?m ≫= _) = Ok _ =>
      let E := fresh "Hcall" in
      let r := fresh "r" in
      destruct m as [r|] eqn:E; [cbn [mbind result_bind] in H|discriminate H]
  end.

Lemma for_each_inv {A B : Type} (P : A → Prop) (body : A → B → result A)
    (l : list B) (a a' : A) :
  (∀ a b a', P a → body a b = Ok a' → P a') →
  P a → for_each body a l = Ok a' → P a'.
Proof.
  intros Hbody. revert a. induction l as [|b l IH]; intros a Ha Hrun.
  - by injection Hrun as <-.
  - cbn [for_each] in Hrun. bind_inv Hrun. eauto.
Qed.

Lemma paste_shape (dst src : Image) (xy : Z * Z) (mask : option Image)
    (out : Image) :
  PIL.paste dst src xy mask = Ok out →
  mode out = mode dst ∧ width out = width dst ∧ height out = height dst.
Proof.
  unfold PIL.paste. destruct (PIL.mask_fits _ _); [|done].
  by intros [= <-].
Qed.

Lemma new_shape (m : Mode) (w h : Z) (c : Pixel) (out : Image) :
  PIL.new m (w, h) c = Ok out →
  mode out = m ∧ width out = w ∧ height out = h ∧ 0 ≤ w ∧ 0 ≤ h.
Proof.
  unfold PIL.new. case_decide; [done|]. intros [= <-]. simpl.
  do 3 (split; [done|]). lia.
Qed.

Lemma interlace_vertical_canvas (frames : list Image) (W H S : Z)
    (out : Image) :
  interlace_vertical frames W H S = Ok out → canvas W H out.
Proof.
  unfold interlace_vertical. intros Hrun. bind_inv Hrun.
  apply new_shape in Hcall. revert Hrun.
  apply (for_each_inv (canvas W H)); [|done].
  intros c y c' (Hm & Hw & Hh & HW) Hbody. bind_inv Hbody.
  apply paste_shape in Hbody as (Hm' & Hw' & Hh').
  unfold canvas. by rewrite Hm', Hw', Hh'.
Qed.

Lemma interlace_horizontal_canvas (frames : list Image) (W H S : Z)
    (out : Image) :
  interlace_horizontal frames W H S = Ok out → canvas W H out.
Proof.
  unfold interlace_horizontal. intros Hrun. bind_inv Hrun.
  apply new_shape in Hcall. revert Hrun.
  apply (for_each_inv (canvas W H)); [|done].
  intros c y c' (Hm & Hw & Hh & HW) Hbody. bind_inv Hbody.
  apply paste_shape in Hbody as (Hm' & Hw' & Hh').
  unfold canvas. by rewrite Hm', Hw', Hh'.
Qed.

Lemma main_base_canvas (env : Env) (args : Args.t) (files : list string)
    (base : Image) (frames : list Image) (W H : Z) :
  main_base env args files = Ok (base, frames, W, H) → canvas W H base.
Proof.
  unfold main_base. intros Hrun. bind_inv Hrun.
  destruct r0 as [[frames' W'] H']. bind_inv Hrun.
  injection Hrun as <- <- <- <-.
  case_decide; eauto using interlace_vertical_canvas,
    interlace_horizontal_canvas.
Qed.

(** On an RGBA canvas the compositor takes its pasting branch, and every
    call of it returns. *)
Lemma composite_on_white_runs (img : Image) :
  mode img = RGBA → 0 ≤ width img → 0 ≤ height img →
  ∃ bg alpha out,
    PIL.new RGB (width img, height img) [255; 255; 255] = Ok bg ∧
    Py.index (PIL.split img) (-1) = Ok alpha ∧
    PIL.paste bg img (0, 0) (Some alpha) = Ok out ∧
    composite_on_white img = Ok out.
Proof.
  intros Hmode Hw Hh.
  set (bg := mkImage RGB (width img) (height img)
               (tabulate (width img) (height img) (λ _ _, [255; 255; 255]))).
  set (alpha := mkImage L (width img) (height img)
                  (tabulate (width img) (height img)
                     (λ x y, [chan (pixel_or_zero img x y) 3]))).
  assert (Hbg : PIL.new RGB (width img, height img) [255; 255; 255] = Ok bg)
    by (by apply new_ok).
  assert (Halpha : Py.index (PIL.split img) (-1) = Ok alpha).
  { unfold PIL.split. rewrite Hmode. cbn [bands seq fmap list_fmap].
    by rewrite index_last_of_4. }
  assert (Hpaste : ∃ out, PIL.paste bg img (0, 0) (Some alpha) = Ok out).
  { unfold PIL.paste, PIL.mask_fits.
    rewrite decide_True by (right; by rewrite Hmode).
    rewrite bool_decide_eq_true_2 by done. by eexists. }
  destruct Hpaste as [out Hpaste].
  exists bg, alpha, out. do 3 (split; [done|]).
  unfold composite_on_white. rewrite decide_False by (by intros []).
  rewrite Hbg. run_bind. rewrite Halpha. run_bind. exact Hpaste.
Qed.

Lemma saves_header (line : string) (show : string → string)
    (files : list string) (t : list event) :
  saves (Print line :: ((λ p, Print (show p)) <$> files) ++ t) = saves t.
Proof.
  rewrite saves_print, saves_app.
  rewrite (list_fmap_compose show Print). by rewrite saves_prints.
Qed.

(** What a run that passed the check on its files ends with, and what it
    has saved by then: the steps of [main] in their order, each of which
    may be the one that raises. *)
Lemma main_outcome (env : Env) (args : Args.t) (folder : string)
    (files : list string) :
  (main_collect env args).2 = Ok (folder, files) →
  match main_base env args files with
  | Raise e => (main env args).2 = Raise e ∧ saves (main env args).1 = []
  | Ok (base, frames, W, H) =>
  match main_post_pass args base with
  | Raise e => (main env args).2 = Raise e ∧ saves (main env args).1 = []
  | Ok img =>
  let out_base := path_str env (Args.out_base args) in
  match mkdir_error env (path_parent env out_base) with
  | Some e => (main env args).2 = Raise e ∧ saves (main env args).1 = []
  | None =>
  match save_error env out_base img with
  | Some e => (main env args).2 = Raise e ∧ saves (main env args).1 = []
  | None =>
  if truthy (Args.out_mask args) then
    match make_mask W H (Args.slice args) (Z.of_nat (length frames))
            (Args.direction args) with
    | Raise e =>
        (main env args).2 = Raise e ∧
        saves (main env args).1 = [(out_base, img)]
    | Ok mask =>
    let out_mask :=
      path_str env (default EmptyString (Args.out_mask args)) in
    match mkdir_error env (path_parent env out_mask) with
    | Some e =>
        (main env args).2 = Raise e ∧
        saves (main env args).1 = [(out_base, img)]
    | None =>
    match save_error env out_mask mask with
    | Some e =>
        (main env args).2 = Raise e ∧
        saves (main env args).1 = [(out_base, img)]
    | None =>
        (main env args).2 = Ok () ∧
        saves (main env args).1 = [(out_base, img); (out_mask, mask)]
    end end end
  else
    (main env args).2 = Ok () ∧
    saves (main env args).1 = [(out_base, img)]
  end end end end.
Proof.
  intros Hcollect.
  unfold main. rewrite (io_bind_ok _ _ _ Hcollect), main_collect_trace.
  cbn [fst snd app]. unfold mkdir, save, emit, emit_each, lift.
  destruct (main_base env args files) as [[[[base frames] W] H]|e].
  2:{ cbn [mbind io_bind fst snd app]. split; [done|].
      by rewrite saves_header. }
  cbn [mbind io_bind fst snd app].
  destruct (main_post_pass args base) as [img|e].
  2:{ cbn [mbind io_bind fst snd app]. split; [done|].
      by rewrite saves_header. }
  cbn [mbind io_bind fst snd app]. cbn zeta.
  destruct (mkdir_error env _) as [e|].
  { cbn [mbind io_bind fst snd app]. split; [done|].
    by rewrite saves_header. }
  cbn [mbind io_bind fst snd app].
  destruct (save_error env _ img) as [e|].
  { cbn [mbind io_bind fst snd app]. split; [done|].
    by rewrite saves_header. }
  cbn [mbind io_bind fst snd app].
  destruct (truthy (Args.out_mask args)).
  2:{ cbn [mbind io_bind mret io_ret fst snd app]. split; [done|].
      by rewrite saves_header. }
  destruct (make_mask _ _ _ _ _) as [mask|e].
  2:{ cbn [mbind io_bind fst snd app]. split; [done|].
      by rewrite saves_header. }
  cbn [mbind io_bind fst snd app].
  destruct (mkdir_error env _) as [e|].
  { cbn [mbind io_bind fst snd app]. split; [done|].
    by rewrite saves_header. }
  cbn [mbind io_bind fst snd app].
  destruct (save_error env _ mask) as [e|];
    cbn [mbind io_bind fst snd app]; (split; [done|]);
    by rewrite saves_header.
Qed.

(** ** C10: white background before forced RGB *)

(** C10. When both the white-background and the force-RGB options are
    requested, the base image the run writes is the composite of the
    interlaced canvas over white: the canvas is RGBA, so the compositor
    pastes it through its alpha band, and the plain conversion to RGB of
    the other branch is not what is saved. Whatever the run saves first is
    that composite, under the output path; and it is saved as soon as the
    file system lets the directory be made and the file be written. *)
Theorem white_bg_before_force_rgb (env : Env) (args : Args.t)
    (folder : string) (files : list string)
    (base : Image) (frames : list Image) (W H : Z) :
  Args.white_bg args = true → Args.force_rgb args = true →
  (main_collect env args).2 = Ok (folder, files) →
  main_base env args files = Ok (base, frames, W, H) →
  ∃ bg alpha img,
    mode base = RGBA ∧
    PIL.new RGB (width base, height base) [255; 255; 255] = Ok bg ∧
    Py.index (PIL.split base) (-1) = Ok alpha ∧
    PIL.paste bg base (0, 0) (Some alpha) = Ok img ∧
    main_post_pass args base = Ok img ∧
    let out_base := path_str env (Args.out_base args) in
    (∀ saved, head (saves (main env args).1) = Some saved →
       saved = (out_base, img)) ∧
    (mkdir_error env (path_parent env out_base) = None →
     save_error env out_base img = None →
     head (saves (main env args).1) = Some (out_base, img)).
Proof.
  intros Hwhite Hrgb Hcollect Hbase.
  destruct (main_base_canvas _ _ _ _ _ _ _ Hbase) as (Hm & Hw & Hh & HW & HH).
  destruct (composite_on_white_runs base) as (bg & alpha & img & Hbg & Ha
    & Hpaste & Hcomp); [done|lia..|].
  assert (Hpost : main_post_pass args base = Ok img).
  { unfold main_post_pass. by rewrite Hwhite. }
  exists bg, alpha, img. do 5 (split; [done|]).
  pose proof (main_outcome env args folder files Hcollect) as Hout.
  rewrite Hbase, Hpost in Hout. cbn zeta in *.
  assert (Hcases :
    saves (main env args).1 = [] ∨
    ∃ rest, saves (main env args).1
              = (path_str env (Args.out_base args), img) :: rest).
  { destruct (mkdir_error env _); [left; apply Hout|].
    destruct (save_error env _ img); [left; apply Hout|].
    right. destruct (truthy _).
    - destruct (make_mask _ _ _ _ _); [|eexists; apply Hout].
      destruct (mkdir_error env _); [eexists; apply Hout|].
      destruct (save_error env _ _); eexists; apply Hout.
    - eexists; apply Hout. }
  split.
  - intros saved Hsaved.
    destruct Hcases as [Hnil|[rest Hcons]].
    + by rewrite Hnil in Hsaved.
    + rewrite Hcons in Hsaved. by injection Hsaved as <-.
  - intros Hmk Hsv. rewrite Hmk, Hsv in Hout.
    destruct (truthy _).
    + destruct (make_mask _ _ _ _ _); [|by rewrite (proj2 Hout)].
      destruct (mkdir_error env _); [by rewrite (proj2 Hout)|].
      destruct (save_error env _ _); by rewrite (proj2 Hout).
    + by rewrite (proj2 Hout).
Qed.

Lemma white_bg_before_force_rgb_witness :
  let env := example_env in
  let args := example_args true true in
  let base := mkImage RGBA 2 1 [[[10; 20; 30; 0]; [40; 50; 60; 255]]] in
  let frames := [solid 2 1 [10; 20; 30; 0]; solid 2 1 [40; 50; 60; 255]] in
  (Args.white_bg args = true ∧ Args.force_rgb args = true ∧
   (main_collect env args).2 = Ok (".", ["1.png"; "2.png"]) ∧
   main_base env args ["1.png"; "2.png"] = Ok (base, frames, 2, 1)) ∧
  ∃ bg alpha img,
    mode base = RGBA ∧
    PIL.new RGB (width base, height base) [255; 255; 255] = Ok bg ∧
    Py.index (PIL.split base) (-1) = Ok alpha ∧
    PIL.paste bg base (0, 0) (Some alpha) = Ok img ∧
    main_post_pass args base = Ok img ∧
    let out_base := path_str env (Args.out_base args) in
    (∀ saved, head (saves (main env args).1) = Some saved →
       saved = (out_base, img)) ∧
    (mkdir_error env (path_parent env out_base) = None →
     save_error env out_base img = None →
     head (saves (main env args).1) = Some (out_base, img)).
Proof.
  intros env args base frames.
  assert (Hhyp : Args.white_bg args = true ∧ Args.force_rgb args = true ∧
            (main_collect env args).2 = Ok (".", ["1.png"; "2.png"]) ∧
            main_base env args ["1.png"; "2.png"] = Ok (base, frames, 2, 1)).
  { repeat split; vm_compute; reflexivity. }
  split; [exact Hhyp|].
  destruct Hhyp as (H1 & H2 & H3 & H4).
  exact (white_bg_before_force_rgb env args "." ["1.png"; "2.png"]
           base frames 2 1 H1 H2 H3 H4).
Defined.

(** The run of the example with both options: the transparent pixel is
    saved white, where the conversion to RGB alone keeps its stored
    colour. *)
Example white_bg_and_force_rgb_run :
  saves (main example_env (example_args true true)).1 =
    [("scanimation_base.png",
      mkImage RGB 2 1 [[[255; 255; 255]; [40; 50; 60]]])] ∧
  saves (main example_env (example_args false true)).1 =
    [("scanimation_base.png",
      mkImage RGB 2 1 [[[10; 20; 30]; [40; 50; 60]]])].
Proof. split; by vm_compute. Qed.

(** * Further properties *)

(** ** The horizontal interlace *)

(** X1. The horizontal interlace is the vertical one on rows: for frames of
    the unified size and S >= 1 the canvas holds at [(x, y)] the pixel of
    frame [floor(y / S) mod N] at [(x, y)]. *)
Theorem interlace_horizontal_pixel_formula (frames : list Image)
    (W H S x y : Z) :
  (1 ≤ length frames)%nat → 1 ≤ S →
  Forall (is_frame W H) frames →
  0 ≤ x < W → 0 ≤ y < H →
  ∃ out frame p,
    interlace_horizontal frames W H S = Ok out ∧
    frames !! Z.to_nat ((y `div` S) `mod` Z.of_nat (length frames))
      = Some frame ∧
    pixel_at frame x y = Some p ∧
    pixel_at out x y = Some p.
Proof.
  intros HN HS Hframes Hx Hy.
  destruct (interlace_horizontal_spec frames W H S)
    as (out & Hrun & _ & _ & _ & Hpx); [lia..|done|].
  specialize (Hpx x y Hx Hy).
  destruct (horizontal_source_valid frames W H (clamp_slice S H)
              (clamp_slice_pos S H) HN Hframes x y Hx Hy)
    as (p & Hsrc & _).
  rewrite Hsrc in Hpx. unfold horizontal_source in Hsrc.
  rewrite clamp_slice_div in Hsrc by done.
  destruct (frames !! _) as [frame|] eqn:Hframe; [|done].
  by exists out, frame, p.
Qed.

Lemma interlace_horizontal_pixel_formula_witness :
  let frames := [solid 2 4 red; solid 2 4 green; solid 2 4 blue] in
  ((1 ≤ length frames)%nat ∧ 1 ≤ 1 ∧ Forall (is_frame 2 4) frames ∧
   0 ≤ 1 < 2 ∧ 0 ≤ 3 < 4) ∧
  ∃ out frame p,
    interlace_horizontal frames 2 4 1 = Ok out ∧
    frames !! Z.to_nat ((3 `div` 1) `mod` Z.of_nat (length frames))
      = Some frame ∧
    pixel_at frame 1 3 = Some p ∧
    pixel_at out 1 3 = Some p.
Proof.
  intros frames.
  assert (Hhyp : (1 ≤ length frames)%nat ∧ 1 ≤ 1 ∧
                 Forall (is_frame 2 4) frames ∧ 0 ≤ 1 < 2 ∧ 0 ≤ 3 < 4).
  { apply (bool_decide_unpack _). vm_compute. exact I. }
  split; [exact Hhyp|].
  destruct Hhyp as (H1 & H2 & H3 & H4 & H5).
  exact (interlace_horizontal_pixel_formula frames 2 4 1 1 3
           H1 H2 H3 H4 H5).
Defined.

(** ** No frames *)

(** X2. With an empty frame list the frame index cannot be computed: as
    soon as there is a first stripe, either interlace raises
    [ZeroDivisionError]. *)
Theorem interlace_no_frames (W H S : Z) :
  1 ≤ W → 1 ≤ H →
  interlace_vertical [] W H S = Raise ZeroDivisionError ∧
  interlace_horizontal [] W H S = Raise ZeroDivisionError.
Proof.
  intros HW HH. split.
  - unfold interlace_vertical.
    pose proof (clamp_slice_pos S W) as Hs.
    rewrite new_ok by lia. run_bind. rewrite range_ok by done. run_bind.
    unfold Py.range_length. rewrite decide_True by lia.
    assert (0 ≤ (W - 0 - 1) `div` clamp_slice S W) by (apply Z.div_pos; lia).
    rewrite seqZ_cons by lia. cbn [fmap list_fmap for_each].
    unfold vertical_stripe, Py.floordiv, Py.mod_.
    rewrite (decide_False (P := clamp_slice S W = 0)) by lia. run_bind.
    done.
  - unfold interlace_horizontal.
    pose proof (clamp_slice_pos S H) as Hs.
    rewrite new_ok by lia. run_bind. rewrite range_ok by done. run_bind.
    unfold Py.range_length. rewrite decide_True by lia.
    assert (0 ≤ (H - 0 - 1) `div` clamp_slice S H) by (apply Z.div_pos; lia).
    rewrite seqZ_cons by lia. cbn [fmap list_fmap for_each].
    unfold horizontal_stripe, Py.floordiv, Py.mod_.
    rewrite (decide_False (P := clamp_slice S H = 0)) by lia. run_bind.
    done.
Qed.

Lemma interlace_no_frames_witness :
  (1 ≤ 4 ∧ 1 ≤ 2) ∧
  interlace_vertical [] 4 2 1 = Raise ZeroDivisionError ∧
  interlace_horizontal [] 4 2 1 = Raise ZeroDivisionError.
Proof.
  assert (Hhyp : 1 ≤ 4 ∧ 1 ≤ 2).
  { apply (bool_decide_unpack _). vm_compute. exact I. }
  split; [exact Hhyp|].
  destruct Hhyp as (H1 & H2).
  exact (interlace_no_frames 4 2 1 H1 H2).
Defined.

(** X3. A mask for zero frames is never made: with frame count 0
    [make_mask] raises, whatever the other arguments. When the opaque
    mask is allocated and the slit is no larger than it, the exception is
    the [ValueError] of [range], whose step, the period, is 0. *)
Theorem make_mask_no_frames (W H S : Z) (direction : string) :
  (∃ e, make_mask W H S 0 direction = Raise e) ∧
  (∀ mask0, PIL.new RGBA (W, H) bar_pixel = Ok mask0 →
     slit_within W H S direction →
     make_mask W H S 0 direction = Raise ValueError).
Proof.
  assert (Hrange : ∀ stop, Py.range 0 stop (Z.max 1 S * 0)
                           = Raise ValueError).
  { intros stop. unfold Py.range. rewrite decide_True; [done|lia]. }
  split.
  - unfold make_mask.
    destruct (PIL.new RGBA (W, H) _) as [mask|e]; [|by exists e]. run_bind.
    case_decide;
      (destruct (PIL.new_sized _ _ _ _) as [slit|e]; [|by exists e]);
      run_bind; rewrite Hrange; by eexists.
  - intros mask0 Hnew Hslit. unfold make_mask.
    change [0; 0; 0; 255] with bar_pixel. rewrite Hnew. run_bind.
    apply new_shape in Hnew as (_ & _ & _ & HW & HH).
    unfold slit_within in Hslit.
    case_decide; rewrite new_sized_ok by lia; run_bind; by rewrite Hrange.
Qed.

Lemma make_mask_no_frames_witness :
  (∃ e, make_mask 4 2 2 0 "vertical" = Raise e) ∧
  make_mask 4 2 2 0 "vertical" = Raise ValueError.
Proof.
  assert (Hhyp : PIL.new RGBA (4, 2) bar_pixel = Ok (solid 4 2 bar_pixel) ∧
                 slit_within 4 2 2 "vertical").
  { split; [reflexivity|]. apply (bool_decide_unpack _). vm_compute. exact I. }
  destruct Hhyp as (H1 & H2).
  split.
  - exact (proj1 (make_mask_no_frames 4 2 2 "vertical")).
  - exact (proj2 (make_mask_no_frames 4 2 2 "vertical") _ H1 H2).
Defined.

(** ** The horizontal mask *)

Section MaskRows.

Variables (W H s N : Z).
Hypothesis Hs : 1 ≤ s.
Hypothesis HN : 1 ≤ N.
Hypothesis HW : 0 ≤ W.

Local Abbreviation period := (s * N).

Let slit : Image := mkImage RGBA W s (tabulate W s (λ _ _, [0; 0; 0; 0])).

Let mask_pixel (k y : Z) : Pixel :=
  if decide (y < k * period ∧ y `mod` period < s) then [0; 0; 0; 0]
  else [0; 0; 0; 255].

Let mask_upto (k : Z) (mask : Image) : Prop :=
  mode mask = RGBA ∧ width mask = W ∧ height mask = H ∧
  ∀ x y, 0 ≤ x < W → 0 ≤ y < H → pixel_at mask x y = Some (mask_pixel k y).

Lemma mask_rows_step (k : Z) (mask : Image) :
  0 ≤ k → mask_upto k mask →
  ∃ mask', PIL.paste mask slit (0, 0 + k * period) None = Ok mask' ∧
           mask_upto (k + 1) mask'.
Proof using Hs HN HW.
  intros Hk (Hm & Hw & Hh & Hpx).
  rewrite paste_plain by done.
  eexists. split; [done|]. do 3 (split; [done|]).
  intros x y Hx Hy. rewrite Hw, Hh.
  rewrite pixel_at_tabulate by lia. f_equal.
  case_decide as Hbox; simpl in Hbox.
  - unfold pixel_or_zero. cbn [fst snd].
    unfold slit. rewrite pixel_at_tabulate by lia. rewrite Hm. simpl.
    unfold mask_pixel. rewrite decide_True; [done|].
    rewrite (mod_in_period s N Hs HN k) by nia. nia.
  - unfold pixel_or_zero. rewrite Hpx by lia. simpl.
    unfold mask_pixel.
    destruct (decide (y < k * period)) as [Hlt|Hge].
    + destruct (decide (y `mod` period < s)).
      * rewrite !decide_True by nia. done.
      * rewrite !decide_False by tauto. done.
    + rewrite (decide_False (P := y < k * period ∧ _)) by tauto.
      rewrite decide_False; [done|]. intros [Hlt Hmod].
      rewrite (mod_in_period s N Hs HN k) in Hmod by lia. lia.
Qed.

Lemma mask_rows_loop (m : nat) (k : Z) (mask : Image) :
  0 ≤ k → mask_upto k mask →
  ∃ mask',
    for_each (λ mask y, PIL.paste mask slit (0, y) None) mask
      ((λ i, 0 + i * period) <$> seqZ k (Z.of_nat m)) = Ok mask' ∧
    mask_upto (k + Z.of_nat m) mask'.
Proof using Hs HN HW.
  revert k mask. induction m as [|m IH]; intros k mask Hk Hinv.
  - exists mask. rewrite seqZ_nil by lia.
    split; [done|]. by rewrite Z.add_0_r.
  - rewrite seqZ_cons by lia. cbn [fmap list_fmap for_each].
    destruct (mask_rows_step k mask Hk Hinv) as (mask1 & -> & Hinv1).
    run_bind.
    replace (Z.pred (Z.of_nat (S m))) with (Z.of_nat m) by lia.
    destruct (IH (Z.succ k) mask1) as (mask' & Hrun & Hinv'); [lia|done|].
    exists mask'. split; [done|].
    by replace (k + Z.of_nat (S m)) with (Z.succ k + Z.of_nat m) by lia.
Qed.

End MaskRows.

Lemma make_mask_horizontal_spec (W H S N : Z) (direction : string) :
  direction ≠ "vertical" → 0 ≤ W → 0 ≤ H → 1 ≤ N → slit_in_range W H S →
  ∃ mask,
    make_mask W H S N direction = Ok mask ∧
    mode mask = RGBA ∧ width mask = W ∧ height mask = H ∧
    ∀ x y, 0 ≤ x < W → 0 ≤ y < H →
      pixel_at mask x y =
        Some (if decide (y `mod` (Z.max 1 S * N) < Z.max 1 S)
              then [0; 0; 0; 0] else [0; 0; 0; 255]).
Proof.
  intros Hdir HW HH HN Hslit. unfold make_mask.
  unfold slit_in_range in Hslit.
  assert (Hs : 1 ≤ Z.max 1 S) by lia.
  assert (HP : 1 ≤ Z.max 1 S * N) by nia.
  rewrite (new_ok RGBA W H) by done. run_bind.
  rewrite decide_False by done.
  rewrite new_sized_ok by lia. run_bind.
  rewrite range_ok by done. run_bind.
  destruct (range_length_bounds H (Z.max 1 S * N) HP) as (Hn0 & Hlt & Hge).
  rewrite <- (Z2Nat.id (Py.range_length 0 H (Z.max 1 S * N))) by done.
  edestruct (mask_rows_loop W H (Z.max 1 S) N Hs HN HW
               (Z.to_nat (Py.range_length 0 H (Z.max 1 S * N))) 0
               (mkImage RGBA W H (tabulate W H (λ _ _, [0; 0; 0; 255]))))
    as (mask & Hrun & Hm & Hw & Hh & Hpx); [done| |].
  - do 3 (split; [done|]). intros x y Hx Hy.
    rewrite pixel_at_tabulate by done. f_equal.
    rewrite decide_False; [done|]. lia.
  - exists mask. split; [exact Hrun|]. do 3 (split; [done|]).
    intros x y Hx Hy. rewrite Hpx by done. f_equal.
    rewrite Z2Nat.id by done.
    destruct (decide (y `mod` (Z.max 1 S * N) < Z.max 1 S)).
    + rewrite decide_True; [done|]. split; [lia|done].
    + rewrite decide_False; [done|]. tauto.
Qed.

(** What the pixels of a mask are, in either direction: the slits lie
    across the columns of a vertical mask and across the rows of any
    other. *)
Lemma make_mask_pixels (W H S N : Z) (direction : string) :
  0 ≤ W → 0 ≤ H → 1 ≤ N → slit_in_range W H S →
  ∃ mask,
    make_mask W H S N direction = Ok mask ∧
    mode mask = RGBA ∧ width mask = W ∧ height mask = H ∧
    ∀ x y, 0 ≤ x < W → 0 ≤ y < H →
      pixel_at mask x y =
        Some (if decide
                   ((if decide (direction = "vertical") then x else y)
                      `mod` (Z.max 1 S * N) < Z.max 1 S)
              then slit_pixel else bar_pixel).
Proof.
  intros HW HH HN Hslit.
  destruct (decide (direction = "vertical")) as [->|Hdir].
  - destruct (make_mask_vertical_spec W H S N HW HH HN Hslit)
      as (mask & Hrun & Hm & Hw & Hh & Hpx).
    by exists mask.
  - destruct (make_mask_horizontal_spec W H S N direction Hdir HW HH HN Hslit)
      as (mask & Hrun & Hm & Hw & Hh & Hpx).
    by exists mask.
Qed.

(** The same of a mask that was returned. *)
Lemma make_mask_returned (W H S N : Z) (direction : string) (mask : Image) :
  1 ≤ N → make_mask W H S N direction = Ok mask →
  mode mask = RGBA ∧ width mask = W ∧ height mask = H ∧ 0 ≤ W ∧ 0 ≤ H ∧
  ∀ x y, 0 ≤ x < W → 0 ≤ y < H →
    pixel_at mask x y =
      Some (if decide
                 ((if decide (direction = "vertical") then x else y)
                    `mod` (Z.max 1 S * N) < Z.max 1 S)
            then slit_pixel else bar_pixel).
Proof.
  intros HN Hrun.
  destruct (make_mask_inv _ _ _ _ _ _ Hrun) as (HW & HH & Hslit).
  destruct (make_mask_pixels W H S N direction HW HH HN Hslit)
    as (mask' & Hrun' & Hm & Hw & Hh & Hpx).
  rewrite Hrun in Hrun'. injection Hrun' as <-. done.
Qed.

(** X4. In the horizontal direction (any direction string other than
    [vertical]) a mask that is returned has a transparent slit on the rows
    [y] with [y mod (s * N) < s], [s = max(1, S)], over the full width, and
    is opaque black on every other row. It is returned at least when the
    slit is no higher than the mask. *)
Theorem make_mask_horizontal_rows (W H S N x y : Z) (direction : string) :
  direction ≠ "vertical" → 1 ≤ N → 0 ≤ x < W → 0 ≤ y < H →
  (∀ mask, make_mask W H S N direction = Ok mask →
     (y `mod` (Z.max 1 S * N) < Z.max 1 S →
        pixel_at mask x y = Some slit_pixel) ∧
     (Z.max 1 S ≤ y `mod` (Z.max 1 S * N) →
        pixel_at mask x y = Some bar_pixel)) ∧
  (S ≤ H → ∃ mask, make_mask W H S N direction = Ok mask).
Proof.
  intros Hdir HN Hx Hy. split.
  - intros mask Hrun.
    destruct (make_mask_returned _ _ _ _ _ _ HN Hrun)
      as (_ & _ & _ & _ & _ & Hpx).
    rewrite Hpx by done. rewrite (decide_False (P := direction = _)) by done.
    split; intros Hmod.
    + by rewrite decide_True.
    + by rewrite decide_False by lia.
  - intros HSH.
    destruct (make_mask_pixels W H S N direction) as (mask & Hrun & _);
      [lia..|unfold slit_in_range; lia|].
    by exists mask.
Qed.

Lemma make_mask_horizontal_rows_witness :
  ("horizontal" ≠ "vertical" ∧ 1 ≤ 3 ∧ 0 ≤ 1 < 2 ∧ 0 ≤ 7 < 12) ∧
  (∀ mask, make_mask 2 12 2 3 "horizontal" = Ok mask →
     (7 `mod` (Z.max 1 2 * 3) < Z.max 1 2 →
        pixel_at mask 1 7 = Some slit_pixel) ∧
     (Z.max 1 2 ≤ 7 `mod` (Z.max 1 2 * 3) →
        pixel_at mask 1 7 = Some bar_pixel)) ∧
  (2 ≤ 12 → ∃ mask, make_mask 2 12 2 3 "horizontal" = Ok mask).
Proof.
  assert (Hhyp : "horizontal" ≠ "vertical" ∧ 1 ≤ 3 ∧ 0 ≤ 1 < 2 ∧ 0 ≤ 7 < 12).
  { apply (bool_decide_unpack _). vm_compute. exact I. }
  split; [exact Hhyp|].
  destruct Hhyp as (H1 & H2 & H3 & H4).
  exact (make_mask_horizontal_rows 2 12 2 3 1 7 "horizontal" H1 H2 H3 H4).
Defined.

(** X5. A mask is made of two pixels only: whatever the direction, a mask
    that is returned is an RGBA image of the size asked for, and every
    pixel of it is fully transparent black or fully opaque black. A mask
    is returned at least when the slit is no larger than it. *)
Theorem make_mask_two_pixels (W H S N : Z) (direction : string) :
  1 ≤ N →
  (∀ mask, make_mask W H S N direction = Ok mask →
     mode mask = RGBA ∧ width mask = W ∧ height mask = H ∧
     ∀ x y p, pixel_at mask x y = Some p → p = slit_pixel ∨ p = bar_pixel) ∧
  (0 ≤ W → 0 ≤ H → slit_within W H S direction →
     ∃ mask, make_mask W H S N direction = Ok mask).
Proof.
  intros HN. split.
  - intros mask Hrun.
    destruct (make_mask_returned _ _ _ _ _ _ HN Hrun)
      as (Hm & Hw & Hh & _ & _ & Hpx).
    do 3 (split; [done|]). intros x y p Hp.
    assert (Hin : 0 ≤ x < width mask ∧ 0 ≤ y < height mask).
    { destruct (decide (0 ≤ x < width mask ∧ 0 ≤ y < height mask)); [done|].
      by rewrite pixel_at_outside in Hp. }
    rewrite Hpx in Hp by lia. injection Hp as <-.
    destruct (decide (_ `mod` _ < _)); [by left|by right].
  - intros HW HH Hslit.
    destruct (make_mask_pixels W H S N direction) as (mask & Hrun & _);
      [done..|by eapply slit_within_in_range|].
    by exists mask.
Qed.

Lemma make_mask_two_pixels_witness :
  1 ≤ 3 ∧
  (∀ mask, make_mask 12 2 2 3 "vertical" = Ok mask →
     mode mask = RGBA ∧ width mask = 12 ∧ height mask = 2 ∧
     ∀ x y p, pixel_at mask x y = Some p → p = slit_pixel ∨ p = bar_pixel) ∧
  (0 ≤ 12 → 0 ≤ 2 → slit_within 12 2 2 "vertical" →
     ∃ mask, make_mask 12 2 2 3 "vertical" = Ok mask).
Proof.
  assert (Hhyp : 1 ≤ 3).
  { apply (bool_decide_unpack _). vm_compute. exact I. }
  split; [exact Hhyp|].
  exact (make_mask_two_pixels 12 2 2 3 "vertical" Hhyp).
Defined.

(** X6. For a single frame the period is the slit itself: a mask that is
    returned is transparent all over, in either direction. *)
Theorem make_mask_single_frame (W H S x y : Z) (direction : string) :
  0 ≤ x < W → 0 ≤ y < H →
  (∀ mask, make_mask W H S 1 direction = Ok mask →
     pixel_at mask x y = Some slit_pixel) ∧
  (slit_within W H S direction →
     ∃ mask, make_mask W H S 1 direction = Ok mask).
Proof.
  intros Hx Hy. split.
  - intros mask Hrun.
    destruct (make_mask_returned W H S 1 direction mask ltac:(lia) Hrun)
      as (_ & _ & _ & _ & _ & Hpx).
    rewrite Hpx by done.
    rewrite decide_True; [done|]. rewrite Z.mul_1_r.
    apply Z.mod_pos_bound. lia.
  - intros Hslit.
    destruct (make_mask_pixels W H S 1 direction) as (mask & Hrun & _);
      [lia..|by eapply slit_within_in_range|].
    by exists mask.
Qed.

Lemma make_mask_single_frame_witness :
  (0 ≤ 3 < 4 ∧ 0 ≤ 1 < 2) ∧
  (∀ mask, make_mask 4 2 2 1 "vertical" = Ok mask →
     pixel_at mask 3 1 = Some slit_pixel) ∧
  (slit_within 4 2 2 "vertical" →
     ∃ mask, make_mask 4 2 2 1 "vertical" = Ok mask).
Proof.
  assert (Hhyp : 0 ≤ 3 < 4 ∧ 0 ≤ 1 < 2).
  { apply (bool_decide_unpack _). vm_compute. exact I. }
  split; [exact Hhyp|].
  destruct Hhyp as (H1 & H2).
  exact (make_mask_single_frame 4 2 2 3 1 "vertical" H1 H2).
Defined.

(** ** A slit the library cannot hold *)

(** X27. The slit is allocated with the slice the caller gave, not
    clamped to the mask: once the opaque mask, of a size the library can
    hold, is allocated, a slice beyond the range of a C [int] makes
    [make_mask] raise [OverflowError], whatever the frame count and the
    direction. *)
Theorem make_mask_slice_overflow (W H S N : Z) (direction : string)
    (mask0 : Image) :
  PIL.new RGBA (W, H) bar_pixel = Ok mask0 →
  W ≤ PIL.c_int_max → H ≤ PIL.c_int_max → PIL.c_int_max < S →
  make_mask W H S N direction = Raise OverflowError.
Proof.
  intros Hnew HW HH HS. unfold make_mask.
  change [0; 0; 0; 255] with bar_pixel. rewrite Hnew. run_bind.
  apply new_shape in Hnew as (_ & _ & _ & HW0 & HH0).
  unfold PIL.new_sized.
  case_decide.
  - rewrite (decide_False (P := Z.max 1 S < 0 ∨ H < 0)) by lia.
    by rewrite decide_True by lia.
  - rewrite (decide_False (P := W < 0 ∨ Z.max 1 S < 0)) by lia.
    by rewrite decide_True by lia.
Qed.

Lemma make_mask_slice_overflow_witness :
  (PIL.new RGBA (4, 2) bar_pixel = Ok (solid 4 2 bar_pixel) ∧
   4 ≤ PIL.c_int_max ∧ 2 ≤ PIL.c_int_max ∧ PIL.c_int_max < 2147483648) ∧
  make_mask 4 2 2147483648 3 "vertical" = Raise OverflowError.
Proof.
  assert (Hhyp : PIL.new RGBA (4, 2) bar_pixel = Ok (solid 4 2 bar_pixel) ∧
                 4 ≤ PIL.c_int_max ∧ 2 ≤ PIL.c_int_max ∧
                 PIL.c_int_max < 2147483648).
  { split; [reflexivity|]. apply (bool_decide_unpack _). vm_compute. exact I. }
  split; [exact Hhyp|].
  destruct Hhyp as (H1 & H2 & H3 & H4).
  exact (make_mask_slice_overflow 4 2 2147483648 3 "vertical" _ H1 H2 H3 H4).
Defined.

(** The slit is allocated before [range] is called: with such a slice the
    error is the same for frame count 0. *)
Example make_mask_overflow_before_range :
  make_mask 4 2 2147483648 0 "vertical" = Raise OverflowError.
Proof. by vm_compute. Qed.

(** ** Sliding the mask over the base *)

Lemma mod_shift_iff (q j N : Z) :
  0 ≤ j < N → (q + j) `mod` N = j ↔ q `mod` N = 0.
Proof.
  intros Hj.
  pose proof (Z.mod_pos_bound q N ltac:(lia)) as Hr.
  pose proof (Z.div_mod q N ltac:(lia)) as Hq.
  replace (q + j) with (q `mod` N + j + q `div` N * N) by lia.
  rewrite Z_mod_plus_full.
  destruct (decide (q `mod` N + j < N)) as [Hlt|Hge].
  - rewrite Z.mod_small by lia. lia.
  - rewrite <- (Z.mod_unique_pos (q `mod` N + j) N 1 (q `mod` N + j - N))
      by lia.
    lia.
Qed.

Lemma clamp_slice_fits (S W : Z) : 1 ≤ S ≤ W → clamp_slice S W = S.
Proof. unfold clamp_slice. lia. Qed.

(** X7. Slid to the right by [j] stripes, the mask shows frame [j]: for a
    slice that fits the width, column [c] of the mask is a slit if and
    only if [interlace_vertical] cuts the column [c + j * S] of the base
    that then lies under it from frame [j]. *)
Theorem mask_shift_reveals_frame (W H S N c j : Z) :
  1 ≤ H → 1 ≤ S ≤ W → 0 ≤ j < N → 0 ≤ c → c + j * S < W →
  ∃ mask,
    make_mask W H S N "vertical" = Ok mask ∧
    (column_transparent mask c ↔ column_cut_from N W H S (c + j * S) j).
Proof.
  intros HH HS Hj Hc HcW.
  destruct (make_mask_columns W H S N) as (mask & Hrun & Hcols);
    [lia..|unfold slit_in_range; lia|].
  exists mask. split; [done|].
  rewrite (proj1 (Hcols c ltac:(nia))).
  rewrite column_cut_from_iff by nia.
  rewrite (slit_iff_frame_0 S W N c) by nia.
  rewrite clamp_slice_fits by done.
  rewrite Z.div_add by lia.
  by rewrite (mod_shift_iff (c `div` S) j N Hj).
Qed.

Lemma mask_shift_reveals_frame_witness :
  (1 ≤ 2 ∧ 1 ≤ 2 ≤ 12 ∧ 0 ≤ 2 < 3 ∧ 0 ≤ 6 ∧ 6 + 2 * 2 < 12) ∧
  ∃ mask,
    make_mask 12 2 2 3 "vertical" = Ok mask ∧
    (column_transparent mask 6 ↔ column_cut_from 3 12 2 2 (6 + 2 * 2) 2).
Proof.
  assert (Hhyp : 1 ≤ 2 ∧ 1 ≤ 2 ≤ 12 ∧ 0 ≤ 2 < 3 ∧ 0 ≤ 6 ∧ 6 + 2 * 2 < 12).
  { apply (bool_decide_unpack _). vm_compute. exact I. }
  split; [exact Hhyp|].
  destruct Hhyp as (H1 & H2 & H3 & H4 & H5).
  exact (mask_shift_reveals_frame 12 2 2 3 6 2 H1 H2 H3 H4 H5).
Defined.

(** ** The cycle of the frames *)

(** X8. The cutting of columns from frames repeats with period [S * N]:
    in the canvas [interlace_vertical] returns, a column and the column
    [S * N] further right are both taken from the same frame, the one
    numbered [floor(x / S) mod N]. *)
Theorem stripe_assignment_periodic (frames : list Image) (W H S x : Z) :
  let N := Z.of_nat (length frames) in
  (1 ≤ length frames)%nat → Forall (is_frame W H) frames →
  1 ≤ S → 0 ≤ x → x + S * N < W →
  ∃ base frame,
    interlace_vertical frames W H S = Ok base ∧
    frames !! Z.to_nat ((x `div` S) `mod` N) = Some frame ∧
    ∀ y, 0 ≤ y < H →
      pixel_at base x y = pixel_at frame x y ∧
      pixel_at base (x + S * N) y = pixel_at frame (x + S * N) y.
Proof.
  intros N Hne Hframes HS Hx HxW.
  assert (HWH : 0 ≤ W ∧ 0 ≤ H).
  { destruct frames as [|f frames']; [simpl in Hne; lia|].
    apply Forall_cons_1 in Hframes as [(_ & <- & <- & (Hw & Hh & _) & _) _].
    done. }
  destruct HWH as [HW HH].
  destruct (interlace_vertical_spec frames W H S Hne HW HH Hframes)
    as (base & Hrun & _ & _ & _ & Hpx).
  rewrite clamp_slice_fits in Hpx by nia.
  destruct (frame_of_column frames W H S HS Hne Hframes x Hx)
    as (frame & Hf & _).
  exists base, frame. do 2 (split; [done|]).
  assert (Hsame : ((x + S * N) `div` S) `mod` N = (x `div` S) `mod` N).
  { replace (x + S * N) with (x + N * S) by lia.
    rewrite Z.div_add by lia.
    replace (x `div` S + N) with (x `div` S + 1 * N) by lia.
    by rewrite Z_mod_plus_full. }
  intros y Hy. rewrite !Hpx by nia. unfold vertical_source.
  fold N. rewrite Hsame. subst N. by rewrite Hf.
Qed.

Lemma stripe_assignment_periodic_witness :
  let frames := [solid 12 2 red; solid 12 2 green; solid 12 2 blue] in
  ((1 ≤ length frames)%nat ∧ Forall (is_frame 12 2) frames ∧
   1 ≤ 2 ∧ 0 ≤ 3 ∧ 3 + 2 * Z.of_nat (length frames) < 12) ∧
  ∃ base frame,
    interlace_vertical frames 12 2 2 = Ok base ∧
    frames !! Z.to_nat ((3 `div` 2) `mod` Z.of_nat (length frames))
      = Some frame ∧
    ∀ y, 0 ≤ y < 2 →
      pixel_at base 3 y = pixel_at frame 3 y ∧
      pixel_at base (3 + 2 * Z.of_nat (length frames)) y
        = pixel_at frame (3 + 2 * Z.of_nat (length frames)) y.
Proof.
  intros frames.
  assert (Hhyp : (1 ≤ length frames)%nat ∧ Forall (is_frame 12 2) frames ∧
                 1 ≤ 2 ∧ 0 ≤ 3 ∧ 3 + 2 * Z.of_nat (length frames) < 12).
  { apply (bool_decide_unpack _). vm_compute. exact I. }
  split; [exact Hhyp|].
  destruct Hhyp as (H1 & H2 & H3 & H4 & H5).
  exact (stripe_assignment_periodic frames 12 2 2 3 H1 H2 H3 H4 H5).
Defined.

(** X9. Which frames make it into the base: for a slice that fits the
    width, [interlace_vertical] cuts some column of its canvas from frame
    [k] if and only if [k * S < W]. Frames beyond the width are left out
    without an error: the interlace returns all the same. *)
Theorem frame_appears_iff (N W H S k : Z) :
  1 ≤ H → 1 ≤ S ≤ W → 0 ≤ k < N →
  ((∃ x, 0 ≤ x < W ∧ column_cut_from N W H S x k) ↔ k * S < W) ∧
  (∀ frames : list Image,
     Z.of_nat (length frames) = N → Forall (is_frame W H) frames →
     ∃ base, interlace_vertical frames W H S = Ok base).
Proof.
  intros HH HS Hk.
  pose proof (clamp_slice_fits S W HS) as Hclamp.
  split; [split|].
  - intros (x & Hx & Hcut). rewrite column_cut_from_iff in Hcut by lia.
    rewrite Hclamp in Hcut.
    assert (0 ≤ x `div` S) by (apply Z.div_pos; lia).
    pose proof (Z.mod_le (x `div` S) N ltac:(lia) ltac:(lia)) as Hle.
    pose proof (Z.mul_div_le x S ltac:(lia)) as Hmul. nia.
  - intros HkW. exists (k * S). split; [nia|].
    rewrite column_cut_from_iff by nia. rewrite Hclamp.
    rewrite Z.div_mul by lia. by rewrite Z.mod_small by lia.
  - intros frames Hlen Hframes.
    destruct (interlace_vertical_spec frames W H S)
      as (base & Hrun & _); [lia..|done|].
    by exists base.
Qed.

Lemma frame_appears_iff_witness :
  (1 ≤ 2 ∧ 1 ≤ 2 ≤ 4 ∧ 0 ≤ 2 < 3) ∧
  ((∃ x, 0 ≤ x < 4 ∧ column_cut_from 3 4 2 2 x 2) ↔ 2 * 2 < 4) ∧
  (∀ frames : list Image,
     Z.of_nat (length frames) = 3 → Forall (is_frame 4 2) frames →
     ∃ base, interlace_vertical frames 4 2 2 = Ok base).
Proof.
  assert (Hhyp : 1 ≤ 2 ∧ 1 ≤ 2 ≤ 4 ∧ 0 ≤ 2 < 3).
  { apply (bool_decide_unpack _). vm_compute. exact I. }
  split; [exact Hhyp|].
  destruct Hhyp as (H1 & H2 & H3).
  exact (frame_appears_iff 3 4 2 2 2 H1 H2 H3).
Defined.

(** ** The base is a frame again *)

Lemma zero_pixel_valid (m : Mode) : valid_pixel m (zero_pixel m).
Proof.
  unfold zero_pixel. split; [by rewrite length_replicate|].
  apply Forall_replicate. lia.
Qed.

Lemma pixel_or_zero_valid (im : Image) (x y : Z) :
  valid_image im → valid_pixel (mode im) (pixel_or_zero im x y).
Proof.
  intros Hv. unfold pixel_or_zero.
  destruct (decide (0 ≤ x < width im ∧ 0 ≤ y < height im)) as [[Hx Hy]|Hout].
  - by destruct (pixel_at_valid im x y Hv Hx Hy) as (p & -> & Hp).
  - rewrite pixel_at_outside by done. apply zero_pixel_valid.
Qed.

Lemma crop_valid (im : Image) (box : Z * Z * Z * Z) (c : Image) :
  valid_image im → PIL.crop im box = Ok c →
  valid_image c ∧ mode c = mode im.
Proof.
  intros Hv. destruct box as [[[x0 y0] x1] y1]. unfold PIL.crop.
  case_decide as Hbox; [done|]. intros [= <-]. split; [|done].
  apply valid_tabulate; [lia..|]. intros x y _ _.
  by apply pixel_or_zero_valid.
Qed.

Lemma paste_plain_valid (dst src : Image) (xy : Z * Z) (out : Image) :
  valid_image dst → valid_image src → mode dst = mode src →
  PIL.paste dst src xy None = Ok out → valid_image out.
Proof.
  intros Hd Hs Hm. rewrite paste_plain by done. intros [= <-].
  pose proof Hd as [(Hw & Hh & _) _].
  apply valid_tabulate; [done..|]. intros x y _ _.
  case_decide.
  - rewrite Hm. pose proof (pixel_or_zero_valid src (x - xy.1) (y - xy.2) Hs)
      as [Hlen Hrange].
    rewrite take_ge by lia. done.
  - by apply pixel_or_zero_valid.
Qed.

Lemma index_elem_of {A : Type} (l : list A) (i : Z) (a : A) :
  Py.index l i = Ok a → a ∈ l.
Proof.
  unfold Py.index. case_decide; [|done].
  destruct (l !! _) as [b|] eqn:Hl; [|done].
  intros [= <-]. by eapply list_elem_of_lookup_2.
Qed.

Lemma new_valid (m : Mode) (w h : Z) (c : Pixel) (out : Image) :
  valid_pixel m c → PIL.new m (w, h) c = Ok out → valid_image out.
Proof.
  intros Hc. unfold PIL.new. case_decide; [done|]. intros [= <-].
  apply valid_tabulate; [lia..|done].
Qed.

Lemma interlace_vertical_valid (frames : list Image) (W H S : Z)
    (out : Image) :
  Forall (λ f, mode f = RGBA ∧ valid_image f) frames →
  interlace_vertical frames W H S = Ok out → valid_image out.
Proof.
  intros Hframes. unfold interlace_vertical. intros Hrun. bind_inv Hrun.
  pose proof (new_shape _ _ _ _ _ Hcall) as (Hm & _).
  apply new_valid in Hcall; [|by vm_compute; repeat constructor].
  enough (mode out = RGBA ∧ valid_image out) as [_ ?]; [done|].
  revert Hrun. apply (for_each_inv (λ im, mode im = RGBA ∧ valid_image im));
    [|done].
  intros c x c' [Hcm Hcv] Hbody. bind_inv Hbody.
  apply index_elem_of in Hcall2.
  rewrite Forall_forall in Hframes.
  destruct (Hframes _ Hcall2) as [Hfm Hfv].
  destruct (crop_valid _ _ _ Hfv Hcall3) as [Hrv Hrm].
  pose proof (paste_shape _ _ _ _ _ Hbody) as (Hm' & _).
  split; [congruence|].
  eapply paste_plain_valid; [exact Hcv|exact Hrv|congruence|exact Hbody].
Qed.

Lemma interlace_horizontal_valid (frames : list Image) (W H S : Z)
    (out : Image) :
  Forall (λ f, mode f = RGBA ∧ valid_image f) frames →
  interlace_horizontal frames W H S = Ok out → valid_image out.
Proof.
  intros Hframes. unfold interlace_horizontal. intros Hrun. bind_inv Hrun.
  pose proof (new_shape _ _ _ _ _ Hcall) as (Hm & _).
  apply new_valid in Hcall; [|by vm_compute; repeat constructor].
  enough (mode out = RGBA ∧ valid_image out) as [_ ?]; [done|].
  revert Hrun. apply (for_each_inv (λ im, mode im = RGBA ∧ valid_image im));
    [|done].
  intros c x c' [Hcm Hcv] Hbody. bind_inv Hbody.
  apply index_elem_of in Hcall2.
  rewrite Forall_forall in Hframes.
  destruct (Hframes _ Hcall2) as [Hfm Hfv].
  destruct (crop_valid _ _ _ Hfv Hcall3) as [Hrv Hrm].
  pose proof (paste_shape _ _ _ _ _ Hbody) as (Hm' & _).
  split; [congruence|].
  eapply paste_plain_valid; [exact Hcv|exact Hrv|congruence|exact Hbody].
Qed.

Lemma is_frame_weaken (W H : Z) (frames : list Image) :
  Forall (is_frame W H) frames →
  Forall (λ f, mode f = RGBA ∧ valid_image f) frames.
Proof.
  intros Hf. eapply Forall_impl; [exact Hf|]. by intros f (? & _ & _ & ?).
Qed.

(** X10. The base is a frame again: for frames of the unified size, either
    interlace returns a well-formed RGBA image of that same size, every
    band of every pixel an 8-bit value, so that it can be interlaced,
    composited or saved like any frame. *)
Theorem interlace_is_frame (frames : list Image) (W H S : Z) :
  (1 ≤ length frames)%nat → Forall (is_frame W H) frames →
  (∃ out, interlace_vertical frames W H S = Ok out ∧ is_frame W H out) ∧
  (∃ out, interlace_horizontal frames W H S = Ok out ∧ is_frame W H out).
Proof.
  intros Hne Hframes.
  assert (0 ≤ W ∧ 0 ≤ H) as [HW HH].
  { destruct frames as [|f frames]; [simpl in Hne; lia|].
    apply Forall_cons in Hframes as [(_ & <- & <- & (? & ? & _) & _) _].
    done. }
  split.
  - destruct (interlace_vertical_spec frames W H S)
      as (out & Hrun & Hm & Hw & Hh & _); [done..|].
    exists out. split; [done|]. do 3 (split; [done|]).
    eapply interlace_vertical_valid; [|exact Hrun].
    by eapply is_frame_weaken.
  - destruct (interlace_horizontal_spec frames W H S)
      as (out & Hrun & Hm & Hw & Hh & _); [done..|].
    exists out. split; [done|]. do 3 (split; [done|]).
    eapply interlace_horizontal_valid; [|exact Hrun].
    by eapply is_frame_weaken.
Qed.

Lemma interlace_is_frame_witness :
  let frames := [solid 4 2 red; solid 4 2 green; solid 4 2 blue] in
  ((1 ≤ length frames)%nat ∧ Forall (is_frame 4 2) frames) ∧
  (∃ out, interlace_vertical frames 4 2 2 = Ok out ∧ is_frame 4 2 out) ∧
  (∃ out, interlace_horizontal frames 4 2 2 = Ok out ∧ is_frame 4 2 out).
Proof.
  intros frames.
  assert (Hhyp : (1 ≤ length frames)%nat ∧ Forall (is_frame 4 2) frames).
  { apply (bool_decide_unpack _). vm_compute. exact I. }
  split; [exact Hhyp|].
  destruct Hhyp as (H1 & H2).
  exact (interlace_is_frame frames 4 2 2 H1 H2).
Defined.

(** ** One source frame *)

(** Two well-shaped images with the same pixels are the same image. *)
Lemma image_ext (a b : Image) :
  well_shaped a → well_shaped b →
  mode a = mode b → width a = width b → height a = height b →
  (∀ x y, 0 ≤ x < width a → 0 ≤ y < height a →
     pixel_at a x y = pixel_at b x y) →
  a = b.
Proof.
  destruct a as [ma wa ha ra], b as [mb wb hb rb].
  intros (Hwa & Hha & Hla & Hra) (Hwb & Hhb & Hlb & Hrb). simpl in *.
  intros -> -> -> Hpx. f_equal.
  apply list_eq. intros j.
  destruct (decide (j < Z.to_nat hb)%nat) as [Hj|Hj].
  - destruct (lookup_lt_is_Some_2 ra j) as [rowa Hrowa]; [lia|].
    destruct (lookup_lt_is_Some_2 rb j) as [rowb Hrowb]; [lia|].
    rewrite Hrowa, Hrowb. f_equal.
    pose proof (Forall_lookup_1 _ _ _ _ Hra Hrowa) as Hlena.
    pose proof (Forall_lookup_1 _ _ _ _ Hrb Hrowb) as Hlenb.
    simpl in Hlena, Hlenb.
    apply list_eq. intros i.
    destruct (decide (i < Z.to_nat wb)%nat) as [Hi|Hi].
    + specialize (Hpx (Z.of_nat i) (Z.of_nat j) ltac:(lia) ltac:(lia)).
      unfold pixel_at in Hpx. simpl in Hpx.
      rewrite !decide_True in Hpx by lia.
      rewrite !Nat2Z.id, Hrowa, Hrowb in Hpx. exact Hpx.
    + by rewrite !lookup_ge_None_2 by lia.
  - by rewrite !lookup_ge_None_2 by lia.
Qed.

(** X11. When a single stripe spans the width ([W <= S]), or there is a
    single frame, the vertical interlace returns the first frame itself,
    pixel for pixel. *)
Theorem interlace_vertical_one_source (f : Image) (rest : list Image)
    (W H S : Z) :
  Forall (is_frame W H) (f :: rest) → rest = [] ∨ W ≤ S →
  interlace_vertical (f :: rest) W H S = Ok f.
Proof.
  intros Hframes Hone.
  pose proof Hframes as [(Hfm & Hfw & Hfh & Hfv) _]%Forall_cons.
  pose proof Hfv as [Hfs _]. pose proof Hfs as (HW & HH & _).
  rewrite Hfw in HW. rewrite Hfh in HH.
  destruct (interlace_vertical_spec (f :: rest) W H S)
    as (out & Hrun & Hm & Hw & Hh & Hpx); [simpl; lia|done..|].
  rewrite Hrun. f_equal.
  pose proof (interlace_vertical_valid (f :: rest) W H S out
                (is_frame_weaken _ _ _ Hframes) Hrun) as [Hos _].
  apply image_ext; [done|done|congruence..|].
  intros x y Hx Hy. rewrite Hw in Hx. rewrite Hh in Hy.
  rewrite Hpx by done. unfold vertical_source.
  assert (Hidx : (x `div` clamp_slice S W)
                   `mod` Z.of_nat (length (f :: rest)) = 0).
  { destruct Hone as [->|HWS].
    - simpl. apply Z.mod_1_r.
    - unfold clamp_slice. rewrite Z.min_r, Z.max_r by lia.
      rewrite Z.div_small by lia. apply Z.mod_0_l. simpl. lia. }
  by rewrite Hidx.
Qed.

Lemma interlace_vertical_one_source_witness :
  (Forall (is_frame 4 2) [solid 4 2 red; solid 4 2 green] ∧
   ([solid 4 2 green] = [] ∨ 4 ≤ 7)) ∧
  interlace_vertical [solid 4 2 red; solid 4 2 green] 4 2 7
    = Ok (solid 4 2 red).
Proof.
  assert (Hhyp : Forall (is_frame 4 2) [solid 4 2 red; solid 4 2 green] ∧
                 ([solid 4 2 green] = [] ∨ 4 ≤ 7)).
  { split; [apply (bool_decide_unpack _); vm_compute; exact I|right; lia]. }
  split; [exact Hhyp|].
  destruct Hhyp as (H1 & H2).
  exact (interlace_vertical_one_source (solid 4 2 red) [solid 4 2 green]
           4 2 7 H1 H2).
Defined.

(** ** More on the size unifier *)

Section UnifyMore.

Variable env : Env.
Variables W H : Z.

Let loop (acc imgs : list Image) : result (list Image) :=
  for_each (λ out im,
      if decide (width im ≠ W ∨ height im ≠ H) then
        r ← PIL.resize (lanczos env) im (W, H);
        Ok (out ++ [r])
      else Ok (out ++ [im]))
    acc imgs.

(** Whenever the loop returns, it has appended one frame per input. *)
Lemma unify_loop_inv (imgs acc out : list Image) :
  loop acc imgs = Ok out → out = acc ++ (fit_to env W H <$> imgs).
Proof.
  revert acc. induction imgs as [|im imgs IH]; intros acc Hrun.
  - injection Hrun as <-. by rewrite app_nil_r.
  - unfold loop in Hrun. cbn [for_each] in Hrun. bind_inv Hrun.
    apply IH in Hrun as ->.
    assert (Hr : r = acc ++ [fit_to env W H im]).
    { unfold fit_to. destruct (decide (width im ≠ W ∨ height im ≠ H)).
      - bind_inv Hcall. injection Hcall as <-.
        unfold PIL.resize in Hcall0. case_decide; [done|].
        by injection Hcall0 as <-.
      - by injection Hcall as <-. }
    rewrite Hr. by rewrite <- app_assoc.
Qed.

(** Frames that have the target size go through the loop untouched. *)
Lemma unify_loop_fixed (imgs acc : list Image) :
  Forall (λ im, width im = W ∧ height im = H) imgs →
  loop acc imgs = Ok (acc ++ imgs).
Proof.
  revert acc. induction imgs as [|im imgs IH]; intros acc Hall.
  - simpl. by rewrite app_nil_r.
  - apply Forall_cons in Hall as [[Hw Hh] Hall].
    unfold loop. cbn [for_each]. rewrite decide_False by lia. run_bind.
    fold (loop (acc ++ [im]) imgs). rewrite IH by done.
    by rewrite <- app_assoc.
Qed.

Lemma fit_to_spec (im : Image) :
  mode (fit_to env W H im) = mode im ∧
  width (fit_to env W H im) = W ∧ height (fit_to env W H im) = H ∧
  (width im = W → height im = H → fit_to env W H im = im).
Proof.
  unfold fit_to. case_decide as Hd; simpl.
  - do 3 (split; [done|]). intros Hw Hh. lia.
  - repeat split; lia.
Qed.

End UnifyMore.

Lemma min_constant (l : list Z) (w : Z) :
  l ≠ [] → Forall (λ x, x = w) l → Py.min l = Ok w.
Proof.
  intros Hne Hall. destruct (min_spec l Hne) as (m & -> & Hin & _).
  rewrite Forall_forall in Hall. by rewrite (Hall m Hin).
Qed.

Lemma index_0_head {A : Type} (l : list A) (a : A) :
  Py.index l 0 = Ok a → head l = Some a.
Proof.
  unfold Py.index. rewrite (decide_False (P := 0 < 0)) by lia.
  case_decide; [|done]. destruct l as [|b l]; [done|]. simpl.
  by intros [= <-].
Qed.

(** Taking [unify_sizes] apart when it has returned. *)
Lemma unify_sizes_inv (env : Env) (imgs out : list Image)
    (strategy : string) (W H : Z) :
  unify_sizes env imgs strategy = Ok (out, W, H) →
  out = fit_to env W H <$> imgs ∧
  if decide (strategy = "first")
  then ∃ im0, head imgs = Some im0 ∧ W = width im0 ∧ H = height im0
  else Py.min (width <$> imgs) = Ok W ∧ Py.min (height <$> imgs) = Ok H.
Proof.
  unfold unify_sizes. intros Hrun.
  destruct (decide (strategy = "first")) as [Hs|Hs].
  - destruct (Py.index imgs 0) as [im0|] eqn:Hidx; [|done].
    cbn [mbind result_bind] in Hrun.
    destruct (for_each _ [] imgs) as [o|] eqn:Hloop; [|done].
    cbn [mbind result_bind] in Hrun. injection Hrun as <- <- <-.
    apply unify_loop_inv in Hloop as ->. split; [done|].
    exists im0. split; [by apply index_0_head|done].
  - destruct (Py.min (width <$> imgs)) as [W'|] eqn:HW; [|done].
    destruct (Py.min (height <$> imgs)) as [H'|] eqn:HH; [|done].
    cbn [mbind result_bind] in Hrun.
    destruct (for_each _ [] imgs) as [o|] eqn:Hloop; [|done].
    cbn [mbind result_bind] in Hrun. injection Hrun as <- <- <-.
    by apply unify_loop_inv in Hloop as ->.
Qed.

(** X12. With the [first] strategy the target is the size of the first
    frame, which is returned unchanged at the head of the result; the
    other frames need not be well sized for the call to return. *)
Theorem unify_sizes_first (env : Env) (f : Image) (rest : list Image) :
  1 ≤ width f → 1 ≤ height f →
  ∃ out,
    unify_sizes env (f :: rest) "first" = Ok (f :: out, width f, height f) ∧
    length out = length rest ∧
    Forall (λ im, width im = width f ∧ height im = height f) out.
Proof.
  intros Hw Hh. unfold unify_sizes.
  rewrite decide_True by done.
  rewrite (index_lookup (f :: rest) 0 f) by done. run_bind.
  rewrite unify_loop by done. run_bind.
  exists ((λ im, if decide (width im ≠ width f ∨ height im ≠ height f)
                 then mkImage (mode im) (width f) (height f)
                        (tabulate (width f) (height f)
                           (lanczos env im (width f, height f)))
                 else im) <$> rest).
  split.
  - cbn [fmap list_fmap app]. by rewrite decide_False by lia.
  - split; [by rewrite length_fmap|].
    apply Forall_fmap, Forall_forall. intros im _.
    apply (fit_size env).
Qed.

Lemma unify_sizes_first_witness :
  let f := solid 2 5 red in
  (1 ≤ width f ∧ 1 ≤ height f) ∧
  ∃ out,
    unify_sizes example_env [f; solid 4 3 green] "first"
      = Ok (f :: out, width f, height f) ∧
    length out = length [solid 4 3 green] ∧
    Forall (λ im, width im = width f ∧ height im = height f) out.
Proof.
  intros f.
  assert (Hhyp : 1 ≤ width f ∧ 1 ≤ height f).
  { apply (bool_decide_unpack _). vm_compute. exact I. }
  split; [exact Hhyp|].
  destruct Hhyp as (H1 & H2).
  exact (unify_sizes_first example_env f [solid 4 3 green] H1 H2).
Defined.

(** X13. Whenever [unify_sizes] returns, it has kept every frame in its
    place: the result has one frame per input, each of the target size
    and of the mode of its input, and an input that already had the
    target size is returned as it is, not resampled. *)
Theorem unify_sizes_keeps_frames (env : Env) (imgs out : list Image)
    (strategy : string) (W H : Z) :
  unify_sizes env imgs strategy = Ok (out, W, H) →
  length out = length imgs ∧
  ∀ (i : nat) (im : Image), imgs !! i = Some im →
    ∃ im', out !! i = Some im' ∧
      mode im' = mode im ∧ width im' = W ∧ height im' = H ∧
      (width im = W → height im = H → im' = im).
Proof.
  intros [-> _]%unify_sizes_inv. split; [by rewrite length_fmap|].
  intros i im Him. exists (fit_to env W H im).
  split; [by rewrite list_lookup_fmap, Him|]. apply fit_to_spec.
Qed.

Lemma unify_sizes_keeps_frames_witness :
  let imgs := [solid 2 5 red; solid 4 3 green; solid 2 3 blue] in
  let out := [mkImage RGBA 2 3 (tabulate 2 3 (λ _ _, red));
              mkImage RGBA 2 3 (tabulate 2 3 (λ _ _, green));
              solid 2 3 blue] in
  unify_sizes example_env imgs "min" = Ok (out, 2, 3) ∧
  length out = length imgs ∧
  ∀ (i : nat) (im : Image), imgs !! i = Some im →
    ∃ im', out !! i = Some im' ∧
      mode im' = mode im ∧ width im' = 2 ∧ height im' = 3 ∧
      (width im = 2 → height im = 3 → im' = im).
Proof.
  intros imgs out.
  assert (Hhyp : unify_sizes example_env imgs "min" = Ok (out, 2, 3)).
  { vm_compute. reflexivity. }
  split; [exact Hhyp|].
  exact (unify_sizes_keeps_frames example_env imgs out "min" 2 3 Hhyp).
Defined.

(** X14. [unify_sizes] is idempotent: applied to its own result, with the
    same strategy, it returns that result again, same frames and same
    size, and resamples nothing. *)
Theorem unify_sizes_idempotent (env : Env) (imgs out : list Image)
    (strategy : string) (W H : Z) :
  unify_sizes env imgs strategy = Ok (out, W, H) →
  unify_sizes env out strategy = Ok (out, W, H).
Proof.
  intros Hrun. pose proof (unify_sizes_inv _ _ _ _ _ _ Hrun) as [Hout Htarget].
  assert (Hsized : Forall (λ im, width im = W ∧ height im = H) out).
  { rewrite Hout. apply Forall_fmap, Forall_forall. intros im _.
    destruct (fit_to_spec env W H im) as (_ & ? & ? & _). done. }
  assert (Hne : imgs ≠ []).
  { intros ->. case_decide.
    - by destruct Htarget as (im0 & Hhead & _).
    - by destruct Htarget as [Hmin _]. }
  assert (Hne' : out ≠ []).
  { rewrite Hout. by destruct imgs. }
  unfold unify_sizes.
  assert (Hsize : (if decide (strategy = "first") then
                     im0 ← Py.index out 0; Ok (width im0, height im0)
                   else
                     W ← Py.min (width <$> out);
                     H ← Py.min (height <$> out); Ok (W, H))
                  = Ok (W, H)).
  { case_decide.
    - destruct out as [|im0 out']; [done|].
      apply Forall_cons in Hsized as [[<- <-] _]. done.
    - rewrite (min_constant (width <$> out) W), (min_constant (height <$> out) H).
      + done.
      + by destruct out.
      + apply Forall_fmap. eapply Forall_impl; [exact Hsized|].
        by intros im [_ ?].
      + by destruct out.
      + apply Forall_fmap. eapply Forall_impl; [exact Hsized|].
        by intros im [? _]. }
  rewrite Hsize. run_bind.
  rewrite (unify_loop_fixed env W H out []) by done. done.
Qed.

Lemma unify_sizes_idempotent_witness :
  let imgs := [solid 2 5 red; solid 4 3 green; solid 2 3 blue] in
  let out := [mkImage RGBA 2 3 (tabulate 2 3 (λ _ _, red));
              mkImage RGBA 2 3 (tabulate 2 3 (λ _ _, green));
              solid 2 3 blue] in
  unify_sizes example_env imgs "min" = Ok (out, 2, 3) ∧
  unify_sizes example_env out "min" = Ok (out, 2, 3).
Proof.
  intros imgs out.
  assert (Hhyp : unify_sizes example_env imgs "min" = Ok (out, 2, 3)).
  { vm_compute. reflexivity. }
  split; [exact Hhyp|].
  exact (unify_sizes_idempotent example_env imgs out "min" 2 3 Hhyp).
Defined.

(** ** Loading the frames *)

Section Load.

Variable env : Env.

Local Abbreviation body :=
  (λ (imgs : list Image) (f : string),
     match image_open env f with
     | inr im => Ok (imgs ++ [PIL.convert im RGBA])
     | inl e =>
         Raise (SystemExit
           ("[ERROR] Failed to open image: " +:+ f +:+ " (" +:+ e +:+ ")"))
     end).

Lemma load_loop_returns (files : list string) (acc out : list Image) :
  for_each body acc files = Ok out ↔
  ∃ imgs, out = acc ++ imgs ∧ Forall2 (decodes_to env) files imgs.
Proof.
  revert acc. induction files as [|f files IH]; intros acc.
  - simpl. split.
    + intros [= <-]. exists []. by rewrite app_nil_r.
    + intros (imgs & -> & ->%Forall2_nil_inv_l). by rewrite app_nil_r.
  - cbn [for_each].
    destruct (image_open env f) as [e|raw] eqn:Hopen.
    + run_bind. split; [done|]. intros (imgs & _ & Hall).
      apply Forall2_cons_inv_l in Hall as (im & ? & (raw & Hraw & _) & _).
      congruence.
    + run_bind. rewrite IH. split.
      * intros (imgs & -> & Hall).
        exists (PIL.convert raw RGBA :: imgs).
        split; [by rewrite <- app_assoc|].
        constructor; [by exists raw|done].
      * intros (imgs & -> & Hall).
        apply Forall2_cons_inv_l in Hall
          as (im & imgs' & (raw' & Hraw & ->) & Hall & ->).
        exists imgs'. split; [|done].
        rewrite <- app_assoc. simpl. congruence.
Qed.

Lemma load_loop_fails (good : list string) (f e : string)
    (rest : list string) (acc : list Image) :
  Forall (λ g, ∃ raw, image_open env g = inr raw) good →
  image_open env f = inl e →
  for_each body acc (good ++ f :: rest) = Raise (open_failure f e).
Proof.
  intros Hgood Hbad. revert acc.
  induction Hgood as [|g good [raw Hraw] _ IH]; intros acc.
  - cbn [app for_each]. by rewrite Hbad.
  - cbn [app for_each]. rewrite Hraw. run_bind. apply IH.
Qed.

End Load.

Lemma decodes_to_mode (env : Env) (files : list string)
    (imgs : list Image) :
  Forall2 (decodes_to env) files imgs →
  length imgs = length files ∧ Forall (λ im, mode im = RGBA) imgs.
Proof.
  intros Hall. split; [symmetry; by eapply Forall2_length|].
  induction Hall as [|f im files imgs (raw & _ & ->) _ IH];
    by constructor.
Qed.

Lemma load_frames_inv (env : Env) (files : list string)
    (imgs : list Image) :
  load_frames env files = Ok imgs →
  length imgs = length files ∧ Forall (λ im, mode im = RGBA) imgs.
Proof.
  unfold load_frames. rewrite load_loop_returns.
  intros (imgs' & -> & Hall). by apply (decodes_to_mode env).
Qed.

(** X15. [load_frames] returns exactly when every file decodes, and then
    with one frame per file, in the order of the files, each the RGBA
    conversion of what the file holds. *)
Theorem load_frames_returns_iff (env : Env) (files : list string)
    (imgs : list Image) :
  load_frames env files = Ok imgs ↔ Forall2 (decodes_to env) files imgs.
Proof.
  unfold load_frames. rewrite load_loop_returns. split.
  - by intros (imgs' & -> & Hall).
  - intros Hall. by exists imgs.
Qed.

(** X16. [load_frames] stops at the first file that fails to open and
    raises [SystemExit] with a message that names that file and the
    error, whatever follows it in the list. *)
Theorem load_frames_first_failure (env : Env) (good : list string)
    (f e : string) (rest : list string) :
  Forall (λ g, ∃ raw, image_open env g = inr raw) good →
  image_open env f = inl e →
  load_frames env (good ++ f :: rest) = Raise (open_failure f e).
Proof. intros Hgood Hbad. by apply load_loop_fails. Qed.

Lemma load_frames_first_failure_witness :
  (Forall (λ g, ∃ raw, image_open broken_env g = inr raw) ["1.png"] ∧
   image_open broken_env "2.png" = inl "cannot identify image file") ∧
  load_frames broken_env (["1.png"] ++ "2.png" :: ["3.png"])
    = Raise (open_failure "2.png" "cannot identify image file").
Proof.
  assert (Hhyp :
    Forall (λ g, ∃ raw, image_open broken_env g = inr raw) ["1.png"] ∧
    image_open broken_env "2.png" = inl "cannot identify image file").
  { split; [|reflexivity]. repeat constructor. eexists. reflexivity. }
  split; [exact Hhyp|].
  destruct Hhyp as (H1 & H2).
  exact (load_frames_first_failure broken_env ["1.png"] "2.png"
           "cannot identify image file" ["3.png"] H1 H2).
Defined.

(** ** What a run writes *)

Lemma main_collect_raise (env : Env) (args : Args.t) (e : exn) :
  (main_collect env args).2 = Raise e → main env args = ([], Raise e).
Proof.
  intros Hraise. unfold main.
  by rewrite (io_bind_raise _ _ _ Hraise), main_collect_trace.
Qed.

Lemma main_collect_enough (env : Env) (args : Args.t) (folder : string)
    (files : list string) :
  (main_collect env args).2 = Ok (folder, files) → (2 ≤ length files)%nat.
Proof.
  unfold main_collect. destruct (path_exists _ _); [|done].
  case_decide; [done|]. intros [= _ <-]. lia.
Qed.

Lemma main_base_inv (env : Env) (args : Args.t) (files : list string)
    (base : Image) (frames : list Image) (W H : Z) :
  main_base env args files = Ok (base, frames, W, H) →
  ∃ loaded,
    load_frames env files = Ok loaded ∧
    unify_sizes env loaded (Args.resize args) = Ok (frames, W, H) ∧
    (if decide (Args.direction args = "vertical")
     then interlace_vertical frames W H (Args.slice args)
     else interlace_horizontal frames W H (Args.slice args)) = Ok base.
Proof.
  unfold main_base. intros Hrun.
  destruct (load_frames env files) as [loaded|] eqn:Hload; [|done].
  cbn [mbind result_bind] in Hrun.
  destruct (unify_sizes env loaded _) as [[[frames' W'] H']|] eqn:Hunify;
    [|done].
  cbn [mbind result_bind] in Hrun.
  destruct (if decide (Args.direction args = "vertical") then _ else _)
    as [base'|] eqn:Hbase; [|done].
  cbn [mbind result_bind] in Hrun. injection Hrun as <- <- <- <-.
  by exists loaded.
Qed.

Lemma main_base_frames (env : Env) (args : Args.t) (files : list string)
    (base : Image) (frames : list Image) (W H : Z) :
  main_base env args files = Ok (base, frames, W, H) →
  length frames = length files.
Proof.
  intros (loaded & Hload & Hunify & _)%main_base_inv.
  apply load_frames_inv in Hload as [Hlen _].
  apply unify_sizes_inv in Hunify as [-> _].
  by rewrite length_fmap.
Qed.

Lemma main_base_sizes (env : Env) (args : Args.t) (files : list string)
    (base : Image) (frames : list Image) (W H : Z) :
  main_base env args files = Ok (base, frames, W, H) →
  Forall (λ f, mode f = RGBA ∧ width f = W ∧ height f = H) frames.
Proof.
  intros (loaded & Hload & Hunify & _)%main_base_inv.
  apply load_frames_inv in Hload as [_ Hmodes].
  apply unify_sizes_inv in Hunify as [-> _].
  apply Forall_fmap. eapply Forall_impl; [exact Hmodes|].
  intros f Hf. simpl.
  destruct (fit_to_spec env W H f) as (-> & ? & ? & _). done.
Qed.

(** The output mode never fails on a canvas. *)
Lemma main_post_pass_canvas (args : Args.t) (W H : Z) (base : Image) :
  canvas W H base →
  ∃ img,
    main_post_pass args base = Ok img ∧
    width img = W ∧ height img = H ∧
    mode img =
      if Args.white_bg args || Args.force_rgb args then RGB else RGBA.
Proof.
  intros (Hm & Hw & Hh & HW & HH). unfold main_post_pass.
  destruct (Args.white_bg args).
  - destruct (composite_on_white_runs base)
      as (bg & alpha & img & Hbg & _ & Hpaste & ->); [done|lia..|].
    exists img. split; [done|].
    apply paste_shape in Hpaste as (-> & -> & ->).
    apply new_shape in Hbg as (-> & -> & -> & _). done.
  - destruct (Args.force_rgb args); eexists; (split; [done|]); done.
Qed.

(** X17. What a run has saved, whatever happens: nothing, the base alone,
    or the base followed by the mask, never the mask without the base. A
    run that has saved nothing has raised. A run that was asked for a mask
    and has saved the base alone has raised as well: the mask is made and
    written after the base is written, and those steps can fail. So a run
    that returns has saved all it was asked for. *)
Theorem main_saves_base_then_mask (env : Env) (args : Args.t) :
  (saves (main env args).1 = [] ∧ ∃ e, (main env args).2 = Raise e) ∨
  ∃ folder files base frames W H img,
    (main_collect env args).2 = Ok (folder, files) ∧
    main_base env args files = Ok (base, frames, W, H) ∧
    main_post_pass args base = Ok img ∧
    let out_base := path_str env (Args.out_base args) in
    let out_mask :=
      path_str env (default EmptyString (Args.out_mask args)) in
    (saves (main env args).1 = [(out_base, img)] ∧
     (truthy (Args.out_mask args) = true →
        ∃ e, (main env args).2 = Raise e)) ∨
    (∃ mask,
       truthy (Args.out_mask args) = true ∧
       make_mask W H (Args.slice args) (Z.of_nat (length frames))
         (Args.direction args) = Ok mask ∧
       saves (main env args).1 = [(out_base, img); (out_mask, mask)]).
Proof.
  destruct ((main_collect env args).2) as [[folder files]|e] eqn:Hcollect.
  2:{ left. rewrite (main_collect_raise _ _ _ Hcollect). eauto. }
  pose proof (main_outcome env args folder files Hcollect) as Hout.
  destruct (main_base env args files) as [[[[base frames] W] H]|e] eqn:Hbase.
  2:{ left. destruct Hout as [-> ->]. eauto. }
  destruct (main_post_pass args base) as [img|e] eqn:Hpost.
  2:{ left. destruct Hout as [-> ->]. eauto. }
  cbn zeta in Hout.
  destruct (mkdir_error env _) as [e|].
  { left. destruct Hout as [-> ->]. eauto. }
  destruct (save_error env _ img) as [e|].
  { left. destruct Hout as [-> ->]. eauto. }
  right. exists folder, files, base, frames, W, H, img.
  do 3 (split; [done|]). cbn zeta.
  destruct (truthy (Args.out_mask args)).
  2:{ left. by destruct Hout as [_ ->]. }
  destruct (make_mask _ _ _ _ _) as [mask|e].
  2:{ left. destruct Hout as [-> ->]. eauto. }
  destruct (mkdir_error env _) as [e|].
  { left. destruct Hout as [-> ->]. eauto. }
  destruct (save_error env _ mask) as [e|].
  { left. destruct Hout as [-> ->]. eauto. }
  right. exists mask. by destruct Hout as [_ ->].
Qed.

(** X18. A file that fails to decode aborts the whole run: [main] raises
    the [SystemExit] that names the first such file, exits with a
    non-zero status, and saves neither base nor mask. *)
Theorem main_decode_failure (env : Env) (args : Args.t) (folder : string)
    (good : list string) (f e : string) (rest : list string) :
  (main_collect env args).2 = Ok (folder, good ++ f :: rest) →
  Forall (λ g, ∃ raw, image_open env g = inr raw) good →
  image_open env f = inl e →
  (main env args).2 = Raise (open_failure f e) ∧
  saves (main env args).1 = [] ∧
  exit_status (main env args).2 ≠ 0.
Proof.
  intros Hcollect Hgood Hbad.
  pose proof (main_outcome env args folder _ Hcollect) as Hout.
  unfold main_base in Hout at 1.
  unfold load_frames in Hout.
  rewrite (load_loop_fails env good f e rest [] Hgood Hbad) in Hout.
  cbn [mbind result_bind] in Hout. destruct Hout as [Hres Hsaves].
  by rewrite Hres, Hsaves.
Qed.

Lemma main_decode_failure_witness :
  let args := example_args false false in
  ((main_collect broken_env args).2
     = Ok (".", ["1.png"] ++ "2.png" :: ["3.png"]) ∧
   Forall (λ g, ∃ raw, image_open broken_env g = inr raw) ["1.png"] ∧
   image_open broken_env "2.png" = inl "cannot identify image file") ∧
  (main broken_env args).2
    = Raise (open_failure "2.png" "cannot identify image file") ∧
  saves (main broken_env args).1 = [] ∧
  exit_status (main broken_env args).2 ≠ 0.
Proof.
  intros args.
  assert (Hhyp :
    (main_collect broken_env args).2
      = Ok (".", ["1.png"] ++ "2.png" :: ["3.png"]) ∧
    Forall (λ g, ∃ raw, image_open broken_env g = inr raw) ["1.png"] ∧
    image_open broken_env "2.png" = inl "cannot identify image file").
  { split; [vm_compute; reflexivity|]. split; [|reflexivity].
    repeat constructor. eexists. reflexivity. }
  split; [exact Hhyp|].
  destruct Hhyp as (H1 & H2 & H3).
  exact (main_decode_failure broken_env args "." ["1.png"] "2.png"
           "cannot identify image file" ["3.png"] H1 H2 H3).
Defined.

(** X19. When the folder does not exist the run aborts at once: nothing
    is collected, printed or saved, and [main] raises [SystemExit] with a
    message that names the resolved folder. *)
Theorem main_folder_not_found (env : Env) (args : Args.t) :
  path_exists env (main_folder env args) = false →
  main env args =
    ([], Raise (SystemExit
           ("[ERROR] Folder not found: " +:+ main_folder env args))) ∧
  exit_status (main env args).2 ≠ 0.
Proof.
  intros Hmissing.
  assert (Hmain : main env args =
            ([], Raise (SystemExit
               ("[ERROR] Folder not found: " +:+ main_folder env args)))).
  { apply main_collect_raise. unfold main_collect. by rewrite Hmissing. }
  by rewrite Hmain.
Qed.

Lemma main_folder_not_found_witness :
  let env := without_folder example_env in
  let args := example_args false false in
  path_exists env (main_folder env args) = false ∧
  main env args =
    ([], Raise (SystemExit
           ("[ERROR] Folder not found: " +:+ main_folder env args))) ∧
  exit_status (main env args).2 ≠ 0.
Proof.
  intros env args.
  assert (Hhyp : path_exists env (main_folder env args) = false).
  { reflexivity. }
  split; [exact Hhyp|].
  exact (main_folder_not_found env args Hhyp).
Defined.

(** X20. The mask a run writes fits the base it writes. In a vertical run
    with a mask asked for, on well-formed frames, the base is what
    [interlace_vertical] returns for the unified frames; a column of the
    mask made for it is transparent exactly when [interlace_vertical] cuts
    that column from frame 0, and under every transparent column the base
    holds the column of the first frame; and when the file system lets the
    two files be written, what the run has saved is the base and then
    this mask. *)
Theorem main_mask_fits_base (env : Env) (args : Args.t) (folder : string)
    (files : list string) (base : Image) (frames : list Image) (W H : Z)
    (mask : Image) :
  (main_collect env args).2 = Ok (folder, files) →
  main_base env args files = Ok (base, frames, W, H) →
  Forall valid_image frames →
  Args.direction args = "vertical" →
  truthy (Args.out_mask args) = true →
  1 ≤ H →
  make_mask W H (Args.slice args) (Z.of_nat (length frames)) "vertical"
    = Ok mask →
  let out_base := path_str env (Args.out_base args) in
  let out_mask := path_str env (default EmptyString (Args.out_mask args)) in
  ∃ img first,
    interlace_vertical frames W H (Args.slice args) = Ok base ∧
    main_post_pass args base = Ok img ∧
    frames !! 0%nat = Some first ∧
    (∀ x, 0 ≤ x < W →
       (column_transparent mask x ↔
          column_cut_from (Z.of_nat (length frames)) W H (Args.slice args)
            x 0) ∧
       (column_transparent mask x →
          ∀ y, 0 ≤ y < H → pixel_at base x y = pixel_at first x y)) ∧
    (mkdir_error env (path_parent env out_base) = None →
     save_error env out_base img = None →
     mkdir_error env (path_parent env out_mask) = None →
     save_error env out_mask mask = None →
     saves (main env args).1 = [(out_base, img); (out_mask, mask)]).
Proof.
  intros Hcollect Hbase Hvalid Hdir Hmask HH Hrun out_base out_mask.
  pose proof (main_outcome env args folder files Hcollect) as Hout.
  rewrite Hbase in Hout.
  pose proof (main_base_canvas _ _ _ _ _ _ _ Hbase) as Hcanvas.
  destruct (main_post_pass_canvas args W H base Hcanvas)
    as (img & Hpost & _).
  rewrite Hpost, Hmask, Hdir, Hrun in Hout. cbn zeta in Hout.
  pose proof (main_base_frames _ _ _ _ _ _ _ Hbase) as Hlen.
  pose proof (main_collect_enough _ _ _ _ Hcollect) as Hmany.
  assert (Hframes : Forall (is_frame W H) frames).
  { pose proof (main_base_sizes _ _ _ _ _ _ _ Hbase) as Hsizes.
    rewrite Forall_forall in Hsizes, Hvalid. apply Forall_forall.
    intros f Hf. destruct (Hsizes f Hf) as (Hm & Hw & Hh).
    unfold is_frame. auto. }
  assert (Hint : interlace_vertical frames W H (Args.slice args) = Ok base).
  { apply main_base_inv in Hbase as (loaded & _ & _ & Hint).
    by rewrite decide_True in Hint. }
  destruct Hcanvas as (_ & _ & _ & HW & _).
  destruct (make_mask_inv _ _ _ _ _ _ Hrun) as (_ & _ & Hslit).
  destruct (make_mask_columns W H (Args.slice args)
              (Z.of_nat (length frames))) as (mask' & Hrun' & Hcols);
    [lia..|done|].
  rewrite Hrun in Hrun'. injection Hrun' as <-.
  destruct frames as [|first frames']; [simpl in Hlen; lia|].
  exists img, first. do 3 (split; [done|]).
  split.
  - intros x Hx.
    assert (Hiff : column_transparent mask x ↔
              (x `div` clamp_slice (Args.slice args) W)
                `mod` Z.of_nat (length (first :: frames')) = 0).
    { rewrite (proj1 (Hcols x Hx)).
      apply slit_iff_frame_0; [|done]. simpl. lia. }
    split.
    + rewrite column_cut_from_iff; [done| |done..]. simpl. lia.
    + intros Hslit0%Hiff y Hy.
      destruct (interlace_vertical_spec (first :: frames') W H
                  (Args.slice args))
        as (out & Hrun' & _ & _ & _ & Hpx); [simpl; lia|lia..|done|].
      rewrite Hint in Hrun'. injection Hrun' as <-.
      rewrite Hpx by done. unfold vertical_source. by rewrite Hslit0.
  - intros Hmk1 Hsv1 Hmk2 Hsv2.
    fold out_base in Hout. rewrite Hmk1, Hsv1 in Hout.
    fold out_mask in Hout. rewrite Hmk2, Hsv2 in Hout. exact (proj2 Hout).
Qed.

Lemma main_mask_fits_base_witness :
  let env := example_env in
  let args := example_args_mask in
  let files := ["1.png"; "2.png"] in
  let frames := [solid 2 1 [10; 20; 30; 0]; solid 2 1 [40; 50; 60; 255]] in
  let base := mkImage RGBA 2 1 [[[10; 20; 30; 0]; [40; 50; 60; 255]]] in
  let mask := mkImage RGBA 2 1 [[[0; 0; 0; 0]; [0; 0; 0; 255]]] in
  let out_base := path_str env (Args.out_base args) in
  let out_mask := path_str env (default EmptyString (Args.out_mask args)) in
  ((main_collect env args).2 = Ok (".", files) ∧
   main_base env args files = Ok (base, frames, 2, 1) ∧
   Forall valid_image frames ∧
   Args.direction args = "vertical" ∧
   truthy (Args.out_mask args) = true ∧
   1 ≤ 1 ∧
   make_mask 2 1 (Args.slice args) (Z.of_nat (length frames)) "vertical"
     = Ok mask) ∧
  ∃ img first,
    interlace_vertical frames 2 1 (Args.slice args) = Ok base ∧
    main_post_pass args base = Ok img ∧
    frames !! 0%nat = Some first ∧
    (∀ x, 0 ≤ x < 2 →
       (column_transparent mask x ↔
          column_cut_from (Z.of_nat (length frames)) 2 1 (Args.slice args)
            x 0) ∧
       (column_transparent mask x →
          ∀ y, 0 ≤ y < 1 → pixel_at base x y = pixel_at first x y)) ∧
    (mkdir_error env (path_parent env out_base) = None →
     save_error env out_base img = None →
     mkdir_error env (path_parent env out_mask) = None →
     save_error env out_mask mask = None →
     saves (main env args).1 = [(out_base, img); (out_mask, mask)]).
Proof.
  intros env args files frames base mask out_base out_mask.
  assert (Hhyp :
    (main_collect env args).2 = Ok (".", files) ∧
    main_base env args files = Ok (base, frames, 2, 1) ∧
    Forall valid_image frames ∧
    Args.direction args = "vertical" ∧
    truthy (Args.out_mask args) = true ∧
    1 ≤ 1 ∧
    make_mask 2 1 (Args.slice args) (Z.of_nat (length frames)) "vertical"
      = Ok mask).
  { split; [vm_compute; reflexivity|]. split; [vm_compute; reflexivity|].
    split; [apply (bool_decide_unpack _); vm_compute; exact I|].
    split; [reflexivity|]. split; [reflexivity|]. split; [lia|].
    vm_compute; reflexivity. }
  split; [exact Hhyp|].
  destruct Hhyp as (H1 & H2 & H3 & H4 & H5 & H6 & H7).
  exact (main_mask_fits_base env args "." files base frames 2 1 mask
           H1 H2 H3 H4 H5 H6 H7).
Defined.

(** The example run with a mask: base and mask are written, in this
    order. *)
Example main_mask_run :
  main example_env example_args_mask =
    ([Print "[INFO] Collected 2 frame(s) from .:";
      Print "  - 1.png"; Print "  - 2.png";
      Mkdir ".";
      Save "scanimation_base.png"
        (mkImage RGBA 2 1 [[[10; 20; 30; 0]; [40; 50; 60; 255]]]);
      Print ("[OK] Base saved -> scanimation_base.png  (size: 2x1, " +:+
             "frames: 2, slice: 1, dir: vertical)");
      Mkdir ".";
      Save "mask.png" (mkImage RGBA 2 1 [[[0; 0; 0; 0]; [0; 0; 0; 255]]]);
      Print "[OK] Mask saved -> mask.png  (period: 2 px)"],
     Ok ()).
Proof. by vm_compute. Qed.

(** X21. The output mode of a run: on the canvas an interlace returns the
    post-pass never fails and keeps the size; the image saved is RGB as
    soon as one of the two flags is set and RGBA, the canvas itself,
    otherwise. *)
Theorem main_post_pass_mode (args : Args.t) (W H : Z) (base : Image) :
  canvas W H base →
  ∃ img,
    main_post_pass args base = Ok img ∧
    width img = W ∧ height img = H ∧
    mode img =
      (if Args.white_bg args || Args.force_rgb args then RGB else RGBA) ∧
    (Args.white_bg args = false → Args.force_rgb args = false →
       img = base).
Proof.
  intros Hcanvas.
  destruct (main_post_pass_canvas args W H base Hcanvas)
    as (img & Hpost & Hw & Hh & Hm).
  exists img. do 4 (split; [done|]).
  intros Hwhite Hrgb. unfold main_post_pass in Hpost.
  rewrite Hwhite, Hrgb in Hpost. by injection Hpost as <-.
Qed.

Lemma main_post_pass_mode_witness :
  let args := example_args false true in
  let base := mkImage RGBA 2 1 [[[10; 20; 30; 0]; [40; 50; 60; 255]]] in
  canvas 2 1 base ∧
  ∃ img,
    main_post_pass args base = Ok img ∧
    width img = 2 ∧ height img = 1 ∧
    mode img =
      (if Args.white_bg args || Args.force_rgb args then RGB else RGBA) ∧
    (Args.white_bg args = false → Args.force_rgb args = false →
       img = base).
Proof.
  intros args base.
  assert (Hhyp : canvas 2 1 base).
  { unfold canvas. repeat split; (reflexivity || lia). }
  split; [exact Hhyp|].
  exact (main_post_pass_mode args 2 1 base Hhyp).
Defined.

(** ** Writes that fail *)

(** X28. When the base cannot be written, because its directory cannot be
    made or because the encoder refuses the image, the run raises that
    exception: nothing is saved, neither base nor mask, and the exit
    status is not zero. *)
Theorem main_base_write_failure (env : Env) (args : Args.t)
    (folder : string) (files : list string) (base : Image)
    (frames : list Image) (W H : Z) (img : Image) (e : exn) :
  (main_collect env args).2 = Ok (folder, files) →
  main_base env args files = Ok (base, frames, W, H) →
  main_post_pass args base = Ok img →
  let out_base := path_str env (Args.out_base args) in
  mkdir_error env (path_parent env out_base) = Some e ∨
  (mkdir_error env (path_parent env out_base) = None ∧
   save_error env out_base img = Some e) →
  (main env args).2 = Raise e ∧
  saves (main env args).1 = [] ∧
  exit_status (main env args).2 ≠ 0.
Proof.
  intros Hcollect Hbase Hpost out_base Hfail.
  pose proof (main_outcome env args folder files Hcollect) as Hout.
  rewrite Hbase, Hpost in Hout. cbn zeta in Hout. fold out_base in Hout.
  destruct Hfail as [Hmk|[Hmk Hsv]].
  - rewrite Hmk in Hout. destruct Hout as [-> ->]. done.
  - rewrite Hmk, Hsv in Hout. destruct Hout as [-> ->]. done.
Qed.

Lemma main_base_write_failure_witness :
  let env := jpeg_env in
  let args := example_args_out 1 "base.jpg" None in
  let files := ["1.png"; "2.png"] in
  let frames := [solid 2 1 [10; 20; 30; 0]; solid 2 1 [40; 50; 60; 255]] in
  let base := mkImage RGBA 2 1 [[[10; 20; 30; 0]; [40; 50; 60; 255]]] in
  let e := OSError "cannot write mode RGBA as JPEG" in
  let out_base := path_str env (Args.out_base args) in
  ((main_collect env args).2 = Ok (".", files) ∧
   main_base env args files = Ok (base, frames, 2, 1) ∧
   main_post_pass args base = Ok base ∧
   (mkdir_error env (path_parent env out_base) = Some e ∨
    (mkdir_error env (path_parent env out_base) = None ∧
     save_error env out_base base = Some e))) ∧
  (main env args).2 = Raise e ∧
  saves (main env args).1 = [] ∧
  exit_status (main env args).2 ≠ 0.
Proof.
  intros env args files frames base e out_base.
  assert (Hhyp :
    (main_collect env args).2 = Ok (".", files) ∧
    main_base env args files = Ok (base, frames, 2, 1) ∧
    main_post_pass args base = Ok base ∧
    (mkdir_error env (path_parent env out_base) = Some e ∨
     (mkdir_error env (path_parent env out_base) = None ∧
      save_error env out_base base = Some e))).
  { split; [vm_compute; reflexivity|]. split; [vm_compute; reflexivity|].
    split; [reflexivity|]. right. split; vm_compute; reflexivity. }
  split; [exact Hhyp|].
  destruct Hhyp as (H1 & H2 & H3 & H4).
  exact (main_base_write_failure env args "." files base frames 2 1 base e
           H1 H2 H3 H4).
Defined.

(** X29. When the steps that follow the writing of the base fail, the
    base stays written. In a run that was asked for a mask and has
    written its base, if [make_mask] raises, or the directory of the mask
    cannot be made, or the encoder refuses the mask, the run raises that
    exception with the base as its only saved file and a non-zero exit
    status. *)
Theorem main_mask_step_failure (env : Env) (args : Args.t)
    (folder : string) (files : list string) (base : Image)
    (frames : list Image) (W H : Z) (img : Image) (e : exn) :
  (main_collect env args).2 = Ok (folder, files) →
  main_base env args files = Ok (base, frames, W, H) →
  main_post_pass args base = Ok img →
  truthy (Args.out_mask args) = true →
  let out_base := path_str env (Args.out_base args) in
  let out_mask := path_str env (default EmptyString (Args.out_mask args)) in
  let made :=
    make_mask W H (Args.slice args) (Z.of_nat (length frames))
      (Args.direction args) in
  mkdir_error env (path_parent env out_base) = None →
  save_error env out_base img = None →
  made = Raise e ∨
  (∃ mask, made = Ok mask ∧
     (mkdir_error env (path_parent env out_mask) = Some e ∨
      (mkdir_error env (path_parent env out_mask) = None ∧
       save_error env out_mask mask = Some e))) →
  (main env args).2 = Raise e ∧
  saves (main env args).1 = [(out_base, img)] ∧
  exit_status (main env args).2 ≠ 0.
Proof.
  intros Hcollect Hbase Hpost Hmask out_base out_mask made Hmk Hsv Hfail.
  pose proof (main_outcome env args folder files Hcollect) as Hout.
  rewrite Hbase, Hpost in Hout. cbn zeta in Hout.
  fold out_base in Hout. rewrite Hmk, Hsv, Hmask in Hout.
  fold made in Hout. fold out_mask in Hout.
  destruct Hfail as [Hmade|(mask & Hmade & [Hmk2|[Hmk2 Hsv2]])];
    rewrite Hmade in Hout.
  - destruct Hout as [-> ->]. done.
  - rewrite Hmk2 in Hout. destruct Hout as [-> ->]. done.
  - rewrite Hmk2, Hsv2 in Hout. destruct Hout as [-> ->]. done.
Qed.

Lemma main_mask_step_failure_witness :
  let env := jpeg_env in
  let args := example_args_out 1 "scanimation_base.png" (Some "mask.jpg") in
  let files := ["1.png"; "2.png"] in
  let frames := [solid 2 1 [10; 20; 30; 0]; solid 2 1 [40; 50; 60; 255]] in
  let base := mkImage RGBA 2 1 [[[10; 20; 30; 0]; [40; 50; 60; 255]]] in
  let e := OSError "cannot write mode RGBA as JPEG" in
  let out_base := path_str env (Args.out_base args) in
  let out_mask := path_str env (default EmptyString (Args.out_mask args)) in
  let made :=
    make_mask 2 1 (Args.slice args) (Z.of_nat (length frames))
      (Args.direction args) in
  ((main_collect env args).2 = Ok (".", files) ∧
   main_base env args files = Ok (base, frames, 2, 1) ∧
   main_post_pass args base = Ok base ∧
   truthy (Args.out_mask args) = true ∧
   mkdir_error env (path_parent env out_base) = None ∧
   save_error env out_base base = None ∧
   (made = Raise e ∨
    (∃ mask, made = Ok mask ∧
       (mkdir_error env (path_parent env out_mask) = Some e ∨
        (mkdir_error env (path_parent env out_mask) = None ∧
         save_error env out_mask mask = Some e))))) ∧
  (main env args).2 = Raise e ∧
  saves (main env args).1 = [(out_base, base)] ∧
  exit_status (main env args).2 ≠ 0.
Proof.
  intros env args files frames base e out_base out_mask made.
  assert (Hhyp :
    (main_collect env args).2 = Ok (".", files) ∧
    main_base env args files = Ok (base, frames, 2, 1) ∧
    main_post_pass args base = Ok base ∧
    truthy (Args.out_mask args) = true ∧
    mkdir_error env (path_parent env out_base) = None ∧
    save_error env out_base base = None ∧
    (made = Raise e ∨
     (∃ mask, made = Ok mask ∧
        (mkdir_error env (path_parent env out_mask) = Some e ∨
         (mkdir_error env (path_parent env out_mask) = None ∧
          save_error env out_mask mask = Some e))))).
  { split; [vm_compute; reflexivity|]. split; [vm_compute; reflexivity|].
    do 4 (split; [reflexivity|]).
    right. eexists. split; [vm_compute; reflexivity|].
    right. split; vm_compute; reflexivity. }
  split; [exact Hhyp|].
  destruct Hhyp as (H1 & H2 & H3 & H4 & H5 & H6 & H7).
  exact (main_mask_step_failure env args "." files base frames 2 1 base e
           H1 H2 H3 H4 H5 H6 H7).
Defined.

(** The run with a slice beyond the range of a C [int]: the interlace
    clamps it to the width and the base is written; the mask does not
    clamp it, and the run ends in [OverflowError] with the base saved. *)
Example main_slice_overflow_run :
  let run := main example_env
               (example_args_out 2147483648 "scanimation_base.png"
                  (Some "mask.png")) in
  run.2 = Raise OverflowError ∧
  saves run.1 =
    [("scanimation_base.png",
      mkImage RGBA 2 1 [[[10; 20; 30; 0]; [10; 20; 30; 0]]])].
Proof. split; by vm_compute. Qed.

(** ** More on compositing *)

Lemma tabulate_ext (w h : Z) (f g : Z → Z → Pixel) :
  (∀ x y, 0 ≤ x < w → 0 ≤ y < h → f x y = g x y) →
  tabulate w h f = tabulate w h g.
Proof.
  intros Hfg. unfold tabulate.
  apply list_fmap_ext. intros _ y Hy%list_elem_of_lookup_2%elem_of_seqZ.
  apply list_fmap_ext. intros _ x Hx%list_elem_of_lookup_2%elem_of_seqZ.
  apply Hfg; lia.
Qed.

(** Converting a tabulated image to its own mode gives it back. *)
Lemma convert_same_mode (m : Mode) (w h : Z) (f : Z → Z → Pixel) :
  PIL.convert (mkImage m w h (tabulate w h f)) m
    = mkImage m w h (tabulate w h f).
Proof.
  unfold PIL.convert. cbn [mode width height]. f_equal.
  apply tabulate_ext. intros x y Hx Hy. unfold pixel_or_zero.
  rewrite pixel_at_tabulate by done. by destruct m.
Qed.

Lemma composite_on_white_shape (img out : Image) :
  composite_on_white img = Ok out →
  ∃ w h f, out = mkImage RGB w h (tabulate w h f).
Proof.
  unfold composite_on_white. case_decide.
  - intros [= <-]. by eexists _, _, _.
  - intros Hrun. bind_inv Hrun.
    apply new_shape in Hcall as (Hm & _).
    unfold PIL.paste in Hrun. destruct (PIL.mask_fits _ _); [|done].
    injection Hrun as <-. rewrite Hm. by eexists _, _, _.
Qed.

(** X22. Compositing on white is idempotent: an image that has been
    composited comes back unchanged when it is composited again. *)
Theorem composite_on_white_idempotent (img out : Image) :
  composite_on_white img = Ok out → composite_on_white out = Ok out.
Proof.
  intros (w & h & f & ->)%composite_on_white_shape.
  unfold composite_on_white. cbn [mode].
  rewrite decide_True by done. f_equal. apply convert_same_mode.
Qed.

Lemma composite_on_white_idempotent_witness :
  let img := mkImage RGBA 2 1 [[[10; 20; 30; 0]; [40; 50; 60; 255]]] in
  let out := mkImage RGB 2 1 [[[255; 255; 255]; [40; 50; 60]]] in
  composite_on_white img = Ok out ∧ composite_on_white out = Ok out.
Proof.
  intros img out.
  assert (Hhyp : composite_on_white img = Ok out).
  { vm_compute. reflexivity. }
  split; [exact Hhyp|].
  exact (composite_on_white_idempotent img out Hhyp).
Defined.

Lemma div255_mono (t1 t2 : Z) : t1 ≤ t2 → div255 t1 ≤ div255 t2.
Proof.
  intros Ht. unfold div255. rewrite !Z.shiftr_div_pow2 by lia.
  change (2 ^ 8) with 256.
  apply Z.div_le_mono; [lia|].
  pose proof (Z.div_le_mono (t1 + 128) (t2 + 128) 256 ltac:(lia) ltac:(lia)).
  lia.
Qed.

(** Over white a band can only get lighter. *)
Lemma blend8_white (a c : Z) :
  0 ≤ a ≤ 255 → 0 ≤ c ≤ 255 → c ≤ blend8 a 255 c ≤ 255.
Proof.
  intros Ha Hc. split.
  - rewrite <- (div255_exact c) at 1 by done.
    unfold blend8. apply div255_mono. nia.
  - apply blend8_range; lia.
Qed.

(** X23. Compositing on white never darkens: for every pixel of a
    well-formed RGBA canvas, whatever its alpha, each of the three bands
    of the result lies between the band of the input and 255. *)
Theorem composite_on_white_lightens (img : Image) (x y : Z) (p : Pixel) :
  mode img = RGBA → valid_image img → pixel_at img x y = Some p →
  ∃ out q,
    composite_on_white img = Ok out ∧
    pixel_at out x y = Some q ∧
    length q = 3%nat ∧
    ∀ k, (k < 3)%nat → chan p k ≤ chan q k ≤ 255.
Proof.
  intros Hmode Hvalid Hp.
  destruct (composite_on_white_spec img Hmode Hvalid)
    as (out & Hrun & _ & _ & _ & _ & Hpx).
  exists out, [blend8 (chan p 3) 255 (chan p 0);
               blend8 (chan p 3) 255 (chan p 1);
               blend8 (chan p 3) 255 (chan p 2)].
  split; [done|]. split; [by apply Hpx|]. split; [done|].
  assert (Hvp : valid_pixel RGBA p).
  { assert (Hin : 0 ≤ x < width img ∧ 0 ≤ y < height img).
    { destruct (decide (0 ≤ x < width img ∧ 0 ≤ y < height img)); [done|].
      by rewrite pixel_at_outside in Hp. }
    destruct (pixel_at_valid img x y Hvalid) as (p' & Hp' & Hvp); [lia..|].
    rewrite Hp in Hp'. injection Hp' as <-. by rewrite Hmode in Hvp. }
  destruct (valid_rgba p Hvp) as (_ & ? & ? & ? & ?).
  intros k Hk.
  destruct k as [|[|[|k]]]; [..|lia]; unfold chan at 2 4; simpl;
    by apply blend8_white.
Qed.

Lemma composite_on_white_lightens_witness :
  let img := mkImage RGBA 2 1 [[[10; 20; 30; 128]; [40; 50; 60; 255]]] in
  (mode img = RGBA ∧ valid_image img ∧
   pixel_at img 0 0 = Some [10; 20; 30; 128]) ∧
  ∃ out q,
    composite_on_white img = Ok out ∧
    pixel_at out 0 0 = Some q ∧
    length q = 3%nat ∧
    ∀ k, (k < 3)%nat → chan [10; 20; 30; 128] k ≤ chan q k ≤ 255.
Proof.
  intros img.
  assert (Hhyp : mode img = RGBA ∧ valid_image img ∧
                 pixel_at img 0 0 = Some [10; 20; 30; 128]).
  { apply (bool_decide_unpack _). vm_compute. exact I. }
  split; [exact Hhyp|].
  destruct Hhyp as (H1 & H2 & H3).
  exact (composite_on_white_lightens img 0 0 [10; 20; 30; 128] H1 H2 H3).
Defined.

(** ** The two directions *)

Lemma pixel_at_transpose (f : Image) (x y : Z) :
  valid_image f → 0 ≤ x < width f → 0 ≤ y < height f →
  pixel_at (transpose f) y x = pixel_at f x y.
Proof.
  intros Hv Hx Hy. unfold transpose.
  rewrite pixel_at_tabulate by done. unfold pixel_or_zero.
  by destruct (pixel_at_valid f x y Hv Hx Hy) as (p & -> & _).
Qed.

Lemma is_frame_transpose (W H : Z) (f : Image) :
  is_frame W H f → is_frame H W (transpose f).
Proof.
  intros (Hm & Hw & Hh & Hv). pose proof Hv as [(HW & HH & _) _].
  unfold transpose. split; [done|]. do 2 (split; [done|]).
  apply valid_tabulate; [lia..|]. intros x y _ _.
  by apply pixel_or_zero_valid.
Qed.

(** X24. The horizontal interlace is the vertical interlace seen sideways:
    interlacing the frames horizontally gives the transpose of what the
    vertical interlace makes of the transposed frames. *)
Theorem interlace_horizontal_transpose (frames : list Image) (W H S : Z) :
  (1 ≤ length frames)%nat → Forall (is_frame W H) frames →
  ∃ out,
    interlace_vertical (transpose <$> frames) H W S = Ok out ∧
    interlace_horizontal frames W H S = Ok (transpose out).
Proof.
  intros Hne Hframes.
  assert (0 ≤ W ∧ 0 ≤ H) as [HW HH].
  { destruct frames as [|f frames]; [simpl in Hne; lia|].
    apply Forall_cons in Hframes as [(_ & <- & <- & (? & ? & _) & _) _].
    done. }
  assert (Hframes' : Forall (is_frame H W) (transpose <$> frames)).
  { apply Forall_fmap. eapply Forall_impl; [exact Hframes|].
    intros f Hf. by apply is_frame_transpose. }
  destruct (interlace_vertical_spec (transpose <$> frames) H W S)
    as (out & Hrun & Hm & Hw & Hh & Hpx); [by rewrite length_fmap|done..|].
  destruct (interlace_horizontal_spec frames W H S)
    as (out' & Hrun' & Hm' & Hw' & Hh' & Hpx'); [done..|].
  exists out. split; [done|]. rewrite Hrun'. f_equal.
  pose proof (interlace_horizontal_valid frames W H S out'
                (is_frame_weaken _ _ _ Hframes) Hrun') as [Hs' _].
  apply image_ext; [done| |unfold transpose; simpl; congruence..|].
  { unfold transpose. apply well_shaped_tabulate; lia. }
  intros x y Hx Hy. rewrite Hw' in Hx. rewrite Hh' in Hy.
  rewrite Hpx' by done. unfold transpose.
  rewrite Hw, Hh. rewrite pixel_at_tabulate by done.
  unfold pixel_or_zero. rewrite Hpx by done.
  unfold horizontal_source, vertical_source.
  rewrite length_fmap, list_lookup_fmap.
  destruct (frame_of_column frames W H (clamp_slice S H)
              (clamp_slice_pos S H) Hne Hframes y)
    as (f & -> & _ & Hfw & Hfh & Hfv); [lia|].
  simpl. rewrite pixel_at_transpose by (done || lia).
  by destruct (pixel_at_valid f x y Hfv) as (p & -> & _); [lia..|].
Qed.

Lemma interlace_horizontal_transpose_witness :
  let frames := [solid 2 4 red; solid 2 4 green; solid 2 4 blue] in
  ((1 ≤ length frames)%nat ∧ Forall (is_frame 2 4) frames) ∧
  ∃ out,
    interlace_vertical (transpose <$> frames) 4 2 1 = Ok out ∧
    interlace_horizontal frames 2 4 1 = Ok (transpose out).
Proof.
  intros frames.
  assert (Hhyp : (1 ≤ length frames)%nat ∧ Forall (is_frame 2 4) frames).
  { apply (bool_decide_unpack _). vm_compute. exact I. }
  split; [exact Hhyp|].
  destruct Hhyp as (H1 & H2).
  exact (interlace_horizontal_transpose frames 2 4 1 H1 H2).
Defined.

(** ** Collecting the files *)

(** X25. What [collect_files] keeps, given that the natural sort only
    reorders its input: a path is collected if and only if the folder
    listing holds it, it is a regular file, and its suffix, lowered and
    without leading dots, is that of one of the extensions asked for that
    is not blank. Directories and other suffixes never get through. *)
Theorem collect_files_keeps (env : Env) (folder : string)
    (exts : list string) (recursive : bool) (p : string) :
  (∀ l key, natsorted env l key ≡ₚ l) →
  p ∈ collect_files env folder exts recursive ↔
  p ∈ (if recursive then path_rglob env folder else path_glob env folder) ∧
  path_is_file env p = true ∧
  ∃ e, e ∈ exts ∧ str_strip env e ≠ EmptyString ∧
       str_lstrip env (str_lower env (path_suffix env p)) "."
         = str_lstrip env (str_lower env e) ".".
Proof.
  intros Hsort. unfold collect_files. rewrite Hsort.
  assert (Hwanted : ∀ q,
    q ∈ (list_to_set
           ((λ e, str_lstrip env (str_lower env e) ".")
              <$> filter (λ e, str_strip env e ≠ EmptyString) exts)
         : gset string) ↔
    ∃ e, e ∈ exts ∧ str_strip env e ≠ EmptyString ∧
         q = str_lstrip env (str_lower env e) ".").
  { intros q. rewrite elem_of_list_to_set, list_elem_of_fmap.
    split.
    - intros (e & -> & [He Hin]%list_elem_of_filter). by exists e.
    - intros (e & Hin & He & ->). exists e. split; [done|].
      by apply list_elem_of_filter. }
  destruct recursive; rewrite list_elem_of_filter, Hwanted; tauto.
Qed.

Lemma collect_files_keeps_witness :
  let env := example_env in
  (∀ l key, natsorted env l key ≡ₚ l) ∧
  ("1.png" ∈ collect_files env "." ["png"] false ↔
   "1.png" ∈ (if false then path_rglob env "." else path_glob env ".") ∧
   path_is_file env "1.png" = true ∧
   ∃ e, e ∈ ["png"] ∧ str_strip env e ≠ EmptyString ∧
        str_lstrip env (str_lower env (path_suffix env "1.png")) "."
          = str_lstrip env (str_lower env e) ".").
Proof.
  intros env.
  assert (Hhyp : ∀ l key, natsorted env l key ≡ₚ l).
  { intros l key. reflexivity. }
  split; [exact Hhyp|].
  exact (collect_files_keeps env "." ["png"] false "1.png" Hhyp).
Defined.

(** ** The frames a run interlaces *)

(** X26. What [main] hands to the interlacer: when the base has been
    built, there is exactly one frame per collected file, and every frame
    is RGBA and has the unified size the interlacer and the mask are
    called with. *)
Theorem main_base_unified (env : Env) (args : Args.t) (files : list string)
    (base : Image) (frames : list Image) (W H : Z) :
  main_base env args files = Ok (base, frames, W, H) →
  length frames = length files ∧
  Forall (λ f, mode f = RGBA ∧ width f = W ∧ height f = H) frames ∧
  canvas W H base.
Proof.
  intros Hbase. split; [by eapply main_base_frames|].
  split; [|by eapply main_base_canvas].
  apply main_base_inv in Hbase as (loaded & Hload & Hunify & _).
  apply load_frames_inv in Hload as [_ Hmodes].
  apply unify_sizes_inv in Hunify as [-> _].
  apply Forall_fmap. eapply Forall_impl; [exact Hmodes|].
  intros f Hf. simpl.
  destruct (fit_to_spec env W H f) as (-> & ? & ? & _). done.
Qed.

Lemma main_base_unified_witness :
  let args := example_args false false in
  let files := ["1.png"; "2.png"] in
  let frames := [solid 2 1 [10; 20; 30; 0]; solid 2 1 [40; 50; 60; 255]] in
  let base := mkImage RGBA 2 1 [[[10; 20; 30; 0]; [40; 50; 60; 255]]] in
  main_base example_env args files = Ok (base, frames, 2, 1) ∧
  length frames = length files ∧
  Forall (λ f, mode f = RGBA ∧ width f = 2 ∧ height f = 1) frames ∧
  canvas 2 1 base.
Proof.
  intros args files frames base.
  assert (Hhyp : main_base example_env args files = Ok (base, frames, 2, 1)).
  { vm_compute. reflexivity. }
  split; [exact Hhyp|].
  exact (main_base_unified example_env args files base frames 2 1 Hhyp).
Defined.
